(** * Google-Maps restaurant scraper: a shallow embedding of its harvesting
      state machine and of its merge step.

    The development follows the JavaScript sources:
    - [batchScraper.mjs]: [getUniqueRestaurants], [scrapeWithConcurrency],
      the merge step of [main];
    - [scraper.mjs]: [executeWithRetry], [RestaurantScraper.scrollToEnd],
      [RestaurantScraper.scrapeRestaurants], [RestaurantScraper.saveToCSV];
    - [index.mjs] and [src/unnamed/part_001]: their variants of the item
      loop of [scrapeRestaurants].

    Pure functions are Rocq functions; [String.prototype.toLowerCase] and
    [String.prototype.trim] are parameters of which nothing is assumed, so
    what is proved holds for the functions of the JavaScript engine.  Code
    that talks to the browser, the
    console, the clock or the file system runs in a small state-and-exception
    monad whose state carries the external world, the console/clock trace and
    the array [restaurantsData] that the scraping loop mutates. *)

From Stdlib Require Import ZArith Ascii String.
From stdpp Require Import base decidable list strings gmap.

Local Open Scope string_scope.
Local Open Scope list_scope.

(** ** JavaScript values and objects, as far as the scraper uses them *)

(** Field values of a record: a string, [undefined] (a CSV row shorter than
    its header, or a property that does not exist), [null], or a number.  A
    number is only ever printed, and is kept as the text printing gives. *)
Inductive JsValue :=
| JsUndefined
| JsNull
| JsString (s : string)
| JsNumber (printed : string).

#[global] Instance JsValue_eq_dec : EqDecision JsValue.
Proof. solve_decision. Defined.

(** An object is its list of own properties in insertion order, which is the
    order [Object.keys] and [Object.values] enumerate; no key occurs twice. *)
Definition JsObject := list (string * JsValue).

(** [obj.k]: the value of property [k], [undefined] when absent. *)
Fixpoint getProp (obj : JsObject) (k : string) : JsValue :=
  match obj with
  | [] => JsUndefined
  | (k', v) :: rest => if String.eqb k' k then v else getProp rest k
  end.

(** [obj[k] = v]: an existing property keeps its place, a new one goes last. *)
Fixpoint setProp (obj : JsObject) (k : string) (v : JsValue) : JsObject :=
  match obj with
  | [] => [(k, v)]
  | (k', v') :: rest =>
      if String.eqb k' k then (k', v) :: rest else (k', v') :: setProp rest k v
  end.

(** [Object.fromEntries(entries)] *)
Definition fromEntries (entries : list (string * JsValue)) : JsObject :=
  fold_left (fun obj kv => setProp obj (fst kv) (snd kv)) entries [].

(** [{ ...a, ...b }] *)
Definition spread (a b : JsObject) : JsObject :=
  fold_left (fun obj kv => setProp obj (fst kv) (snd kv)) b (fromEntries a).

(** [`${v}`] : string conversion inside a template literal. *)
Definition templateString (v : JsValue) : string :=
  match v with
  | JsUndefined => "undefined"
  | JsNull => "null"
  | JsString s => s
  | JsNumber printed => printed
  end.

(** ** The string methods that rest on Unicode's tables

    [String.prototype.toLowerCase] maps a text by Unicode's case tables and
    [String.prototype.trim] strips Unicode's white space and line
    terminators from both ends.  The program is modelled over any two such
    functions: nothing is assumed of them. *)
Class StringMethods := {
  toLowerCase : string -> string;
  trim : string -> string
}.

(** *** The two methods on ASCII text

    What they do to a text of ASCII characters; the scripted runs below use
    them. *)

(** A letter [A-Z]. *)
Definition isUpperChar (c : ascii) : bool :=
  let n := nat_of_ascii c in
  (65 <=? n)%nat && (n <=? 90)%nat.

Definition toLowerCaseChar (c : ascii) : ascii :=
  if isUpperChar c then ascii_of_nat (nat_of_ascii c + 32) else c.

Fixpoint toLowerCaseAscii (s : string) : string :=
  match s with
  | EmptyString => EmptyString
  | String c s' => String (toLowerCaseChar c) (toLowerCaseAscii s')
  end.

(** White space and line terminators among the ASCII characters: tab, line
    feed, vertical tab, form feed, carriage return and space. *)
Definition isSpaceChar (c : ascii) : bool :=
  let n := nat_of_ascii c in
  ((9 <=? n)%nat && (n <=? 13)%nat) || (n =? 32)%nat.

Fixpoint trimStart (s : string) : string :=
  match s with
  | EmptyString => EmptyString
  | String c rest => if isSpaceChar c then trimStart rest else s
  end.

Fixpoint trimEnd (s : string) : string :=
  match s with
  | EmptyString => EmptyString
  | String c rest =>
      match trimEnd rest with
      | EmptyString => if isSpaceChar c then EmptyString else String c EmptyString
      | kept => String c kept
      end
  end.

Definition trimAscii (s : string) : string := trimEnd (trimStart s).

Definition asciiStrings : StringMethods := {|
  toLowerCase := toLowerCaseAscii;
  trim := trimAscii
|}.

(** ** batchScraper.mjs: [getUniqueRestaurants] *)

Module MergeReducer.
Section WithStrings.
Context `{StringMethods}.

Definition nameOf (restaurant : JsObject) : string :=
  templateString (getProp restaurant "name").

Definition addressOf (restaurant : JsObject) : string :=
  templateString (getProp restaurant "address").

(** [`${restaurant.name}-${restaurant.address}`.toLowerCase()] *)
Definition dedupKey (restaurant : JsObject) : string :=
  toLowerCase (nameOf restaurant +:+ "-" +:+ addressOf restaurant).

(** The callback of [allRestaurants.filter], with the [Set] it closes over
    threaded through the traversal. *)
Fixpoint filterUnseen (seen : gset string) (allRestaurants : list JsObject)
  : list JsObject :=
  match allRestaurants with
  | [] => []
  | restaurant :: rest =>
      let key := dedupKey restaurant in
      if decide (key ∈ seen) then filterUnseen seen rest
      else restaurant :: filterUnseen ({[ key ]} ∪ seen) rest
  end.

Definition getUniqueRestaurants (allRestaurants : list JsObject)
  : list JsObject :=
  filterUnseen ∅ allRestaurants.

(** The specification's wording, by positions: the record at position [i]
    is the first one observed for its key when no earlier position of the
    input carries the same key. *)
Definition isFirstForKey (all : list JsObject) (i : nat) (r : JsObject)
  : bool :=
  forallb (fun r' => negb (String.eqb (dedupKey r') (dedupKey r)))
          (take i all).

(** Keep the positions that are first for their key, in input order. *)
Definition keepFirstPerKey (all : list JsObject) : list JsObject :=
  fst <$> List.filter (fun p => isFirstForKey all (snd p) (fst p))
                      (zip all (seq 0 (length all))).

(** The specification writes the key as lowercase(name) + "-" +
    lowercase(address).  The two readings agree when lower-casing the
    joined text is lower-casing its two parts.  Unicode's one rule that
    looks at the neighbours of a letter, for the final sigma, does not look
    across the hyphen-minus, which is neither a cased letter nor
    case-ignorable. *)
Definition lowerCaseOfParts : Prop :=
  ∀ name address : string,
    toLowerCase (name +:+ "-" +:+ address)
    = toLowerCase name +:+ "-" +:+ toLowerCase address.

End WithStrings.
End MergeReducer.

(** ** Effects: exceptions, the console, the clock *)

Inductive JsError :=
| TimeoutError                         (* a puppeteer wait ran out of time *)
| ReferenceError (identifier : string) (* an identifier that is not declared *)
| TypeError (message : string)
| OtherError (message : string).

Inductive Result (A : Type) :=
| Return (a : A)
| Throw (e : JsError).
Arguments Return {A} a.
Arguments Throw {A} e.

(** A computation over a state [S] that returns or throws. *)
Definition Js (S A : Type) : Type := S -> Result A * S.

Definition ret {S A} (a : A) : Js S A := fun s => (Return a, s).

Definition throw {S A} (e : JsError) : Js S A := fun s => (Throw e, s).

Definition bind {S A B} (m : Js S A) (k : A -> Js S B) : Js S B :=
  fun s =>
    match m s with
    | (Return a, s') => k a s'
    | (Throw e, s') => (Throw e, s')
    end.

(** [try { m } catch (error) { handler error }] *)
Definition tryCatch {S A} (m : Js S A) (handler : JsError -> Js S A) : Js S A :=
  fun s =>
    match m s with
    | (Return a, s') => (Return a, s')
    | (Throw e, s') => handler e s'
    end.

#[global] Instance Js_ret {S} : MRet (Js S) := fun A => @ret S A.
#[global] Instance Js_bind {S} : MBind (Js S) := fun A B k m => @bind S A B m k.

(** The [actionName] strings handed to [executeWithRetry]; the number is the
    1-based item number [i + 1] printed in the message. *)
Inductive Action :=
| ScrollingTo (n : nat)   (* `Scrolling to restaurant ${i + 1}` *)
| Clicking (n : nat)      (* `Clicking restaurant ${i + 1}` *)
| Closing (n : nat).      (* `Closing restaurant ${i + 1}` *)

#[global] Instance Action_eq_dec : EqDecision Action.
Proof. solve_decision. Defined.

Inductive FilePath :=
| TmpCsv (index : nat)     (* path.join(TMP_DIR, `restaurants_${index}.csv`) *)
| FinalOutput              (* 'all_restaurants.csv' *)
| NamedFile (name : string).

(** What the detail panel yields: [{ name, phone, website, address }]. *)
Record RestaurantInfo := mkInfo {
  info_name : string;
  info_phone : string;
  info_website : string;
  info_address : string
}.

(** Everything the program does that an observer can see, in order: console
    lines and sleeps.  Four markers stand in front of calls whose effect
    lies in the outside world: [Invoke] in front of each call
    [func(retryCount)] made by [executeWithRetry], [WriteFile] in front of
    each [fs.writeFile], [RemoveTmpDir] in front of [fs.rm] and [AwaitAll]
    in front of each [Promise.all]. *)
Inductive Event :=
| Invoke (a : Action) (retryCount : nat)
| LogRetry (a : Action) (retryCount maxRetries : nat)
| Delay (ms : nat)
| LogScrolling
| LogEndOfList
| LogNoMoreResults
| LogScrolled (scrollAttempts : nat)
| LogMaxAttempts
| ErrScrolling (e : JsError)
| LogExtracted (info : option RestaurantInfo)
| ErrExtracting (e : JsError)
| LogFound (n : nat)
| LogProcessing (item total : nat)
| ErrFailedScroll (item attempts : nat)
| ErrFailedOpen (item attempts : nat)
| ErrFailedClose (item attempts : nat)
| LogScraped (name placeId : string)
| LogScrapedName (name : string)
| LogItem (item : JsObject)
| LogRetryFor (retryCount maxRetries item : nat)
| ErrProcessing (e : JsError)
| ErrScraping (e : JsError)
| LogNoData
| WriteFile (file : FilePath) (content : string)
| LogSaved (file : FilePath)
| LogChunk (chunk total : nat)
| LogStartingQuery (query : string)
| AwaitAll (files : list FilePath)
| LogWaiting
| LogFoundUnique (unique total : nat)
| LogFinalSaved
| RemoveTmpDir
| LogExecutionTime.

(** ** The browser page and the file system, as the program sees them

    Each field is one interaction of the sources with puppeteer's [page], an
    element handle or [fs].  An interaction reads and changes the outside
    world [W] and either resolves or rejects. *)
Class Page (W : Type) := {
  (** what happens to the world while the program sleeps for [ms] *)
  elapse : nat -> W -> W;
  (** [page.waitForSelector('div[role="feed"]')] *)
  waitForSelectorFeed : Js W unit;
  (** [page.waitForFunction(() => feed && feed.children.length > 0)] *)
  waitForFeedChildren : Js W unit;
  (** [document.querySelector('div[role="feed"]').scrollHeight] *)
  feedScrollHeight : Js W Z;
  (** [feed.scrollTo(0, feed.scrollHeight * 2)] *)
  feedScrollTo : Js W unit;
  (** [page.waitForFunction(prev => feed.scrollHeight > prev, {}, lastHeight)] *)
  waitForHeightAbove : Z -> Js W unit;
  (** the XPath test for a visible 'reached the end of the list' node *)
  endOfListVisible : Js W bool;
  (** the wait for [.loading-indicator] to go away, [timeout: 2000] *)
  waitForLoadingIndicator : Js W unit;
  (** [page.$$('div[role="feed"] > div > div > a')]: how many links *)
  queryFeedLinks : Js W nat;
  (** [restaurantLinks[i].evaluate(link => ... placeId ...)] *)
  linkPlaceId : nat -> Js W string;
  (** [page.evaluate(link => link.scrollIntoView(), restaurantLinks[i])] *)
  linkScrollIntoView : nat -> Js W unit;
  (** the wait for link [i] to be inside the viewport, with its timeout;
      [None] stands for the option object [{}] *)
  waitForLinkInViewport : nat -> option nat -> Js W unit;
  (** [restaurantLinks[i].click()] *)
  linkClick : nat -> Js W unit;
  (** the wait for [mainDivs.length >= 2], with its timeout *)
  waitForDetailOpen : nat -> Js W unit;
  (** [page.waitForSelector('div[role="main"]')] *)
  waitForSelectorMain : Js W unit;
  (** the [page.evaluate] of [extractRestaurantInfo]; [None] is [null] *)
  evaluateRestaurantInfo : Js W (option RestaurantInfo);
  (** [restaurantLinks[i].evaluate(extractBriefInfo)] *)
  linkBriefInfo : nat -> Js W JsObject;
  (** [page.evaluate(extractDetailedInfo)]; [None] is [null] *)
  evaluateDetailedInfo : Js W (option JsObject);
  (** the [page.evaluate] that clicks the Close button of [mainDivs[1]] *)
  clickCloseButton : Js W unit;
  (** the wait for [mainDivs.length === 1]; [None] when no option is given *)
  waitForDetailClosed : option nat -> Js W unit;
  (** [fs.writeFile(filename, csvContent)] *)
  fsWriteFile : FilePath -> string -> Js W unit;
  (** [fs.rm(TMP_DIR, { recursive: true })] *)
  fsRemoveTmpDir : Js W unit;
  (** [Promise.all] over the chunk's [scrapeQuery(query, tmpFile)] calls *)
  awaitAllQueries : list (string * FilePath) -> Js W unit
}.

(** The program state: the outside world, what has been observed so far, and
    the array [restaurantsData] of [scrapeRestaurants]. *)
Record State (W : Type) := mkState {
  world : W;
  trace : list Event;
  restaurantsData : list JsObject
}.
Arguments mkState {W} _ _ _.
Arguments world {W} _.
Arguments trace {W} _.
Arguments restaurantsData {W} _.

(** ** scraper.mjs *)

Module Scraper.
Section WithPage.
Context {W : Type} `{Page W}.

(** An interaction with the page, run from the program. *)
Definition page {A} (p : Js W A) : Js (State W) A :=
  fun st =>
    let (r, w') := p (world st) in
    (r, mkState w' (trace st) (restaurantsData st)).

(** [console.log] / [console.error] and the other observable steps. *)
Definition emit (ev : Event) : Js (State W) unit :=
  fun st => (Return tt, mkState (world st) (trace st ++ [ev]) (restaurantsData st)).

(** [await delay(ms)] *)
Definition delay (ms : nat) : Js (State W) unit :=
  fun st =>
    (Return tt,
     mkState (elapse ms (world st)) (trace st ++ [Delay ms]) (restaurantsData st)).

(** [restaurantsData.push(item)] *)
Definition push (item : JsObject) : Js (State W) unit :=
  fun st =>
    (Return tt, mkState (world st) (trace st) (restaurantsData st ++ [item])).

(** [const restaurantsData = []] and reading the array back. *)
Definition newRestaurantsData : Js (State W) unit :=
  fun st => (Return tt, mkState (world st) (trace st) []).

Definition getRestaurantsData : Js (State W) (list JsObject) :=
  fun st => (Return (restaurantsData st), st).

(** Evaluating an identifier that no scope of the module declares. *)
Definition undeclared {A} (identifier : string) : Js (State W) A :=
  throw (ReferenceError identifier).

(** *** [executeWithRetry]

    [while (!success && retryCount < maxRetries)], unrolled over the number
    [remaining = maxRetries - retryCount] of attempts still allowed: with
    none left the test [retryCount < maxRetries] fails and [success], still
    [false], is returned; after a successful call [success] is [true], the
    test [!success] fails and [true] is returned. *)
Fixpoint retryLoop (func : nat -> Js W unit) (actionName : Action)
    (maxRetries remaining retryCount : nat) : Js (State W) bool :=
  match remaining with
  | 0 => mret false
  | S remaining' =>
      tryCatch
        (emit (Invoke actionName retryCount);;
         page (func retryCount);;
         mret true)
        (fun error =>
           emit (LogRetry actionName retryCount maxRetries);;
           delay 1000;;
           retryLoop func actionName maxRetries remaining' (S retryCount))
  end.

Definition executeWithRetry (func : nat -> Js W unit) (retries : nat)
    (actionName : Action) : Js (State W) bool :=
  let maxRetries := retries in
  retryLoop func actionName maxRetries maxRetries 0.

(** The default of the parameter [retries]. *)
Definition defaultRetries : nat := 3.

(** The action rejects [n] times in a row, being called with
    [retryCount], [retryCount + 1], ... and the program sleeping 1000 ms
    after each rejection: the world this leaves, [None] if one of the [n]
    calls resolves. *)
Fixpoint afterFailures (func : nat -> Js W unit) (n retryCount : nat) (w : W)
  : option W :=
  match n with
  | 0 => Some w
  | S n' =>
      match func retryCount w with
      | (Throw _, w') => afterFailures func n' (S retryCount) (elapse 1000 w')
      | (Return _, _) => None
      end
  end.

(** The action rejects on its first [k] calls and resolves on the next
    one, which is call number [k] counting from 0: the world this leaves. *)
Definition afterSuccess (func : nat -> Js W unit) (k : nat) (w : W) : option W :=
  match afterFailures func k 0 w with
  | None => None
  | Some wk =>
      match func k wk with
      | (Return _, w') => Some w'
      | (Throw _, _) => None
      end
  end.

(** What [n] failed attempts numbered from [retryCount] leave in the
    trace: the call, the console line, the pause. *)
Fixpoint failedAttempts (actionName : Action) (maxRetries retryCount n : nat)
  : list Event :=
  match n with
  | 0 => []
  | S n' =>
      Invoke actionName retryCount
      :: LogRetry actionName retryCount maxRetries
      :: Delay 1000
      :: failedAttempts actionName maxRetries (S retryCount) n'
  end.

(** The attempt indices with which the action was called, and the pauses
    made, as recorded in a trace. *)
Definition invocations (actionName : Action) (events : list Event) : list nat :=
  omap (fun ev =>
          match ev with
          | Invoke a retryCount =>
              if decide (a = actionName) then Some retryCount else None
          | _ => None
          end) events.

Definition delays (events : list Event) : list nat :=
  omap (fun ev => match ev with Delay ms => Some ms | _ => None end) events.

(** *** [RestaurantScraper.scrollToEnd] *)

Definition maxAttempts : nat := 50.

(** The body of [if (newHeight === lastHeight) { ... }]: [true] when it
    returns from [scrollToEnd]. *)
Definition stabilityCheck (lastHeight : Z) : Js (State W) bool :=
  tryCatch (page waitForLoadingIndicator) (fun _ => mret tt);;
  finalCheck ← page feedScrollHeight;
  if (finalCheck =? lastHeight)%Z
  then emit LogNoMoreResults;; mret true
  else mret false.

(** [while (scrollAttempts < maxAttempts)], unrolled over
    [remaining = maxAttempts - scrollAttempts]. *)
Fixpoint scrollLoop (remaining : nat) (lastHeight : Z) (scrollAttempts : nat)
  : Js (State W) unit :=
  match remaining with
  | 0 => emit LogMaxAttempts
  | S remaining' =>
      page feedScrollTo;;
      page (waitForHeightAbove lastHeight);;
      endOfList ← page endOfListVisible;
      if endOfList : bool then emit LogEndOfList
      else
        newHeight ← page feedScrollHeight;
        returned ← (if (newHeight =? lastHeight)%Z
                    then stabilityCheck lastHeight
                    else mret false);
        if returned : bool then mret tt
        else
          let scrollAttempts' := S scrollAttempts in
          (if (scrollAttempts' mod 5 =? 0)%nat
           then emit (LogScrolled scrollAttempts')
           else mret tt);;
          scrollLoop remaining' newHeight scrollAttempts'
  end.

Definition scrollToEnd : Js (State W) unit :=
  tryCatch
    (page waitForSelectorFeed;;
     page waitForFeedChildren;;
     emit LogScrolling;;
     lastHeight ← page feedScrollHeight;
     scrollLoop maxAttempts lastHeight 0)
    (fun error => emit (ErrScrolling error)).

(** *** [RestaurantScraper.extractRestaurantInfo] *)
Definition extractRestaurantInfo : Js (State W) (option RestaurantInfo) :=
  tryCatch
    (page waitForSelectorMain;;
     restaurantInfo ← page evaluateRestaurantInfo;
     emit (LogExtracted restaurantInfo);;
     mret restaurantInfo)
    (fun error => emit (ErrExtracting error);; mret None).

(** [{ ...restaurantInfo, placeId }] *)
Definition withPlaceId (restaurantInfo : RestaurantInfo) (placeId : string)
  : JsObject :=
  [("name", JsString (info_name restaurantInfo));
   ("phone", JsString (info_phone restaurantInfo));
   ("website", JsString (info_website restaurantInfo));
   ("address", JsString (info_address restaurantInfo));
   ("placeId", JsString placeId)].

(** *** [RestaurantScraper.scrapeRestaurants] *)

(** The three actions retried for item [i]. *)
Definition scrollFunc (i retryCount : nat) : Js W unit :=
  linkScrollIntoView i;;
  waitForLinkInViewport i (Some (2000 * (retryCount + 1))).

Definition clickFunc (i retryCount : nat) : Js W unit :=
  linkClick i;;
  waitForDetailOpen (2000 * (retryCount + 1)).

Definition closeFunc (retryCount : nat) : Js W unit :=
  clickCloseButton;;
  waitForDetailClosed (Some (2000 * (retryCount + 1))).

(** The [try { ... } catch] inside the loop, for item [i].  A branch that
    ends in [continue] ends the block.  The three failure messages
    interpolate [scrollingMaxRetries], [restaurantClickingMaxRetries] and
    [closingMaxRetries], which the module declares nowhere. *)
Definition processItemSteps (i : nat) (placeId : string) : Js (State W) unit :=
  scrollingSuccess ← executeWithRetry (scrollFunc i) defaultRetries (ScrollingTo (i + 1));
  if negb scrollingSuccess
  then
    scrollingMaxRetries ← undeclared "scrollingMaxRetries";
    emit (ErrFailedScroll (i + 1) scrollingMaxRetries)
  else
    restaurantClickingSuccess ←
      executeWithRetry (clickFunc i) defaultRetries (Clicking (i + 1));
    if negb restaurantClickingSuccess
    then
      restaurantClickingMaxRetries ← undeclared "restaurantClickingMaxRetries";
      emit (ErrFailedOpen (i + 1) restaurantClickingMaxRetries)
    else
      restaurantInfo ← extractRestaurantInfo;
      match restaurantInfo with
      | Some info =>
          push (withPlaceId info placeId);;
          emit (LogScraped (info_name info) placeId)
      | None => mret tt
      end;;
      closingSuccess ← executeWithRetry closeFunc defaultRetries (Closing (i + 1));
      if negb closingSuccess
      then
        closingMaxRetries ← undeclared "closingMaxRetries";
        emit (ErrFailedClose (i + 1) closingMaxRetries)
      else mret tt.

(** One iteration of [for (let i = 0; i < restaurantLinks.length; i++)]. *)
Definition processItem (total i : nat) : Js (State W) unit :=
  emit (LogProcessing (i + 1) total);;
  placeId ← tryCatch (page (linkPlaceId i)) (fun _ => mret "N/A");
  tryCatch (processItemSteps i placeId)
           (fun error => emit (ErrProcessing error)).

(** What reading the place id of link [i] yields and leaves: the [.catch]
    turns a rejection into ['N/A']. *)
Definition placeIdOf (i : nat) (w : W) : string * W :=
  match linkPlaceId i w with
  | (Return placeId, w') => (placeId, w')
  | (Throw _, w') => ("N/A", w')
  end.

(** What [extractRestaurantInfo] yields, prints and leaves when it starts
    in world [w]. *)
Definition extraction (w : W) : option RestaurantInfo * list Event * W :=
  match waitForSelectorMain w with
  | (Throw e, w') => (None, [ErrExtracting e], w')
  | (Return _, w') =>
      match evaluateRestaurantInfo w' with
      | (Throw e, w'') => (None, [ErrExtracting e], w'')
      | (Return restaurantInfo, w'') =>
          (restaurantInfo, [LogExtracted restaurantInfo], w'')
      end
  end.

(** The record pushed for an extraction, if any, and the line printed. *)
Definition pushed (restaurantInfo : option RestaurantInfo) (placeId : string)
  : list JsObject :=
  match restaurantInfo with
  | Some info => [withPlaceId info placeId]
  | None => []
  end.

Definition scrapedLine (restaurantInfo : option RestaurantInfo) (placeId : string)
  : list Event :=
  match restaurantInfo with
  | Some info => [LogScraped (info_name info) placeId]
  | None => []
  end.


(** A call of the closing action. *)
Definition isCloseAttempt (ev : Event) : bool :=
  match ev with
  | Invoke (Closing _) _ => true
  | _ => false
  end.

(** A loop whose body runs once for each member of a list, in order. *)
Fixpoint forEach {A} (body : A -> Js (State W) unit) (items : list A)
  : Js (State W) unit :=
  match items with
  | [] => mret tt
  | item :: rest => body item;; forEach body rest
  end.

Definition scrapeRestaurants : Js (State W) (list JsObject) :=
  newRestaurantsData;;
  tryCatch
    (scrollToEnd;;
     total ← page queryFeedLinks;
     emit (LogFound total);;
     forEach (processItem total) (seq 0 total))
    (fun error => emit (ErrScraping error));;
  getRestaurantsData.

(** *** [RestaurantScraper.saveToCSV] *)

(** [Array.prototype.join] prints [undefined] and [null] as the empty
    string. *)
Definition joinString (v : JsValue) : string :=
  match v with
  | JsUndefined | JsNull => ""
  | JsString s => s
  | JsNumber printed => printed
  end.

Definition join (sep : string) (parts : list string) : string :=
  String.concat sep parts.

Definition newline : string := String (ascii_of_nat 10) EmptyString.

(** [[Object.keys(first).join(','), ...data.map(item =>
    Object.values(item).join(','))].join('\n')] *)
Definition csvContent (first : JsObject) (data : list JsObject) : string :=
  join newline
    (join "," (fst <$> first)
     :: ((fun item => join "," ((fun kv => joinString (snd kv)) <$> item)) <$> data)).

(** [data] is [None] for [null] or [undefined]. *)
Definition saveToCSV (data : option (list JsObject)) (filename : FilePath)
  : Js (State W) unit :=
  match data with
  | None | Some [] => emit LogNoData
  | Some (first :: rest) =>
      let content := csvContent first (first :: rest) in
      emit (WriteFile filename content);;
      page (fsWriteFile filename content);;
      emit (LogSaved filename)
  end.

End WithPage.
End Scraper.

(** ** index.mjs: the item loop with its retry loop written in place *)

Module IndexScraper.
Section WithPage.
Context {W : Type} `{Page W}.
Import Scraper.

Definition maxRetries : nat := 3.

(** [while (!success && retryCount < maxRetries)] around the click and the
    wait for the second [div[role="main"]], unrolled over
    [remaining = maxRetries - retryCount].  The counter is incremented
    before the console line is printed. *)
Fixpoint clickLoop (i remaining retryCount : nat) : Js (State W) bool :=
  match remaining with
  | 0 => mret false
  | S remaining' =>
      tryCatch
        (page (linkClick i;; waitForDetailOpen (2000 * (retryCount + 1)));;
         mret true)
        (fun error =>
           let retryCount' := S retryCount in
           emit (LogRetryFor retryCount' maxRetries (i + 1));;
           delay 1000;;
           clickLoop i remaining' retryCount')
  end.

(** [restaurantsData.push(restaurantInfo)]: the record as extracted. *)
Definition asObject (restaurantInfo : RestaurantInfo) : JsObject :=
  [("name", JsString (info_name restaurantInfo));
   ("phone", JsString (info_phone restaurantInfo));
   ("website", JsString (info_website restaurantInfo));
   ("address", JsString (info_address restaurantInfo))].

(** The [try] block of one iteration.  [extractRestaurantInfo] has the
    shape of the one in scraper.mjs; the two differ in what the page
    evaluation reads. *)
Definition processItemSteps (i : nat) : Js (State W) unit :=
  page (linkScrollIntoView i);;
  page (waitForLinkInViewport i None);;
  success ← clickLoop i maxRetries 0;
  if negb success
  then emit (ErrFailedOpen (i + 1) maxRetries)
  else
    restaurantInfo ← extractRestaurantInfo;
    match restaurantInfo with
    | Some info =>
        push (asObject info);;
        emit (LogScrapedName (info_name info))
    | None => mret tt
    end;;
    page clickCloseButton;;
    page (waitForDetailClosed None).

Definition processItem (total i : nat) : Js (State W) unit :=
  emit (LogProcessing (i + 1) total);;
  tryCatch (processItemSteps i)
           (fun error => emit (ErrProcessing error)).

(** What the failed attempts number [retryCount], ... leave in the trace. *)
Fixpoint failedClicks (i retryCount n : nat) : list Event :=
  match n with
  | 0 => []
  | S n' =>
      LogRetryFor (S retryCount) maxRetries (i + 1)
      :: Delay 1000
      :: failedClicks i (S retryCount) n'
  end.

End WithPage.
End IndexScraper.

(** ** src/unnamed/part_001: the scraper with brief and detailed info *)

Module DetailScraper.
Section WithPage.
Context {W : Type} `{Page W}.
Import Scraper.

(** [str.replace(/([A-Z])/g, '_$1')] *)
Fixpoint underscoreUpper (str : string) : string :=
  match str with
  | EmptyString => EmptyString
  | String c rest =>
      if isUpperChar c
      then String "_" (String c (underscoreUpper rest))
      else String c (underscoreUpper rest)
  end.

(** The keys of the program are ASCII identifiers, for which
    [toLowerCase] is [toLowerCaseAscii]. *)
Definition decamelize (str : string) : string :=
  toLowerCaseAscii (underscoreUpper str).

Definition decamelizeKeys (obj : JsObject) : JsObject :=
  fromEntries ((fun kv => (decamelize (fst kv), snd kv)) <$> obj).

(** [{ ...detailedInfo, ...briefInfo }]; spreading [null] adds nothing. *)
Definition mergeInfo (detailedInfo : option JsObject) (briefInfo : JsObject)
  : JsObject :=
  spread (default [] detailedInfo) briefInfo.

(** The [try] block of one iteration; the executor, the three actions and
    the three undeclared identifiers are those of scraper.mjs. *)
Definition processItemSteps (i : nat) (briefInfo : JsObject) : Js (State W) unit :=
  scrollingSuccess ← executeWithRetry (scrollFunc i) defaultRetries (ScrollingTo (i + 1));
  if negb scrollingSuccess
  then
    scrollingMaxRetries ← undeclared "scrollingMaxRetries";
    emit (ErrFailedScroll (i + 1) scrollingMaxRetries)
  else
    restaurantClickingSuccess ←
      executeWithRetry (clickFunc i) defaultRetries (Clicking (i + 1));
    if negb restaurantClickingSuccess
    then
      restaurantClickingMaxRetries ← undeclared "restaurantClickingMaxRetries";
      emit (ErrFailedOpen (i + 1) restaurantClickingMaxRetries)
    else
      detailedInfo ← page evaluateDetailedInfo;
      let newItem := decamelizeKeys (mergeInfo detailedInfo briefInfo) in
      match detailedInfo with
      | Some detailed =>
          push newItem;;
          emit (LogScraped (templateString (getProp detailed "name"))
                           (templateString (getProp briefInfo "placeId")));;
          emit (LogItem newItem)
      | None => mret tt
      end;;
      closingSuccess ← executeWithRetry closeFunc defaultRetries (Closing (i + 1));
      if negb closingSuccess
      then
        closingMaxRetries ← undeclared "closingMaxRetries";
        emit (ErrFailedClose (i + 1) closingMaxRetries)
      else mret tt.

(** One iteration of the loop.  The brief info is read outside the [try]:
    its rejection leaves the loop. *)
Definition processItem (total i : nat) : Js (State W) unit :=
  emit (LogProcessing (i + 1) total);;
  briefInfo ← page (linkBriefInfo i);
  tryCatch (processItemSteps i briefInfo)
           (fun error => emit (ErrProcessing error)).

(** The record pushed and the lines printed for a detailed info. *)
Definition pushed (detailedInfo : option JsObject) (briefInfo : JsObject)
  : list JsObject :=
  match detailedInfo with
  | Some _ => [decamelizeKeys (mergeInfo detailedInfo briefInfo)]
  | None => []
  end.


End WithPage.
End DetailScraper.

(** ** batchScraper.mjs: [scrapeWithConcurrency] and the merge step of [main] *)

Module Batch.

(** An entry of [QUERIES]: [{ "name": ... }]. *)
Record Query := mkQuery { query_name : string }.

(** [`restaurant near ${queryObj.name}, New South Wales, Australia`] *)
Definition queryString (queryObj : Query) : string :=
  "restaurant near " +:+ query_name queryObj +:+ ", New South Wales, Australia".

(** [array.slice(start, stop)] for indices that are natural numbers; both
    ends are clamped to the length. *)
Definition slice {A} (l : list A) (start stop : nat) : list A :=
  take (stop - start) (drop start l).

(** [for (let i = 0; i < queries.length; i += concurrentLimit)
      chunks.push(queries.slice(i, i + concurrentLimit))],
    one iteration per unit of fuel; [None] when the fuel runs out before
    the loop test fails. *)
Fixpoint splitChunks {A} (fuel : nat) (queries : list A)
    (concurrentLimit i : nat) (chunks : list (list A))
  : option (list (list A)) :=
  match fuel with
  | 0 => None
  | S fuel' =>
      if (i <? length queries)%nat
      then splitChunks fuel' queries concurrentLimit (i + concurrentLimit)
             (chunks ++ [slice queries i (i + concurrentLimit)])%list
      else Some chunks
  end.

(** The default of the parameter [concurrentLimit]. *)
Definition defaultConcurrentLimit : nat := 10.

Section WithPage.
Context {W : Type} `{Page W} `{StringMethods}.

Import Scraper.

(** The query string and the temporary file of each member of chunk [i]. *)
Definition chunkJobs (concurrentLimit i : nat) (chunk : list Query)
  : list (string * FilePath) :=
  imap (fun index queryObj =>
          (queryString queryObj, TmpCsv (i * concurrentLimit + index)))
       chunk.

(** [for (let i = 0; i < chunks.length; i++)], from index [i] on;
    [remainingChunks] is [chunks] without its first [i] members and
    [total] is [chunks.length].  Every callback of [chunk.map] prints its
    line when it is called; [Promise.all] then waits for all of them. *)
Fixpoint processChunks (concurrentLimit total i : nat)
    (remainingChunks : list (list Query)) (results : list FilePath)
  : Js (State W) (list FilePath) :=
  match remainingChunks with
  | [] => mret results
  | chunk :: rest =>
      emit (LogChunk (i + 1) total);;
      let jobs := chunkJobs concurrentLimit i chunk in
      forEach (fun job => emit (LogStartingQuery (fst job))) jobs;;
      emit (AwaitAll (snd <$> jobs));;
      page (awaitAllQueries jobs);;
      let chunkResults := snd <$> jobs in
      let results' := (results ++ chunkResults)%list in
      (if (i <? total - 1)%nat
       then emit LogWaiting;; delay 5000
       else mret tt);;
      processChunks concurrentLimit total (S i) rest results' 
  end.

(** [scrapeWithConcurrency(queries, concurrentLimit)]; [None] when [fuel]
    does not suffice to split the queries.  The [setInterval] that prints
    CPU and memory figures is left out. *)
Definition scrapeWithConcurrency (fuel : nat) (queries : list Query)
    (concurrentLimit : nat) (st : State W)
  : option (Result (list FilePath) * State W) :=
  match splitChunks fuel queries concurrentLimit 0 [] with
  | None => None
  | Some chunks =>
      Some (processChunks concurrentLimit (length chunks) 0 chunks [] st)
  end.

(** [try { m } finally { final }] for a [final] that does not throw. *)
Definition tryFinally {A} (m : Js (State W) A) (final : Js (State W) unit)
  : Js (State W) A :=
  fun st =>
    let (r, st') := m st in
    match final st' with
    | (Return _, st'') => (r, st'')
    | (Throw e, st'') => (Throw e, st'')
    end.

(** [Object.keys(uniqueRestaurants[0])]: the keys of an object, a
    [TypeError] for [undefined]. *)
Definition objectKeysOfFirst (uniqueRestaurants : list JsObject)
  : Js (State W) (list string) :=
  match uniqueRestaurants with
  | [] => throw (TypeError "Cannot convert undefined or null to object")
  | first :: _ => mret (fst <$> first)
  end.

(** The part of [main] that follows the reading of the temporary files:
    remove duplicates, save the final results, clean up. *)
Definition mergeAndSave (allRestaurants : list JsObject) : Js (State W) unit :=
  let uniqueRestaurants := MergeReducer.getUniqueRestaurants allRestaurants in
  emit (LogFoundUnique (length uniqueRestaurants) (length allRestaurants));;
  header ← objectKeysOfFirst uniqueRestaurants;
  let content :=
    join newline
      (join "," header
       :: ((fun item => join "," ((fun kv => joinString (snd kv)) <$> item))
             <$> uniqueRestaurants)) in
  emit (WriteFile FinalOutput content);;
  page (fsWriteFile FinalOutput content);;
  emit LogFinalSaved;;
  emit RemoveTmpDir;;
  page fsRemoveTmpDir.

(** The events of chunk [i]: its console lines and the wait for its
    queries. *)
Definition chunkEvents (concurrentLimit total i : nat) (chunk : list Query)
  : list Event :=
  let jobs := chunkJobs concurrentLimit i chunk in
  (LogChunk (i + 1) total :: (LogStartingQuery <$> (fst <$> jobs))
   ++ [AwaitAll (snd <$> jobs)])%list.

(** The specification's schedule: the chunks one after the other, the
    5000 ms cooldown between two consecutive chunks and none after the
    last. *)
Fixpoint schedule (concurrentLimit total i : nat) (chunks : list (list Query))
  : list Event :=
  match chunks with
  | [] => []
  | chunk :: rest =>
      match rest with
      | [] => chunkEvents concurrentLimit total i chunk
      | _ :: _ =>
          (chunkEvents concurrentLimit total i chunk
           ++ [LogWaiting; Delay 5000]
           ++ schedule concurrentLimit total (S i) rest)%list
      end
  end.

(** The world after one [Promise.all] for each batch of jobs when all of
    them resolve: each batch is awaited in the world the one before has
    left, with a sleep of 5000 ms between two batches and none after the
    last.  [None] when one of them rejects. *)
Fixpoint afterBatches (batches : list (list (string * FilePath))) (w : W)
  : option W :=
  match batches with
  | [] => Some w
  | jobs :: rest =>
      match awaitAllQueries jobs w with
      | (Return _, w') =>
          afterBatches rest
            (match rest with
             | [] => w'
             | _ :: _ => elapse 5000 w'
             end)
      | (Throw _, _) => None
      end
  end.

(** The world in which batch number [k] is awaited: the world the run
    starts in for the first, and for a later one the world the batches
    before it have left when all of them resolve, after the sleep. *)
Definition beforeBatch (batches : list (list (string * FilePath))) (k : nat)
    (w : W) : option W :=
  match k with
  | 0 => Some w
  | S _ => elapse 5000 <$> afterBatches (take k batches) w
  end.

(** The same inside [main]'s [try { ... } finally { ... }]. *)
Definition mainMerge (allRestaurants : list JsObject) : Js (State W) unit :=
  tryFinally (mergeAndSave allRestaurants) (emit LogExecutionTime).

End WithPage.
End Batch.

(** ** A scripted page

    A small page whose behaviour is fixed in advance, on which the program
    can be run. *)
Module Sim.

Record Sim := mkSim {
  simHeights : list Z;      (* the coming [scrollHeight] readings; the last one stays *)
  simPolls : nat;           (* how often a wait looks before it times out *)
  simEndMarker : bool;      (* is the end-of-list text visible *)
  simLinks : nat;           (* number of links in the feed *)
  simScrollFails : list nat;(* per link: viewport waits that will still time out *)
  simClickFails : list nat; (* per link: detail-open waits that will still time out *)
  simCloseFails : list nat; (* per link: detail-close waits that will still time out *)
  simInfos : list (option RestaurantInfo); (* per link: what its panel shows *)
  simClicked : option nat;  (* the link clicked last *)
  simOpen : option nat;     (* the link whose panel is open *)
  simClock : nat;           (* milliseconds slept so far *)
  simFiles : list (FilePath * string)
}.

Definition nextHeight (w : Sim) : Z * Sim :=
  match simHeights w with
  | [] => (0%Z, w)
  | [h] => (h, w)
  | h :: rest =>
      (h, mkSim rest (simPolls w) (simEndMarker w) (simLinks w)
            (simScrollFails w) (simClickFails w) (simCloseFails w)
            (simInfos w) (simClicked w) (simOpen w) (simClock w) (simFiles w))
  end.

Fixpoint pollAbove (polls : nat) (prev : Z) (w : Sim) : Result unit * Sim :=
  match polls with
  | 0 => (Throw TimeoutError, w)
  | S polls' =>
      let (h, w') := nextHeight w in
      if (prev <? h)%Z then (Return tt, w') else pollAbove polls' prev w'
  end.

Definition failuresLeft (fails : list nat) (i : nat) : nat :=
  default 0 (fails !! i).

Definition oneFewer (fails : list nat) (i : nat) : list nat :=
  alter Nat.pred i fails.

(** What [extractBriefInfo] reads from link [i]. *)
Definition briefOf (i : nat) : JsObject :=
  [("placeId", JsString "pid"); ("latitude", JsNumber "-34.4");
   ("longitude", JsNumber "150.9"); ("category", JsString "Cafe");
   ("googleRating", JsNull); ("userRatingCount", JsNull)].

(** What [extractDetailedInfo] reads from a panel whose address has no
    comma: the address is its own last part, which is taken for the
    country; no state, postcode or suburb is found. *)
Definition detailedOf (info : RestaurantInfo) : JsObject :=
  [("name", JsString (info_name info));
   ("phoneNumber", JsString (info_phone info));
   ("websiteUrl", JsString (info_website info));
   ("fullAddress", JsString (info_address info));
   ("suburb", JsString "N/A"); ("state", JsString "N/A");
   ("postcode", JsString "N/A"); ("country", JsString (info_address info))].

#[global] Instance Sim_page : Page Sim := {|
  elapse ms w :=
    mkSim (simHeights w) (simPolls w) (simEndMarker w) (simLinks w)
      (simScrollFails w) (simClickFails w) (simCloseFails w) (simInfos w)
      (simClicked w) (simOpen w) (simClock w + ms) (simFiles w);
  waitForSelectorFeed := ret tt;
  waitForFeedChildren := ret tt;
  feedScrollHeight w := let (h, w') := nextHeight w in (Return h, w');
  feedScrollTo := ret tt;
  waitForHeightAbove prev w := pollAbove (simPolls w) prev w;
  endOfListVisible w := (Return (simEndMarker w), w);
  waitForLoadingIndicator := ret tt;
  queryFeedLinks w := (Return (simLinks w), w);
  linkPlaceId i := ret "pid";
  linkScrollIntoView i := ret tt;
  waitForLinkInViewport i timeout w :=
    match failuresLeft (simScrollFails w) i with
    | 0 => (Return tt, w)
    | S _ =>
        (Throw TimeoutError,
         mkSim (simHeights w) (simPolls w) (simEndMarker w) (simLinks w)
           (oneFewer (simScrollFails w) i) (simClickFails w) (simCloseFails w)
           (simInfos w) (simClicked w) (simOpen w) (simClock w) (simFiles w))
    end;
  linkClick i w :=
    (Return tt,
     mkSim (simHeights w) (simPolls w) (simEndMarker w) (simLinks w)
       (simScrollFails w) (simClickFails w) (simCloseFails w) (simInfos w)
       (Some i) (simOpen w) (simClock w) (simFiles w));
  waitForDetailOpen timeout w :=
    match simClicked w with
    | None => (Throw TimeoutError, w)
    | Some i =>
        match failuresLeft (simClickFails w) i with
        | 0 =>
            (Return tt,
             mkSim (simHeights w) (simPolls w) (simEndMarker w) (simLinks w)
               (simScrollFails w) (simClickFails w) (simCloseFails w)
               (simInfos w) (simClicked w) (Some i) (simClock w) (simFiles w))
        | S _ =>
            (Throw TimeoutError,
             mkSim (simHeights w) (simPolls w) (simEndMarker w) (simLinks w)
               (simScrollFails w) (oneFewer (simClickFails w) i)
               (simCloseFails w) (simInfos w) (simClicked w) (simOpen w)
               (simClock w) (simFiles w))
        end
    end;
  waitForSelectorMain := ret tt;
  evaluateRestaurantInfo w :=
    match simOpen w with
    | None => (Return None, w)
    | Some i => (Return (default None (simInfos w !! i)), w)
    end;
  linkBriefInfo i := ret (briefOf i);
  evaluateDetailedInfo w :=
    match simOpen w with
    | None => (Return None, w)
    | Some i => (Return (detailedOf <$> default None (simInfos w !! i)), w)
    end;
  clickCloseButton w :=
    match simOpen w with
    | None => (Throw (TypeError "Cannot read properties of undefined"), w)
    | Some _ => (Return tt, w)
    end;
  waitForDetailClosed timeout w :=
    match simOpen w with
    | None => (Return tt, w)
    | Some i =>
        match failuresLeft (simCloseFails w) i with
        | 0 =>
            (Return tt,
             mkSim (simHeights w) (simPolls w) (simEndMarker w) (simLinks w)
               (simScrollFails w) (simClickFails w) (simCloseFails w)
               (simInfos w) (simClicked w) None (simClock w) (simFiles w))
        | S _ =>
            (Throw TimeoutError,
             mkSim (simHeights w) (simPolls w) (simEndMarker w) (simLinks w)
               (simScrollFails w) (simClickFails w)
               (oneFewer (simCloseFails w) i) (simInfos w) (simClicked w)
               (simOpen w) (simClock w) (simFiles w))
        end
    end;
  fsWriteFile file content w :=
    (Return tt,
     mkSim (simHeights w) (simPolls w) (simEndMarker w) (simLinks w)
       (simScrollFails w) (simClickFails w) (simCloseFails w) (simInfos w)
       (simClicked w) (simOpen w) (simClock w)
       (simFiles w ++ [(file, content)])%list);
  fsRemoveTmpDir := ret tt;
  awaitAllQueries jobs := ret tt
|}.

Definition cafe : RestaurantInfo := mkInfo "Cafe" "N/A" "N/A" "1 Main St".
Definition diner : RestaurantInfo := mkInfo "Diner" "N/A" "N/A" "2 Main St".

(** A feed of two links, given how many viewport waits, open waits and
    close waits of each link time out before one resolves; the feed grows
    once and then shows the end-of-list text. *)
Definition twoLinks (scrollFails clickFails closeFails : list nat) : Sim :=
  mkSim [100%Z; 200%Z] 3 true 2 scrollFails clickFails closeFails
    [Some cafe; Some diner] None None 0 [].

(** A feed whose height is [h] at every reading and that never shows the
    end-of-list text. *)
Definition constantFeed (h : Z) (polls : nat) : Sim :=
  mkSim [h] polls false 0 [] [] [] [] None None 0 [].

Definition start (w : Sim) : State Sim := mkState w [] [].

End Sim.

(** ** What the loops of scraper.mjs leave behind *)

Module Harvest.
Section WithPage.
Context {W : Type} `{Page W}.
Import Scraper.

(** The keys of a record pushed by [scrapeRestaurants], in the order of
    [{ ...restaurantInfo, placeId }]. *)
Definition recordKeys : list string :=
  ["name"; "phone"; "website"; "address"; "placeId"].

Definition hasRecordKeys (record : JsObject) : Prop :=
  fst <$> record = recordKeys.

(** The four lines with which [scrollToEnd] can end. *)
Definition isScrollEnd (ev : Event) : bool :=
  match ev with
  | LogEndOfList | LogNoMoreResults | LogMaxAttempts | ErrScrolling _ => true
  | _ => false
  end.

(** [n] iterations of the scrolling loop in a row that go on to the next
    one: the scroll and the wait for growth resolve, no end-of-list text is
    visible, and the height measured differs from the previous one.  The
    result is the last height measured and the world that is left; [None]
    when one of the [n] iterations does anything else. *)
Fixpoint afterGrowth (n : nat) (lastHeight : Z) (w : W) : option (Z * W) :=
  match n with
  | 0 => Some (lastHeight, w)
  | S n' =>
      match feedScrollTo w with
      | (Return _, w1) =>
          match waitForHeightAbove lastHeight w1 with
          | (Return _, w2) =>
              match endOfListVisible w2 with
              | (Return false, w3) =>
                  match feedScrollHeight w3 with
                  | (Return newHeight, w4) =>
                      if (newHeight =? lastHeight)%Z then None
                      else afterGrowth n' newHeight w4
                  | _ => None
                  end
              | _ => None
              end
          | _ => None
          end
      | _ => None
      end
  end.

(** The progress lines printed while [scrollAttempts] goes from
    [scrollAttempts + 1] to [scrollAttempts + n]: one for each multiple
    of 5. *)
Fixpoint progressLines (scrollAttempts n : nat) : list Event :=
  match n with
  | 0 => []
  | S n' =>
      (if (S scrollAttempts mod 5 =? 0)%nat then [LogScrolled (S scrollAttempts)] else [])
      ++ progressLines (S scrollAttempts) n'
  end.

End WithPage.
End Harvest.

(** ** The jobs of [scrapeWithConcurrency], chunk after chunk *)

Module Jobs.
Import Batch.

(** Query number [k + index] of the list goes to the temporary file of the
    same number. *)
Definition numbered (k : nat) (queries : list Query) : list (string * FilePath) :=
  imap (fun index queryObj => (queryString queryObj, TmpCsv (k + index))) queries.

(** The jobs of the chunks from chunk [i] on, in the order in which they are
    started. *)
Fixpoint jobsFrom (concurrentLimit i : nat) (chunks : list (list Query))
  : list (string * FilePath) :=
  match chunks with
  | [] => []
  | chunk :: rest =>
      imap (fun index queryObj =>
              (queryString queryObj, TmpCsv (i * concurrentLimit + index))) chunk
      ++ jobsFrom concurrentLimit (S i) rest
  end.

End Jobs.

(** ** batchScraper.mjs: [readCsvFile] *)

Module Csv.

Definition comma : ascii := ascii_of_nat 44.
Definition lineFeed : ascii := ascii_of_nat 10.

(** Does the character occur in the string. *)
Fixpoint contains (c : ascii) (s : string) : bool :=
  match s with
  | EmptyString => false
  | String c' rest => Ascii.eqb c' c || contains c rest
  end.

(** [s.split(sep)] for a separator of one character: the pieces between the
    separators, one piece more than there are separators. *)
Fixpoint splitOn (sep : ascii) (s : string) : list string :=
  match s with
  | EmptyString => [EmptyString]
  | String c rest =>
      if Ascii.eqb c sep then EmptyString :: splitOn sep rest
      else
        match splitOn sep rest with
        | piece :: pieces => String c piece :: pieces
        | [] => [String c EmptyString]
        end
  end.

(** The number a string of decimal digits stands for. *)
Fixpoint decimal (acc : N) (s : string) : option N :=
  match s with
  | EmptyString => Some acc
  | String c rest =>
      let n := N_of_ascii c in
      if ((48 <=? n) && (n <=? 57))%N
      then decimal (10 * acc + (n - 48))%N rest
      else None
  end.

(** A property key that is an array index: the decimal text, without
    leading zero, of an integer below [2^32 - 1].  [Object.keys] lists such
    keys first, in ascending order. *)
Definition arrayIndex (k : string) : option N :=
  match k with
  | EmptyString => None
  | String c rest =>
      if Ascii.eqb c (ascii_of_nat 48) && negb (String.eqb rest EmptyString)
      then None
      else
        match decimal 0 k with
        | Some n => if (n <? 4294967295)%N then Some n else None
        | None => None
        end
  end.

Definition hasOwn (obj : JsObject) (k : string) : bool :=
  existsb (fun kv => String.eqb (fst kv) k) obj.

(** The place of a new array index [n] among the properties. *)
Fixpoint insertIndex (obj : JsObject) (k : string) (n : N) (v : JsValue)
  : JsObject :=
  match obj with
  | [] => [(k, v)]
  | (k', v') :: rest =>
      match arrayIndex k' with
      | Some n' =>
          if (n' <? n)%N then (k', v') :: insertIndex rest k n v
          else (k, v) :: obj
      | None => (k, v) :: obj
      end
  end.

(** [obj[k] = v] on an object made by [{}], for a string or [undefined]
    value [v]: the setter [__proto__] of [Object.prototype] ignores such a
    value; an own property keeps its place; a new array index goes among the
    array indices; any other new key goes last. *)
Definition assign (obj : JsObject) (k : string) (v : JsValue) : JsObject :=
  if String.eqb k "__proto__" then obj
  else if hasOwn obj k then setProp obj k v
  else
    match arrayIndex k with
    | Some n => insertIndex obj k n v
    | None => obj ++ [(k, v)]
    end.

(** [values[index]] *)
Definition valueAt (values : list string) (index : nat) : JsValue :=
  match values !! index with
  | Some v => JsString v
  | None => JsUndefined
  end.

(** [headerArray.reduce((obj, header, index) => { obj[header] =
    values[index]; return obj; }, {})], from position [index] on. *)
Fixpoint reduceRow (values : list string) (index : nat) (headers : list string)
    (obj : JsObject) : JsObject :=
  match headers with
  | [] => obj
  | header :: rest =>
      reduceRow values (S index) rest (assign obj header (valueAt values index))
  end.

(** What [readCsvFile] makes of the content of a file. *)
Definition parseCsv `{StringMethods} (content : string) : list JsObject :=
  match splitOn lineFeed (trim content) with
  | [] => []
  | headers :: rows =>
      let headerArray := splitOn comma headers in
      (fun row => reduceRow (splitOn comma row) 0 headerArray []) <$> rows
  end.

(** A key that [obj[k] = v] treats as any other: neither [__proto__] nor an
    array index. *)
Definition plainKey (k : string) : bool :=
  negb (String.eqb k "__proto__")
  && match arrayIndex k with Some _ => false | None => true end.

(** A text that a CSV field can hold: no comma, no line feed. *)
Definition fieldText (s : string) : bool :=
  negb (contains comma s) && negb (contains lineFeed s).

(** A record all of whose values are strings that a field can hold. *)
Definition fieldRecord (r : JsObject) : Prop :=
  Forall (fun kv => ∃ s, snd kv = JsString s ∧ fieldText s = true) r.

End Csv.

(** ** scraper.mjs: [initBrowser], [searchGoogleMaps], [scrapeQuery];
       index.mjs: [scrapeRestaurants], [saveToCSV], [main] *)

Module Session.

(** The interactions with puppeteer outside the scraper class. *)
Class Browser (W : Type) := {
  (** [puppeteer.launch({ headless: true })] *)
  puppeteerLaunch : Js W unit;
  (** [browser.newPage()] *)
  browserNewPage : Js W unit;
  (** [page.setViewport({width: 1080, height: 1024})] *)
  pageSetViewport : Js W unit;
  (** [page.goto('https://google.com/maps')] *)
  pageGoto : Js W unit;
  (** [page.locator('#searchboxinput').fill(searchQuery)] *)
  fillSearchBox : string -> Js W unit;
  (** [page.locator('#searchbox-searchbutton').click()] *)
  clickSearchButton : Js W unit;
  (** [page.waitForSelector(`[aria-label="Results for ${searchQuery}"]`)] *)
  waitForResults : string -> Js W unit;
  (** [browser.close()] *)
  browserClose : Js W unit
}.

(** What a session shows: the lines of the scraper, and its own.
    [ClosingBrowser] is a marker in front of each [browser.close()]. *)
Inductive SessionEvent :=
| FromScraper (ev : Event)
| ErrSession (e : JsError)     (* console.error('Error:', error) *)
| ClosingBrowser
| LogCompleted.                (* `Scraping completed in ... seconds` *)

Record SessionState (W : Type) := mkSession {
  sworld : W;
  strace : list SessionEvent
}.
Arguments mkSession {W} _ _.
Arguments sworld {W} _.
Arguments strace {W} _.

(** [try { m } finally { final }]: [final] runs in every case; when it
    raises, its error replaces the outcome of [m]. *)
Definition finally {S A} (m : Js S A) (final : Js S unit) : Js S A :=
  fun s =>
    let (r, s') := m s in
    match final s' with
    | (Return _, s'') => (r, s'')
    | (Throw e, s'') => (Throw e, s'')
    end.

Section WithBrowser.
Context {W : Type} `{Page W} `{Browser W}.

Definition browser {A} (p : Js W A) : Js (SessionState W) A :=
  fun s =>
    let (r, w') := p (sworld s) in
    (r, mkSession w' (strace s)).

Definition say (ev : SessionEvent) : Js (SessionState W) unit :=
  fun s => (Return tt, mkSession (sworld s) (strace s ++ [ev])).

(** A method of the scraper class, run on the page of the session. *)
Definition scraper {A} (m : Js (State W) A) : Js (SessionState W) A :=
  fun s =>
    let (r, st') := m (mkState (sworld s) [] []) in
    (r, mkSession (world st') (strace s ++ (FromScraper <$> trace st'))).

Definition initBrowser : Js W unit :=
  puppeteerLaunch;; browserNewPage;; pageSetViewport.

Definition searchGoogleMaps (searchQuery : string) : Js W unit :=
  pageGoto;;
  fillSearchBox searchQuery;;
  clickSearchButton;;
  waitForResults searchQuery.

(** The [finally] block of [scrapeQuery] and of [main]. *)
Definition closeAndReport : Js (SessionState W) unit :=
  say ClosingBrowser;;
  browser browserClose;;
  say LogCompleted.

(** The [try] and the [catch] of [scrapeQuery]. *)
Definition scrapeQueryAttempt (searchQuery : string) (outputFile : FilePath)
  : Js (SessionState W) (list JsObject) :=
  tryCatch
    (browser (searchGoogleMaps searchQuery);;
     restaurantsData ← scraper Scraper.scrapeRestaurants;
     scraper (Scraper.saveToCSV (Some restaurantsData) outputFile);;
     mret restaurantsData)
    (fun error => say (ErrSession error);; mret []).

(** scraper.mjs: [scrapeQuery(searchQuery, outputFile)].  The browser is
    started before the [try]. *)
Definition scrapeQuery (searchQuery : string) (outputFile : FilePath)
  : Js (SessionState W) (list JsObject) :=
  browser initBrowser;;
  finally (scrapeQueryAttempt searchQuery outputFile) closeAndReport.

(** index.mjs: [scrapeRestaurants], with the item loop of that file. *)
Definition indexScrapeRestaurants : Js (State W) (list JsObject) :=
  Scraper.newRestaurantsData;;
  tryCatch
    (Scraper.scrollToEnd;;
     total ← Scraper.page queryFeedLinks;
     Scraper.emit (LogFound total);;
     Scraper.forEach (IndexScraper.processItem total) (seq 0 total))
    (fun error => Scraper.emit (ErrScraping error));;
  Scraper.getRestaurantsData.

(** index.mjs: [saveToCSV(data, filename)], which reads [data[0]] without
    looking at the length. *)
Definition indexSaveToCSV (data : list JsObject) (filename : FilePath)
  : Js (State W) unit :=
  match data with
  | [] => throw (TypeError "Cannot convert undefined or null to object")
  | first :: _ =>
      let content := Scraper.csvContent first data in
      Scraper.emit (WriteFile filename content);;
      Scraper.page (fsWriteFile filename content);;
      Scraper.emit (LogSaved filename)
  end.

(** index.mjs: [main]. *)
Definition indexMain : Js (SessionState W) unit :=
  browser initBrowser;;
  finally
    (tryCatch
       (browser (searchGoogleMaps
                   "restaurant near Keiraville, New South Wales, Australia");;
        restaurantsData ← scraper indexScrapeRestaurants;
        scraper (indexSaveToCSV restaurantsData (NamedFile "restaurants.csv")))
       (fun error => say (ErrSession error)))
    closeAndReport.


(** Is a file being written. *)
Definition isWrite (ev : SessionEvent) : bool :=
  match ev with
  | FromScraper (WriteFile _ _) => true
  | _ => false
  end.

End WithBrowser.

(** The scripted page as a browser that always starts and closes. *)
#[global] Instance Sim_browser : Browser Sim.Sim := {|
  puppeteerLaunch := ret tt;
  browserNewPage := ret tt;
  pageSetViewport := ret tt;
  pageGoto := ret tt;
  fillSearchBox searchQuery := ret tt;
  clickSearchButton := ret tt;
  waitForResults searchQuery := ret tt;
  browserClose := ret tt
|}.

(** A browser on the scripted page whose tab may fail to open and whose
    result list may never show. *)
Definition Sim_browser_with (tabOpens resultsShow : bool) : Browser Sim.Sim := {|
  puppeteerLaunch := ret tt;
  browserNewPage :=
    if tabOpens then ret tt else throw (OtherError "Target closed");
  pageSetViewport := ret tt;
  pageGoto := ret tt;
  fillSearchBox searchQuery := ret tt;
  clickSearchButton := ret tt;
  waitForResults searchQuery :=
    if resultsShow then ret tt else throw TimeoutError;
  browserClose := ret tt
|}.


(** A page on a disk that takes no file: every [fs.writeFile] rejects. *)
Definition readOnlyDisk {W : Type} (P : Page W) : Page W := {|
  elapse := @elapse W P;
  waitForSelectorFeed := @waitForSelectorFeed W P;
  waitForFeedChildren := @waitForFeedChildren W P;
  feedScrollHeight := @feedScrollHeight W P;
  feedScrollTo := @feedScrollTo W P;
  waitForHeightAbove := @waitForHeightAbove W P;
  endOfListVisible := @endOfListVisible W P;
  waitForLoadingIndicator := @waitForLoadingIndicator W P;
  queryFeedLinks := @queryFeedLinks W P;
  linkPlaceId := @linkPlaceId W P;
  linkScrollIntoView := @linkScrollIntoView W P;
  waitForLinkInViewport := @waitForLinkInViewport W P;
  linkClick := @linkClick W P;
  waitForDetailOpen := @waitForDetailOpen W P;
  waitForSelectorMain := @waitForSelectorMain W P;
  evaluateRestaurantInfo := @evaluateRestaurantInfo W P;
  linkBriefInfo := @linkBriefInfo W P;
  evaluateDetailedInfo := @evaluateDetailedInfo W P;
  clickCloseButton := @clickCloseButton W P;
  waitForDetailClosed := @waitForDetailClosed W P;
  fsWriteFile file content := throw (OtherError "EROFS: read-only file system");
  fsRemoveTmpDir := @fsRemoveTmpDir W P;
  awaitAllQueries := @awaitAllQueries W P
|}.

End Session.

(** ** src/unnamed/part_000: the first [scrollToEnd] *)

Module Legacy.
Section WithPage.
Context {W : Type} `{Page W}.
Import Scraper.

(** The body of [if (newHeight === lastHeight) { ... }]: [true] when it
    returns from [scrollToEnd]. *)
Definition stabilityCheck (lastHeight : Z) : Js (State W) bool :=
  delay 2000;;
  finalCheck ← page feedScrollHeight;
  if (finalCheck =? lastHeight)%Z
  then emit LogNoMoreResults;; mret true
  else mret false.

(** [while (scrollAttempts < maxAttempts)], unrolled over
    [remaining = maxAttempts - scrollAttempts]; after each scroll the loop
    sleeps for 2000 ms, it does not wait for the feed to grow. *)
Fixpoint scrollLoop (remaining : nat) (lastHeight : Z) (scrollAttempts : nat)
  : Js (State W) unit :=
  match remaining with
  | 0 => emit LogMaxAttempts
  | S remaining' =>
      page feedScrollTo;;
      delay 2000;;
      endOfList ← page endOfListVisible;
      if endOfList : bool then emit LogEndOfList
      else
        newHeight ← page feedScrollHeight;
        returned ← (if (newHeight =? lastHeight)%Z
                    then stabilityCheck lastHeight
                    else mret false);
        if returned : bool then mret tt
        else
          let scrollAttempts' := S scrollAttempts in
          (if (scrollAttempts' mod 5 =? 0)%nat
           then emit (LogScrolled scrollAttempts')
           else mret tt);;
          scrollLoop remaining' newHeight scrollAttempts'
  end.

Definition scrollToEnd : Js (State W) unit :=
  tryCatch
    (page waitForSelectorFeed;;
     delay 3000;;
     emit LogScrolling;;
     lastHeight ← page feedScrollHeight;
     scrollLoop maxAttempts lastHeight 0)
    (fun error => emit (ErrScrolling error)).

End WithPage.
End Legacy.

(** ** src/unnamed/part_001: what [decamelize] does to a key *)

Module Keys.

(** Is there a letter [A-Z] in the string. *)
Fixpoint hasUpper (s : string) : bool :=
  match s with
  | EmptyString => false
  | String c rest => isUpperChar c || hasUpper rest
  end.

(** How many letters [A-Z] there are. *)
Fixpoint countUpper (s : string) : nat :=
  match s with
  | EmptyString => 0
  | String c rest => (if isUpperChar c then 1 else 0) + countUpper rest
  end.

Definition underscore : ascii := ascii_of_nat 95.

(** A text of ASCII characters. *)
Fixpoint isAscii (s : string) : bool :=
  match s with
  | EmptyString => true
  | String c rest => (nat_of_ascii c <? 128)%nat && isAscii rest
  end.

End Keys.

(** * Properties *)

(** ** Strings *)

Lemma toLowerCaseAscii_app (a b : string) :
  toLowerCaseAscii (a +:+ b) = toLowerCaseAscii a +:+ toLowerCaseAscii b.
Proof.
  induction a as [|c a IH]; simpl; [reflexivity|].
  by rewrite IH.
Qed.

(** On ASCII text the key is made of the lower-cased parts. *)
Lemma asciiStrings_lowerCaseOfParts :
  @MergeReducer.lowerCaseOfParts asciiStrings.
Proof.
  intros name address. cbn [toLowerCase asciiStrings].
  by rewrite !toLowerCaseAscii_app.
Qed.

(** ** Deduplication *)

Section Dedup.
Context `{StringMethods}.
Import MergeReducer.

Implicit Types (seen : gset string) (l pre rest : list JsObject).

Lemma dedupKey_split (r : JsObject) :
  lowerCaseOfParts →
  dedupKey r = toLowerCase (nameOf r) +:+ "-" +:+ toLowerCase (addressOf r).
Proof. intros Hparts. apply Hparts. Qed.

(** A record without an [address] property, such as those whose address
    is stored under [full_address], has the text 'undefined' in its key. *)
Lemma dedupKey_without_address (r : JsObject) :
  getProp r "address" = JsUndefined →
  dedupKey r = toLowerCase (nameOf r +:+ "-undefined").
Proof. intros Haddr. unfold dedupKey, addressOf. by rewrite Haddr. Qed.

(** A later position with the key of an earlier one is not the first for
    its key. *)
Lemma isFirstForKey_later (all : list JsObject) (i j : nat) (a b : JsObject) :
  i < j → all !! i = Some a → all !! j = Some b →
  dedupKey a = dedupKey b →
  isFirstForKey all j b = false.
Proof.
  intros Hij Ha Hb Hkey.
  unfold isFirstForKey. apply not_true_is_false. intros Hall.
  rewrite forallb_forall in Hall.
  assert (Hin : In a (take j all)).
  { apply list_elem_of_In, list_elem_of_lookup. exists i.
    by rewrite lookup_take_lt. }
  specialize (Hall a Hin).
  rewrite Hkey, String.eqb_refl in Hall. discriminate.
Qed.

Lemma isFirstForKey_prefix pre r rest :
  isFirstForKey (pre ++ r :: rest) (length pre) r
  = bool_decide (dedupKey r ∉ dedupKey <$> pre).
Proof.
  unfold isFirstForKey. rewrite take_app_length.
  induction pre as [|p pre IH]; cbn [forallb fmap list_fmap].
  - symmetry. apply bool_decide_eq_true_2, not_elem_of_nil.
  - rewrite IH. destruct (String.eqb_spec (dedupKey p) (dedupKey r)) as [E|E]; simpl.
    + symmetry. apply bool_decide_eq_false. intros Hn. apply Hn.
      rewrite E. apply list_elem_of_here.
    + apply bool_decide_ext. rewrite not_elem_of_cons.
      split; [intros Hpre; split; [congruence | exact Hpre] | intros [_ Hpre]; exact Hpre].
Qed.

Lemma filterUnseen_positions rest : ∀ pre seen,
  (∀ k, k ∈ seen ↔ k ∈ dedupKey <$> pre) →
  filterUnseen seen rest
  = fst <$> List.filter (fun p => isFirstForKey (pre ++ rest) (snd p) (fst p))
                        (zip rest (seq (length pre) (length rest))).
Proof.
  induction rest as [|r rest IH]; intros pre seen Hseen; [reflexivity|].
  cbn [filterUnseen length seq zip zip_with List.filter fst snd].
  rewrite isFirstForKey_prefix.
  assert (Hcons : (pre ++ r :: rest = (pre ++ [r]) ++ rest)%list)
    by by rewrite <-app_assoc.
  assert (Hlen : S (length pre) = length (pre ++ [r])%list)
    by (rewrite length_app; simpl; lia).
  destruct (decide (dedupKey r ∈ seen)) as [Hin|Hnin].
  - rewrite bool_decide_eq_false_2 by (rewrite <-Hseen; tauto).
    rewrite Hcons, Hlen. apply IH.
    intros k. rewrite fmap_app, elem_of_app, <-Hseen. simpl.
    rewrite list_elem_of_singleton.
    split; [by left | intros [Hk | ->]; [exact Hk | exact Hin]].
  - rewrite bool_decide_eq_true_2 by (by rewrite <-Hseen).
    cbn [fmap list_fmap fst]. f_equal.
    rewrite Hcons, Hlen. apply IH.
    intros k. rewrite fmap_app, elem_of_app, <-Hseen. simpl.
    rewrite list_elem_of_singleton, elem_of_union, elem_of_singleton. tauto.
Qed.

Lemma filterUnseen_sublist l : ∀ seen, sublist (filterUnseen seen l) l.
Proof.
  induction l as [|r l IH]; intros seen; simpl; [constructor|].
  destruct (decide _); [apply sublist_cons | apply sublist_skip]; apply IH.
Qed.

Lemma filterUnseen_fresh l : ∀ seen k,
  k ∈ dedupKey <$> filterUnseen seen l → k ∉ seen.
Proof.
  induction l as [|r l IH]; intros seen k; simpl.
  - by intros ?%elem_of_nil.
  - destruct (decide _) as [Hin|Hnin]; simpl.
    + apply IH.
    + rewrite elem_of_cons. intros [->|Hk]; [done|].
      apply IH in Hk. set_solver.
Qed.

Lemma filterUnseen_NoDup l : ∀ seen, NoDup (dedupKey <$> filterUnseen seen l).
Proof.
  induction l as [|r l IH]; intros seen; simpl; [constructor|].
  destruct (decide _) as [Hin|Hnin]; simpl; [apply IH|].
  constructor; [|apply IH].
  intros Hk%filterUnseen_fresh. set_solver.
Qed.

Lemma filterUnseen_id l : ∀ seen,
  NoDup (dedupKey <$> l) →
  (∀ k, k ∈ dedupKey <$> l → k ∉ seen) →
  filterUnseen seen l = l.
Proof.
  induction l as [|r l IH]; intros seen Hnd Hfresh; simpl; [reflexivity|].
  simpl in Hnd. apply NoDup_cons in Hnd as [Hr Hnd].
  destruct (decide _) as [Hin|Hnin].
  - exfalso. apply (Hfresh (dedupKey r)); [|done]. simpl. apply list_elem_of_here.
  - f_equal. apply IH; [done|].
    intros k Hk. rewrite elem_of_union, elem_of_singleton.
    intros [->|Hs]; [done|].
    apply (Hfresh k); [|done]. simpl. by apply list_elem_of_further.
Qed.

End Dedup.

Import MergeReducer.

(** C1.  For every list of records and whatever [toLowerCase] does to a
    text, [getUniqueRestaurants] keeps exactly the positions of its input
    that are the first for their key [lowercase(name + "-" + address)], in
    input order: the result is a sublist of the input, no key occurs twice
    in it, and a record that comes after one with the same key is not kept.
    In particular, when lower-casing the key is lower-casing the name and
    the address, a record that comes after one with the same lower-cased
    name and the same lower-cased address is not kept. *)
Theorem getUniqueRestaurants_keeps_first_per_key `{StringMethods}
    (all : list JsObject) :
  getUniqueRestaurants all = keepFirstPerKey all
  ∧ sublist (getUniqueRestaurants all) all
  ∧ NoDup (dedupKey <$> getUniqueRestaurants all)
  ∧ (∀ (i j : nat) (a b : JsObject),
       i < j → all !! i = Some a → all !! j = Some b →
       dedupKey a = dedupKey b →
       isFirstForKey all j b = false)
  ∧ (lowerCaseOfParts →
     ∀ (i j : nat) (a b : JsObject),
       i < j → all !! i = Some a → all !! j = Some b →
       toLowerCase (nameOf a) = toLowerCase (nameOf b) →
       toLowerCase (addressOf a) = toLowerCase (addressOf b) →
       isFirstForKey all j b = false).
Proof.
  split_and!.
  - unfold getUniqueRestaurants, keepFirstPerKey.
    apply (filterUnseen_positions all [] ∅).
    intros k. simpl. rewrite elem_of_nil. set_solver.
  - apply filterUnseen_sublist.
  - apply filterUnseen_NoDup.
  - apply isFirstForKey_later.
  - intros Hparts i j a b Hij Ha Hb Hname Haddr.
    apply (isFirstForKey_later all i j a b Hij Ha Hb).
    by rewrite !(dedupKey_split _ Hparts), Hname, Haddr.
Qed.

(** A run of C1 on three ASCII records: the second repeats the first in
    another letter case and is dropped. *)
Lemma getUniqueRestaurants_keeps_first_per_key_witness :
  let a := [("name", JsString "Cafe"); ("address", JsString "1 Main St")] in
  let b := [("name", JsString "CAFE"); ("address", JsString "1 MAIN ST");
            ("phone", JsString "555")] in
  let c := [("name", JsString "Diner"); ("address", JsString "2 Main St")] in
  @getUniqueRestaurants asciiStrings [a; b; c] = [a; c]
  ∧ @isFirstForKey asciiStrings [a; b; c] 1 b = false.
Proof.
  intros a b c.
  destruct (@getUniqueRestaurants_keeps_first_per_key asciiStrings [a; b; c])
    as (Heq & _ & _ & _ & Hlater).
  split.
  - rewrite Heq. vm_compute. reflexivity.
  - apply (Hlater asciiStrings_lowerCaseOfParts 0 1 a b); [lia | reflexivity..].
Defined.

(** C7.  Deduplicating a list that is already deduplicated changes nothing. *)
Theorem getUniqueRestaurants_idempotent `{StringMethods} (all : list JsObject) :
  getUniqueRestaurants (getUniqueRestaurants all) = getUniqueRestaurants all.
Proof.
  unfold getUniqueRestaurants at 1.
  apply filterUnseen_id.
  - apply filterUnseen_NoDup.
  - intros k _. apply not_elem_of_empty.
Qed.

(** C9.  The key does not determine the pair (name, address): the records
    with name "a-b", address "c" and with name "a", address "b-c" have the
    same key, the lower-cased text "a-b-c" whatever [toLowerCase] does to
    it, and the second is dropped after the first. *)
Theorem dedupKey_not_injective `{StringMethods} :
  let first := [("name", JsString "a-b"); ("address", JsString "c")] in
  let second := [("name", JsString "a"); ("address", JsString "b-c")] in
  nameOf first ≠ nameOf second
  ∧ addressOf first ≠ addressOf second
  ∧ dedupKey first = dedupKey second
  ∧ getUniqueRestaurants [first; second] = [first].
Proof.
  intros first second.
  assert (Hkey : dedupKey first = dedupKey second) by reflexivity.
  split_and!; [discriminate | discriminate | exact Hkey |].
  unfold getUniqueRestaurants. cbn [filterUnseen].
  rewrite decide_False by apply not_elem_of_empty.
  rewrite decide_True; [reflexivity|].
  rewrite Hkey. apply elem_of_union_l, elem_of_singleton. reflexivity.
Qed.

(** ** Running a program: one equation per construct *)

Section RunEquations.
Context {W : Type} `{Page W}.
Import Scraper.

Implicit Types (st : State W).

Lemma bind_run {S A B} (m : Js S A) (k : A → Js S B) (s : S) :
  (m ≫= k) s
  = match m s with
    | (Return x, s') => k x s'
    | (Throw e, s') => (Throw e, s')
    end.
Proof. reflexivity. Qed.

Lemma mret_run {S A} (x : A) (s : S) : (mret x : Js S A) s = (Return x, s).
Proof. reflexivity. Qed.

Lemma tryCatch_run {S A} (m : Js S A) (handler : JsError → Js S A) (s : S) :
  tryCatch m handler s
  = match m s with
    | (Return x, s') => (Return x, s')
    | (Throw e, s') => handler e s'
    end.
Proof. reflexivity. Qed.

Lemma emit_run ev st :
  emit ev st
  = (Return tt, mkState (world st) (trace st ++ [ev]) (restaurantsData st)).
Proof. reflexivity. Qed.

Lemma delay_run ms st :
  delay ms st
  = (Return tt,
     mkState (elapse ms (world st)) (trace st ++ [Delay ms]) (restaurantsData st)).
Proof. reflexivity. Qed.

Lemma push_run item st :
  push item st
  = (Return tt, mkState (world st) (trace st) (restaurantsData st ++ [item])).
Proof. reflexivity. Qed.

Lemma page_run {A} (p : Js W A) st (r : Result A) (w' : W) :
  p (world st) = (r, w') →
  page p st = (r, mkState w' (trace st) (restaurantsData st)).
Proof. intros Hp. unfold page. by rewrite Hp. Qed.

Lemma state_eta st : mkState (world st) (trace st) (restaurantsData st) = st.
Proof. by destruct st. Qed.

End RunEquations.

(** Run the program up to its next interaction with the page. *)
Ltac js_run :=
  repeat (first [ rewrite bind_run | rewrite emit_run | rewrite delay_run
                | rewrite push_run | rewrite mret_run ];
          cbv beta iota).

(** Take the interaction whose outcome is [Hcall], then run on. *)
Ltac js_page Hcall :=
  erewrite page_run by exact Hcall; cbv beta iota; js_run.

(** ** The retry executor *)

Section Retry.
Context {W : Type} `{Page W}.
Import Scraper.

Implicit Types (st : State W) (func : nat → Js W unit) (a : Action).

Lemma retryLoop_fails func a maxRetries n : ∀ retryCount st w',
  afterFailures func n retryCount (world st) = Some w' →
  retryLoop func a maxRetries n retryCount st
  = (Return false,
     mkState w' (trace st ++ failedAttempts a maxRetries retryCount n)
             (restaurantsData st)).
Proof.
  induction n as [|n IH]; intros retryCount st w' Hfail; simpl in Hfail.
  - injection Hfail as <-. cbn [retryLoop failedAttempts].
    by rewrite mret_run, app_nil_r, state_eta.
  - destruct (func retryCount (world st)) as [[[]|e] w1] eqn:Hcall; [discriminate|].
    cbn [retryLoop]. rewrite tryCatch_run. js_run. js_page Hcall.
    erewrite IH by exact Hfail.
    cbn [world trace restaurantsData failedAttempts].
    by rewrite <-!app_assoc.
Qed.

Lemma retryLoop_succeeds func a maxRetries k : ∀ n retryCount st wk w',
  k < n →
  afterFailures func k retryCount (world st) = Some wk →
  func (retryCount + k) wk = (Return tt, w') →
  retryLoop func a maxRetries n retryCount st
  = (Return true,
     mkState w'
       (trace st ++ failedAttempts a maxRetries retryCount k
          ++ [Invoke a (retryCount + k)])
       (restaurantsData st)).
Proof.
  induction k as [|k IH]; intros n retryCount st wk w' Hlt Hfail Hok;
    (destruct n as [|n]; [lia|]); simpl in Hfail.
  - injection Hfail as <-. rewrite Nat.add_0_r in *.
    cbn [retryLoop]. rewrite tryCatch_run. js_run. by js_page Hok.
  - destruct (func retryCount (world st)) as [[[]|e] w1] eqn:Hcall; [discriminate|].
    cbn [retryLoop]. rewrite tryCatch_run. js_run. js_page Hcall.
    erewrite (IH n (S retryCount) _ wk w'); [| lia | exact Hfail |].
    + cbn [world trace restaurantsData failedAttempts].
      rewrite <-!app_assoc. simpl. by rewrite Nat.add_succ_r.
    + by rewrite Nat.add_succ_l, <-Nat.add_succ_r.
Qed.

(** Whatever the action does, the executor returns: a rejection of the
    action never reaches the caller, and [restaurantsData] is not touched. *)
Lemma retryLoop_returns func a maxRetries n : ∀ retryCount st,
  ∃ (b : bool) (w' : W) (added : list Event),
    retryLoop func a maxRetries n retryCount st
    = (Return b, mkState w' (trace st ++ added) (restaurantsData st)).
Proof.
  induction n as [|n IH]; intros retryCount st.
  - exists false, (world st), []. cbn [retryLoop].
    by rewrite mret_run, app_nil_r, state_eta.
  - cbn [retryLoop]. rewrite tryCatch_run. js_run.
    destruct (func retryCount (world st)) as [[[]|e] w1] eqn:Hcall; js_page Hcall.
    + by exists true, w1, [Invoke a retryCount].
    + match goal with
      | |- context [retryLoop _ _ _ _ _ ?s] =>
          destruct (IH (S retryCount) s) as (b & w' & added & Hrun)
      end.
      rewrite Hrun. cbn [world trace restaurantsData].
      exists b, w', ([Invoke a retryCount; LogRetry a retryCount maxRetries; Delay 1000]
                     ++ added).
      by rewrite <-!app_assoc.
Qed.

Lemma executeWithRetry_returns func retries a st :
  ∃ (b : bool) (w' : W) (added : list Event),
    executeWithRetry func retries a st
    = (Return b, mkState w' (trace st ++ added) (restaurantsData st)).
Proof. apply retryLoop_returns. Qed.

Lemma executeWithRetry_false func retries a st w' :
  afterFailures func retries 0 (world st) = Some w' →
  executeWithRetry func retries a st
  = (Return false,
     mkState w' (trace st ++ failedAttempts a retries 0 retries)
             (restaurantsData st)).
Proof. apply retryLoop_fails. Qed.

Lemma executeWithRetry_true func retries a st k w' :
  k < retries →
  afterSuccess func k (world st) = Some w' →
  executeWithRetry func retries a st
  = (Return true,
     mkState w' (trace st ++ failedAttempts a retries 0 k ++ [Invoke a k])
             (restaurantsData st)).
Proof.
  intros Hlt Hok. unfold afterSuccess in Hok.
  destruct (afterFailures func k 0 (world st)) as [wk|] eqn:Hfail; [|discriminate].
  destruct (func k wk) as [[[]|e] w1] eqn:Hcall; [|discriminate].
  injection Hok as ->.
  apply (retryLoop_succeeds func a retries k retries 0 st wk w' Hlt Hfail Hcall).
Qed.

Lemma invocations_failedAttempts a maxRetries n : ∀ retryCount,
  invocations a (failedAttempts a maxRetries retryCount n) = seq retryCount n.
Proof.
  induction n as [|n IH]; intros retryCount; [reflexivity|].
  cbn [failedAttempts invocations omap list_omap seq].
  rewrite decide_True by reflexivity. f_equal. apply IH.
Qed.

Lemma invocations_other a a' maxRetries n : ∀ retryCount,
  a ≠ a' →
  invocations a' (failedAttempts a maxRetries retryCount n) = [].
Proof.
  induction n as [|n IH]; intros retryCount Hne; [reflexivity|].
  cbn [failedAttempts invocations omap list_omap].
  rewrite decide_False by exact Hne. by apply IH.
Qed.

Lemma delays_failedAttempts a maxRetries n : ∀ retryCount,
  delays (failedAttempts a maxRetries retryCount n) = replicate n 1000.
Proof.
  induction n as [|n IH]; intros retryCount; [reflexivity|].
  cbn [failedAttempts delays omap list_omap replicate]. f_equal. apply IH.
Qed.

Lemma invocations_app a (xs ys : list Event) :
  invocations a (xs ++ ys) = invocations a xs ++ invocations a ys.
Proof. apply omap_app. Qed.

Lemma invocations_cons a (ev : Event) (evs : list Event) :
  invocations a (ev :: evs) = invocations a [ev] ++ invocations a evs.
Proof. apply (invocations_app a [ev] evs). Qed.

Lemma delays_app (xs ys : list Event) :
  delays (xs ++ ys) = delays xs ++ delays ys.
Proof. apply omap_app. Qed.

End Retry.

(** ** Processing one feed item *)

Section Item.
Context {W : Type} `{Page W}.
Import Scraper.

Implicit Types (st : State W) (w : W) (a : Action).

Lemma extractRestaurantInfo_run st :
  extractRestaurantInfo st
  = (Return (extraction (world st)).1.1,
     mkState (extraction (world st)).2
             (trace st ++ (extraction (world st)).1.2)
             (restaurantsData st)).
Proof.
  unfold extractRestaurantInfo, extraction. rewrite tryCatch_run. js_run.
  destruct (waitForSelectorMain (world st)) as [[[]|e] w1] eqn:Hwait.
  - js_page Hwait.
    destruct (evaluateRestaurantInfo w1) as [[info|e] w2] eqn:Heval.
    + by js_page Heval.
    + by js_page Heval.
  - by js_page Hwait.
Qed.

Lemma placeId_run i st :
  tryCatch (page (linkPlaceId i)) (fun _ => mret "N/A") st
  = (Return (placeIdOf i (world st)).1,
     mkState (placeIdOf i (world st)).2 (trace st) (restaurantsData st)).
Proof.
  unfold placeIdOf. rewrite tryCatch_run.
  destruct (linkPlaceId i (world st)) as [[p|e] w1] eqn:Hid; by js_page Hid.
Qed.

Lemma undeclared_run {A} (identifier : string) st :
  (undeclared identifier : Js (State W) A) st
  = (Throw (ReferenceError identifier), st).
Proof. reflexivity. Qed.


(** The item scrolls into view at attempt [k1]; the open budget is used up. *)
Lemma processItem_open_exhausted total i st k1 w2 w3 :
  k1 < 3 →
  afterSuccess (scrollFunc i) k1 (placeIdOf i (world st)).2 = Some w2 →
  afterFailures (clickFunc i) 3 0 w2 = Some w3 →
  processItem total i st
  = (Return tt,
     mkState w3
       (trace st
        ++ LogProcessing (i + 1) total
        :: (failedAttempts (ScrollingTo (i + 1)) 3 0 k1
            ++ [Invoke (ScrollingTo (i + 1)) k1])
        ++ failedAttempts (Clicking (i + 1)) 3 0 3
        ++ [ErrProcessing (ReferenceError "restaurantClickingMaxRetries")])
       (restaurantsData st)).
Proof.
  intros Hk1 Hscroll Hclick. unfold processItem. js_run.
  rewrite placeId_run. cbv beta iota. rewrite tryCatch_run.
  unfold processItemSteps. js_run.
  erewrite executeWithRetry_true by (exact Hk1 || exact Hscroll).
  cbv beta iota. cbn [negb]. js_run.
  erewrite executeWithRetry_false by exact Hclick.
  cbv beta iota. cbn [negb]. js_run. rewrite undeclared_run. js_run.
  cbn [world trace restaurantsData].
  by rewrite <-!app_assoc.
Qed.

(** The item scrolls into view at attempt [k1], its panel opens at attempt
    [k2], the extraction runs; the close budget is used up. *)
Lemma processItem_close_exhausted total i st k1 k2 w2 w3 w5 :
  k1 < 3 → k2 < 3 →
  afterSuccess (scrollFunc i) k1 (placeIdOf i (world st)).2 = Some w2 →
  afterSuccess (clickFunc i) k2 w2 = Some w3 →
  afterFailures closeFunc 3 0 (extraction w3).2 = Some w5 →
  processItem total i st
  = (Return tt,
     mkState w5
       (trace st
        ++ LogProcessing (i + 1) total
        :: (failedAttempts (ScrollingTo (i + 1)) 3 0 k1
            ++ [Invoke (ScrollingTo (i + 1)) k1])
        ++ (failedAttempts (Clicking (i + 1)) 3 0 k2
            ++ [Invoke (Clicking (i + 1)) k2])
        ++ (extraction w3).1.2
        ++ scrapedLine (extraction w3).1.1 (placeIdOf i (world st)).1
        ++ failedAttempts (Closing (i + 1)) 3 0 3
        ++ [ErrProcessing (ReferenceError "closingMaxRetries")])
       (restaurantsData st
        ++ pushed (extraction w3).1.1 (placeIdOf i (world st)).1)).
Proof.
  intros Hk1 Hk2 Hscroll Hclick Hclose. unfold processItem. js_run.
  rewrite placeId_run. cbv beta iota. rewrite tryCatch_run.
  unfold processItemSteps. js_run.
  erewrite executeWithRetry_true by (exact Hk1 || exact Hscroll).
  cbv beta iota. cbn [negb]. js_run.
  erewrite executeWithRetry_true by (exact Hk2 || exact Hclick).
  cbv beta iota. cbn [negb]. js_run.
  rewrite extractRestaurantInfo_run. cbv beta iota.
  cbn [world trace restaurantsData]. js_run.
  destruct (extraction w3) as [[[info|] evs] w4]; cbn [fst snd] in *; js_run;
    cbn [world trace restaurantsData];
    (erewrite executeWithRetry_false by exact Hclose);
    cbv beta iota; cbn [negb]; js_run; rewrite undeclared_run; js_run;
    cbn [world trace restaurantsData pushed scrapedLine];
    rewrite <-?app_assoc, ?app_nil_r; reflexivity.
Qed.

(** An iteration returns whatever the page does: every rejection and the
    [ReferenceError]s of the failure messages end in the [catch] of the
    iteration.  It removes nothing from [restaurantsData]. *)
Lemma processItem_returns total i st :
  ∃ st' : State W,
    processItem total i st = (Return tt, st')
    ∧ restaurantsData st `prefix_of` restaurantsData st'.
Proof.
  unfold processItem. js_run.
  rewrite placeId_run. cbv beta iota. rewrite tryCatch_run.
  unfold processItemSteps. js_run.
  match goal with
  | |- context [executeWithRetry ?f ?n ?a ?s] =>
      destruct (executeWithRetry_returns f n a s) as (b1 & w1 & ev1 & ->)
  end.
  cbv beta iota. destruct b1; cbn [negb]; js_run;
    [|rewrite undeclared_run; js_run; by eexists].
  match goal with
  | |- context [executeWithRetry ?f ?n ?a ?s] =>
      destruct (executeWithRetry_returns f n a s) as (b2 & w2 & ev2 & ->)
  end.
  cbv beta iota. destruct b2; cbn [negb]; js_run;
    [|rewrite undeclared_run; js_run; by eexists].
  rewrite extractRestaurantInfo_run. cbv beta iota.
  cbn [world trace restaurantsData].
  destruct (extraction w2) as [[[info|] ev3] w3]; cbn [fst snd]; js_run;
    cbn [world trace restaurantsData];
    match goal with
    | |- context [executeWithRetry ?f ?n ?a ?s] =>
        destruct (executeWithRetry_returns f n a s) as (b3 & w4 & ev4 & ->)
    end;
    cbv beta iota; destruct b3; cbn [negb]; js_run;
    try (rewrite undeclared_run; js_run);
    eexists; (split; [reflexivity|]); cbn [restaurantsData];
    first [ done | by apply prefix_app_r ].
Qed.

(** So does the loop over the items. *)
Lemma forEach_processItem_returns total (items : list nat) : ∀ st,
  ∃ st' : State W,
    forEach (processItem total) items st = (Return tt, st')
    ∧ restaurantsData st `prefix_of` restaurantsData st'.
Proof.
  induction items as [|i items IH]; intros st; cbn [forEach].
  - exists st. by rewrite mret_run.
  - js_run. destruct (processItem_returns total i st) as (st1 & -> & Hpre1).
    destruct (IH st1) as (st' & Hrun & Hpre).
    exists st'. split; [exact Hrun|]. by etrans.
Qed.

(** The loop goes on with the next index whenever an iteration returns. *)
Lemma forEach_next {A} (body : A → Js (State W) unit) i rest st st' :
  body i st = (Return tt, st') →
  forEach body (i :: rest) st = forEach body rest st'.
Proof. intros Hbody. cbn [forEach]. js_run. by rewrite Hbody. Qed.


Lemma failedAttempts_no_close a maxRetries n : ∀ retryCount,
  (∀ item, a ≠ Closing item) →
  Forall (fun ev => isCloseAttempt ev = false)
         (failedAttempts a maxRetries retryCount n).
Proof.
  induction n as [|n IH]; intros retryCount Ha; cbn [failedAttempts].
  - constructor.
  - repeat constructor; [|by apply IH].
    destruct a; try reflexivity. by destruct (Ha n0).
Qed.



End Item.

(** ** The item loop of index.mjs *)

Section IndexItem.
Context {W : Type} `{Page W}.
Import Scraper.

Implicit Types (st : State W) (w : W).

Lemma clickLoop_fails i n : ∀ retryCount st w',
  afterFailures (clickFunc i) n retryCount (world st) = Some w' →
  IndexScraper.clickLoop i n retryCount st
  = (Return false,
     mkState w' (trace st ++ IndexScraper.failedClicks i retryCount n)
             (restaurantsData st)).
Proof.
  induction n as [|n IH]; intros retryCount st w' Hfail; simpl in Hfail.
  - injection Hfail as <-. cbn [IndexScraper.clickLoop IndexScraper.failedClicks].
    by rewrite mret_run, app_nil_r, state_eta.
  - destruct (clickFunc i retryCount (world st)) as [[[]|e] w1] eqn:Hcall;
      [discriminate|].
    cbn [IndexScraper.clickLoop]. rewrite tryCatch_run. js_run. js_page Hcall.
    erewrite IH by exact Hfail.
    cbn [world trace restaurantsData IndexScraper.failedClicks].
    by rewrite <-!app_assoc.
Qed.

(** The link scrolls into view; the three clicks never reveal a second
    container. *)
Lemma index_processItem_open_exhausted total i st w1 w2 w3 :
  linkScrollIntoView i (world st) = (Return tt, w1) →
  waitForLinkInViewport i None w1 = (Return tt, w2) →
  afterFailures (clickFunc i) 3 0 w2 = Some w3 →
  IndexScraper.processItem total i st
  = (Return tt,
     mkState w3
       (trace st
        ++ LogProcessing (i + 1) total
        :: IndexScraper.failedClicks i 0 3
        ++ [ErrFailedOpen (i + 1) 3])
       (restaurantsData st)).
Proof.
  intros Hview Hwait Hclick. unfold IndexScraper.processItem. js_run.
  rewrite tryCatch_run. unfold IndexScraper.processItemSteps. js_run.
  js_page Hview. js_page Hwait.
  unfold IndexScraper.maxRetries.
  erewrite clickLoop_fails by exact Hclick.
  cbv beta iota. cbn [negb]. js_run.
  cbn [world trace restaurantsData].
  by rewrite <-!app_assoc.
Qed.

End IndexItem.

(** ** The item loop of src/unnamed/part_001 *)

Section DetailItem.
Context {W : Type} `{Page W}.
Import Scraper.

Implicit Types (st : State W) (w : W).





End DetailItem.

(** ** Scrolling the feed *)

Section Scroll.
Context {W : Type} `{Page W}.
Import Scraper.

Implicit Types (st : State W) (w : W).

(** One iteration in which the wait for growth resolves, no end-of-list
    text is visible, and both the measurement and the re-measurement give
    the previous height: [scrollToEnd] returns from that iteration with
    'No more results to load'. *)
Lemma scrollLoop_stability_check remaining lastHeight scrollAttempts st
      w1 w2 w3 w4 w5 w6 (indicator : Result unit) :
  feedScrollTo (world st) = (Return tt, w1) →
  waitForHeightAbove lastHeight w1 = (Return tt, w2) →
  endOfListVisible w2 = (Return false, w3) →
  feedScrollHeight w3 = (Return lastHeight, w4) →
  waitForLoadingIndicator w4 = (indicator, w5) →
  feedScrollHeight w5 = (Return lastHeight, w6) →
  scrollLoop (S remaining) lastHeight scrollAttempts st
  = (Return tt,
     mkState w6 (trace st ++ [LogNoMoreResults]) (restaurantsData st)).
Proof.
  intros Hscroll Hgrow Hend Hnew Hind Hfinal.
  cbn [scrollLoop]. js_run.
  js_page Hscroll. js_page Hgrow. js_page Hend. js_page Hnew.
  rewrite Z.eqb_refl. unfold stabilityCheck. js_run.
  rewrite tryCatch_run. erewrite page_run by exact Hind.
  destruct indicator as [[]|e]; cbv beta iota; js_run;
    js_page Hfinal; by rewrite Z.eqb_refl; js_run.
Qed.

(** An iteration whose wait for growth rejects ends [scrollToEnd] in its
    [catch]. *)
Lemma scrollToEnd_growth_timeout st w1 w2 w3 w4 w5 lastHeight e :
  waitForSelectorFeed (world st) = (Return tt, w1) →
  waitForFeedChildren w1 = (Return tt, w2) →
  feedScrollHeight w2 = (Return lastHeight, w3) →
  feedScrollTo w3 = (Return tt, w4) →
  waitForHeightAbove lastHeight w4 = (Throw e, w5) →
  scrollToEnd st
  = (Return tt,
     mkState w5 (trace st ++ [LogScrolling; ErrScrolling e])
             (restaurantsData st)).
Proof.
  intros Hfeed Hchildren Hheight Hscroll Hgrow.
  unfold scrollToEnd. rewrite tryCatch_run. js_run.
  js_page Hfeed. js_page Hchildren. js_page Hheight.
  unfold maxAttempts. cbn [scrollLoop]. js_run.
  js_page Hscroll. js_page Hgrow.
  cbn [world trace restaurantsData]. by rewrite <-app_assoc.
Qed.

End Scroll.

(** On a feed whose height never changes every poll of the wait for growth
    sees the same height. *)
Lemma pollAbove_constant (h : Z) (polls budget : nat) :
  Sim.pollAbove budget h (Sim.constantFeed h polls)
  = (Throw TimeoutError, Sim.constantFeed h polls).
Proof.
  induction budget as [|budget IH]; [reflexivity|].
  cbn [Sim.pollAbove]. unfold Sim.nextHeight at 1. cbn [Sim.simHeights Sim.constantFeed].
  by rewrite Z.ltb_irrefl.
Qed.

(** ** Saving *)

Section Save.
Context {W : Type} `{Page W} `{StringMethods}.
Import Scraper.

Implicit Types (st : State W).

Lemma getUniqueRestaurants_nil (allRestaurants : list JsObject) :
  getUniqueRestaurants allRestaurants = [] ↔ allRestaurants = [].
Proof.
  split; [|by intros ->].
  destruct allRestaurants as [|r l]; [done|].
  unfold getUniqueRestaurants. cbn [filterUnseen].
  rewrite decide_False by apply not_elem_of_empty. discriminate.
Qed.

Lemma mergeAndSave_empty st :
  Batch.mergeAndSave [] st
  = (Throw (TypeError "Cannot convert undefined or null to object"),
     mkState (world st) (trace st ++ [LogFoundUnique 0 0]) (restaurantsData st)).
Proof. reflexivity. Qed.

End Save.

(** ** Chunks and cooldown *)

Section Chunks.
Context {W : Type} `{Page W}.
Import Jobs.
Import Scraper Batch.

Implicit Types (st : State W) (chunks : list (list Query)).

Lemma slice_take_drop {A} (l : list A) (i n : nat) :
  slice l i (i + n) = take n (drop i l).
Proof. unfold slice. f_equal. lia. Qed.

(** With a positive limit and enough fuel the splitting loop ends; what it
    appends to [chunks] is a partition of the queries from index [i] on,
    in pieces of [concurrentLimit] queries, the last one possibly
    shorter. *)
Lemma splitChunks_partition {A} (queries : list A) (concurrentLimit : nat) :
  0 < concurrentLimit →
  ∀ (fuel i : nat) (acc : list (list A)),
    length queries - i < fuel →
    ∃ pieces : list (list A),
      splitChunks fuel queries concurrentLimit i acc = Some (acc ++ pieces)
      ∧ concat pieces = drop i queries
      ∧ Forall (fun piece => 0 < length piece ≤ concurrentLimit) pieces
      ∧ (∀ (j : nat) (piece : list A),
           pieces !! j = Some piece → S j < length pieces →
           length piece = concurrentLimit).
Proof.
  intros Hlimit fuel.
  induction fuel as [|fuel IH]; intros i acc Hfuel; [lia|].
  cbn [splitChunks].
  destruct (Nat.ltb_spec i (length queries)) as [Hlt|Hge].
  - destruct (IH (i + concurrentLimit)
                 (acc ++ [slice queries i (i + concurrentLimit)]))
      as (pieces & Hrun & Hconcat & Hsizes & Hfull); [lia|].
    exists (slice queries i (i + concurrentLimit) :: pieces).
    rewrite slice_take_drop in *.
    split_and!.
    + by rewrite Hrun, <-app_assoc.
    + cbn [concat]. rewrite Hconcat, <-drop_drop. apply take_drop.
    + constructor; [|done].
      rewrite length_take, length_drop. lia.
    + intros [|j] piece Hpiece Hlast; cbn in Hpiece, Hlast.
      * injection Hpiece as <-.
        rewrite length_take, length_drop.
        destruct pieces as [|next pieces]; [cbn in Hlast; lia|].
        cbn [concat] in Hconcat.
        apply Forall_cons in Hsizes as [Hnext _].
        assert (Hlen : length (drop (i + concurrentLimit) queries) ≠ 0).
        { rewrite <-Hconcat, length_app. lia. }
        rewrite length_drop in Hlen. lia.
      * apply (Hfull j); [done | lia].
  - exists []. split_and!.
    + by rewrite app_nil_r.
    + symmetry. apply drop_ge. lia.
    + constructor.
    + intros j piece Hpiece. by rewrite lookup_nil in Hpiece.
Qed.

(** With a limit of 0 the index never moves: no amount of fuel lets the
    splitting loop end on a list that is not empty. *)
Lemma splitChunks_zero_limit {A} (query : A) (queries : list A) (fuel : nat) :
  ∀ acc : list (list A), splitChunks fuel (query :: queries) 0 0 acc = None.
Proof.
  induction fuel as [|fuel IH]; intros acc; [reflexivity|].
  cbn [splitChunks length Nat.ltb Nat.leb Nat.add]. apply IH.
Qed.

Lemma forEach_starting (jobs : list (string * FilePath)) : ∀ st,
  forEach (fun job => emit (LogStartingQuery job.1)) jobs st
  = (Return tt,
     mkState (world st) (trace st ++ (LogStartingQuery <$> (fst <$> jobs)))
             (restaurantsData st)).
Proof.
  induction jobs as [|job jobs IH]; intros st; cbn [forEach].
  - by rewrite mret_run, app_nil_r, state_eta.
  - js_run. rewrite IH. cbn [world trace restaurantsData fmap list_fmap].
    by rewrite <-app_assoc.
Qed.

(** The chunks are taken one after the other.  Whatever the sessions do,
    what the loop adds to the trace is an initial part of the schedule; it
    is the whole schedule when the loop returns. *)
Lemma processChunks_schedule concurrentLimit total chunks :
  ∀ (i : nat) (results : list FilePath) st,
    total = i + length chunks →
    ∃ (r : Result (list FilePath)) (st' : State W) (added : list Event),
      processChunks concurrentLimit total i chunks results st = (r, st')
      ∧ trace st' = trace st ++ added
      ∧ added `prefix_of` schedule concurrentLimit total i chunks
      ∧ (∀ files, r = Return files →
           added = schedule concurrentLimit total i chunks).
Proof.
  induction chunks as [|chunk rest IH]; intros i results st Htotal.
  - exists (Return results), st, []. cbn [processChunks schedule].
    rewrite mret_run, app_nil_r. split_and!; done.
  - cbn [processChunks]. js_run. rewrite forEach_starting. cbv beta iota. js_run.
    cbn [world trace restaurantsData].
    set (jobs := chunkJobs concurrentLimit i chunk).
    destruct (awaitAllQueries jobs (world st)) as [[[]|e] w1] eqn:Hall;
      js_page Hall.
    + destruct rest as [|next rest].
      * rewrite (proj2 (Nat.ltb_ge _ _)) by (cbn [length] in Htotal; lia).
        js_run. cbn [processChunks]. rewrite mret_run.
        eexists; eexists; eexists. split; [reflexivity|].
        cbn [world trace restaurantsData schedule].
        unfold chunkEvents. fold jobs.
        rewrite <-!app_assoc. cbn [app]. split_and!; done.
      * rewrite (proj2 (Nat.ltb_lt _ _)) by (cbn [length] in Htotal; lia).
        js_run.
        match goal with
        | |- context [processChunks _ _ _ _ ?res ?s] =>
            destruct (IH (S i) res s) as (r & st' & added & Hrun & Htrace & Hpre & Hfull);
              [cbn [length] in *; lia|]
        end.
        rewrite Hrun. exists r, st'.
        exists (chunkEvents concurrentLimit total i chunk
                ++ [LogWaiting; Delay 5000] ++ added).
        split; [reflexivity|].
        cbn [world trace restaurantsData] in Htrace.
        split_and!.
        -- rewrite Htrace. unfold chunkEvents. fold jobs.
           rewrite <-!app_assoc. cbn [app]. by rewrite <-!app_assoc.
        -- cbn [schedule]. by repeat apply prefix_app.
        -- intros files Hfiles. cbn [schedule].
           by rewrite (Hfull files Hfiles).
    + eexists; eexists; eexists. split; [reflexivity|].
      cbn [world trace restaurantsData].
      assert (Hevents :
                (trace st ++ [LogChunk (i + 1) total])
                  ++ (LogStartingQuery <$> (fst <$> jobs))
                  ++ [AwaitAll (snd <$> jobs)]
                = trace st ++ chunkEvents concurrentLimit total i chunk).
      { unfold chunkEvents. fold jobs. rewrite <-!app_assoc. by cbn [app]. }
      split_and!.
      * rewrite <-Hevents. by rewrite <-!app_assoc.
      * cbn [schedule]. destruct rest; [done|]. by apply prefix_app_r.
      * intros files Hfiles. discriminate.
Qed.

Lemma numbered_app k (a b : list Query) :
  numbered k (a ++ b) = numbered k a ++ numbered (k + length a) b.
Proof.
  unfold numbered. rewrite imap_app. f_equal.
  apply imap_ext. intros index q _. cbn. do 2 f_equal. lia.
Qed.

(** When every chunk but the last has [concurrentLimit] members, the jobs
    of the chunks number the queries consecutively. *)
Lemma jobsFrom_numbered concurrentLimit chunks : ∀ i,
  (∀ (j : nat) (chunk : list Query),
     chunks !! j = Some chunk → S j < length chunks →
     length chunk = concurrentLimit) →
  jobsFrom concurrentLimit i chunks
  = numbered (i * concurrentLimit) (concat chunks).
Proof.
  induction chunks as [|chunk rest IH]; intros i Hfull; [reflexivity|].
  cbn [jobsFrom concat]. rewrite numbered_app. f_equal.
  destruct rest as [|next rest]; [reflexivity|].
  rewrite IH.
  - f_equal. rewrite (Hfull 0 chunk); [lia | done | cbn; lia].
  - intros j c Hc Hj. apply (Hfull (S j) c); [done | cbn in *; lia].
Qed.

Lemma numbered_files k (queries : list Query) :
  snd <$> numbered k queries = TmpCsv <$> seq k (length queries).
Proof.
  revert k. induction queries as [|q queries IH]; intros k; [reflexivity|].
  unfold numbered in *. cbn [imap fmap list_fmap length seq snd].
  rewrite Nat.add_0_r. f_equal.
  rewrite <-IH. f_equal. apply imap_ext. intros index q' _. cbn.
  do 2 f_equal. lia.
Qed.

(** A run of the chunk loop that returns has waited for exactly the jobs of
    its chunks and returns their files. *)
Lemma processChunks_files concurrentLimit total chunks :
  ∀ (i : nat) (results files : list FilePath) st st',
    processChunks concurrentLimit total i chunks results st = (Return files, st') →
    files = results ++ (snd <$> jobsFrom concurrentLimit i chunks).
Proof.
  induction chunks as [|chunk rest IH]; intros i results files st st' Hrun.
  - cbn [processChunks] in Hrun. rewrite mret_run in Hrun.
    injection Hrun as <- _. cbn. by rewrite app_nil_r.
  - cbn [processChunks] in Hrun. revert Hrun. js_run.
    rewrite forEach_starting. cbv beta iota. js_run.
    cbn [world trace restaurantsData].
    destruct (awaitAllQueries (chunkJobs concurrentLimit i chunk) (world st))
      as [[[]|e] w1] eqn:Hall; js_page Hall; [|discriminate].
    destruct (i <? total - 1)%nat; js_run; intros Hrun;
      apply IH in Hrun; rewrite Hrun; cbn [jobsFrom];
      rewrite fmap_app, <-app_assoc; reflexivity.
Qed.

(** A chunk's jobs are its queries numbered from [i * concurrentLimit]. *)
Lemma chunkJobs_numbered concurrentLimit i (chunk : list Query) :
  chunkJobs concurrentLimit i chunk = numbered (i * concurrentLimit) chunk.
Proof. reflexivity. Qed.

Lemma slice_numbered (queries : list Query) (start limit : nat) :
  slice (numbered 0 queries) start (start + limit)
  = numbered start (slice queries start (start + limit)).
Proof.
  unfold slice, numbered. replace (start + limit - start) with limit by lia.
  apply list_eq. intros j.
  rewrite list_lookup_imap.
  destruct (decide (j < limit)) as [Hlt|Hge].
  - rewrite !lookup_take_lt, !lookup_drop, list_lookup_imap by exact Hlt.
    reflexivity.
  - by rewrite !lookup_take_ge by lia.
Qed.

(** Splitting the numbered jobs is numbering the chunks of the queries. *)
Lemma splitChunks_numbered (queries : list Query) (concurrentLimit : nat) :
  ∀ (fuel : nat) (acc : list (list Query)),
    splitChunks fuel (numbered 0 queries) concurrentLimit
      (length acc * concurrentLimit) (imap (chunkJobs concurrentLimit) acc)
    = imap (chunkJobs concurrentLimit)
        <$> splitChunks fuel queries concurrentLimit
              (length acc * concurrentLimit) acc.
Proof.
  induction fuel as [|fuel IH]; intros acc; [reflexivity|].
  cbn [splitChunks]. unfold numbered at 1. rewrite length_imap.
  destruct (length acc * concurrentLimit <? length queries)%nat; [|reflexivity].
  specialize (IH (acc ++ [slice queries (length acc * concurrentLimit)
                            (length acc * concurrentLimit + concurrentLimit)])).
  rewrite length_app in IH. cbn [length] in IH.
  replace ((length acc + 1) * concurrentLimit)
    with (length acc * concurrentLimit + concurrentLimit) in IH by lia.
  rewrite <-IH. f_equal.
  rewrite imap_app. cbn [imap]. rewrite Nat.add_0_r. f_equal.
  by rewrite slice_numbered, chunkJobs_numbered.
Qed.

(** The jobs of the chunks, batch after batch. *)
Lemma concat_chunkJobs concurrentLimit chunks : ∀ i,
  concat (imap (fun j => chunkJobs concurrentLimit (i + j)) chunks)
  = jobsFrom concurrentLimit i chunks.
Proof.
  induction chunks as [|chunk rest IH]; intros i; [reflexivity|].
  rewrite imap_cons. cbn [concat jobsFrom]. rewrite Nat.add_0_r. f_equal.
  rewrite <-IH. f_equal. apply imap_ext. intros j c _. cbn. f_equal. lia.
Qed.

(** When every [Promise.all] resolves the chunk loop returns the files of
    its jobs, in the world the last one has left, after the whole
    schedule. *)
Lemma processChunks_resolves concurrentLimit total chunks :
  ∀ (i : nat) (results : list FilePath) st (w' : W),
    total = i + length chunks →
    afterBatches (imap (fun j => chunkJobs concurrentLimit (i + j)) chunks) (world st)
    = Some w' →
    processChunks concurrentLimit total i chunks results st
    = (Return (results ++ (snd <$> jobsFrom concurrentLimit i chunks)),
       mkState w' (trace st ++ schedule concurrentLimit total i chunks)
               (restaurantsData st)).
Proof.
  induction chunks as [|chunk rest IH]; intros i results st w' Htotal Hall.
  - cbn in Hall. injection Hall as <-. cbn [processChunks schedule jobsFrom].
    by rewrite mret_run, !app_nil_r, state_eta.
  - rewrite imap_cons in Hall. cbn [afterBatches] in Hall.
    rewrite Nat.add_0_r in Hall.
    cbn [processChunks]. js_run. rewrite forEach_starting. cbv beta iota. js_run.
    cbn [world trace restaurantsData].
    set (jobs := chunkJobs concurrentLimit i chunk) in *.
    destruct (awaitAllQueries jobs (world st)) as [[[]|e] w1] eqn:Hwait;
      [|discriminate].
    js_page Hwait.
    assert (Hnext : imap ((fun j => chunkJobs concurrentLimit (i + j)) ∘ S) rest
                    = imap (fun j => chunkJobs concurrentLimit (S i + j)) rest).
    { apply imap_ext. intros j c _. cbn. f_equal. lia. }
    rewrite Hnext in Hall.
    destruct rest as [|next rest].
    + cbn in Hall. injection Hall as <-.
      rewrite (proj2 (Nat.ltb_ge _ _)) by (cbn [length] in Htotal; lia).
      js_run. cbn [processChunks]. rewrite mret_run.
      cbn [world trace restaurantsData schedule jobsFrom].
      unfold chunkEvents. fold jobs. rewrite !app_nil_r.
      rewrite <-!app_assoc. cbn [app]. by rewrite <-?app_assoc.
    + rewrite (proj2 (Nat.ltb_lt _ _)) by (cbn [length] in Htotal; lia).
      js_run. cbn [world trace restaurantsData].
      erewrite IH; [| cbn [length] in *; lia | exact Hall].
      cbn [world trace restaurantsData].
      change (jobsFrom concurrentLimit i (chunk :: next :: rest))
        with (jobs ++ jobsFrom concurrentLimit (S i) (next :: rest)).
      change (schedule concurrentLimit total i (chunk :: next :: rest))
        with (chunkEvents concurrentLimit total i chunk
              ++ [LogWaiting; Delay 5000]
              ++ schedule concurrentLimit total (S i) (next :: rest)).
      unfold chunkEvents. fold jobs.
      rewrite fmap_app, <-!app_assoc. cbn [app]. by rewrite <-!app_assoc.
Qed.

(** When the [Promise.all] of chunk [i + k] is the first to reject, the loop
    rejects with its error in the world it has left: the chunks before were
    awaited one after the other, each followed by the pause, and no later
    chunk is started. *)
Lemma processChunks_rejects concurrentLimit total chunks :
  ∀ (i k : nat) (results : list FilePath) st (chunk : list Query)
    (wk w' : W) (e : JsError),
    total = i + length chunks →
    chunks !! k = Some chunk →
    beforeBatch (imap (fun j => chunkJobs concurrentLimit (i + j)) chunks) k (world st)
    = Some wk →
    awaitAllQueries (chunkJobs concurrentLimit (i + k) chunk) wk = (Throw e, w') →
    processChunks concurrentLimit total i chunks results st
    = (Throw e,
       mkState w'
         (trace st ++ schedule concurrentLimit total i (take (S k) chunks))
         (restaurantsData st)).
Proof.
  induction chunks as [|first rest IH];
    intros i k results st chunk wk w' e Htotal Hk Hbefore Hreject;
    [discriminate|].
  cbn [processChunks]. js_run. rewrite forEach_starting. cbv beta iota. js_run.
  cbn [world trace restaurantsData].
  set (jobs := chunkJobs concurrentLimit i first).
  destruct k as [|k].
  - injection Hk as ->. cbn in Hbefore. injection Hbefore as <-.
    rewrite Nat.add_0_r in Hreject. fold jobs in Hreject.
    js_page Hreject. cbn [take schedule]. unfold chunkEvents. fold jobs.
    cbn [world trace restaurantsData]. rewrite <-!app_assoc. cbn [app].
    by rewrite <-?app_assoc.
  - cbn [lookup list_lookup] in Hk.
    unfold beforeBatch in Hbefore. rewrite imap_cons in Hbefore.
    cbn [take afterBatches] in Hbefore. rewrite Nat.add_0_r in Hbefore.
    fold jobs in Hbefore.
    destruct (awaitAllQueries jobs (world st)) as [[[]|e0] w1] eqn:Hwait;
      [|discriminate].
    js_page Hwait.
    assert (Hnext : imap ((fun j => chunkJobs concurrentLimit (i + j)) ∘ S) rest
                    = imap (fun j => chunkJobs concurrentLimit (S i + j)) rest).
    { apply imap_ext. intros j c _. cbn. f_equal. lia. }
    rewrite Hnext in Hbefore.
    assert (Hlen : k < length rest) by (by eapply lookup_lt_Some).
    rewrite (proj2 (Nat.ltb_lt _ _)) by (cbn [length] in Htotal; lia).
    js_run. cbn [world trace restaurantsData].
    erewrite (IH (S i) k _ _ chunk wk w' e);
      [| cbn [length] in *; lia | exact Hk | | by replace (S i + k) with (i + S k) by lia].
    + cbn [world trace restaurantsData].
      destruct rest as [|next rest]; [cbn in Hlen; lia|].
      change (schedule concurrentLimit total i (take (S (S k)) (first :: next :: rest)))
        with (chunkEvents concurrentLimit total i first
              ++ [LogWaiting; Delay 5000]
              ++ schedule concurrentLimit total (S i) (take (S k) (next :: rest))).
      unfold chunkEvents. fold jobs. rewrite <-!app_assoc. cbn [app].
      by rewrite <-?app_assoc.
    + cbn [world]. unfold beforeBatch. destruct k as [|k].
      * cbn [take] in Hbefore. cbn in Hbefore. injection Hbefore as <-. reflexivity.
      * destruct rest as [|next rest]; [cbn in Hlen; lia|].
        rewrite imap_cons in Hbefore |- *. cbn [take] in Hbefore |- *.
        exact Hbefore.
Qed.

End Chunks.

(** C2.  [executeWithRetry] on an action that rejects on every one of its
    [retries] attempts calls it exactly [retries] times, with the attempt
    indices 0, 1, ..., sleeps 1000 ms after each rejection and returns
    [false]; on an action that rejects on its first [k < retries] attempts
    and then resolves it calls it exactly [k + 1] times, sleeps [k] times and
    returns [true] right after the successful call. *)
Theorem executeWithRetry_attempts {W : Type} `{Page W}
    (func : nat → Js W unit) (retries : nat) (actionName : Action)
    (st : State W) :
  (∀ w' : W,
     Scraper.afterFailures func retries 0 (world st) = Some w' →
     let added := Scraper.failedAttempts actionName retries 0 retries in
     Scraper.executeWithRetry func retries actionName st
     = (Return false, mkState w' (trace st ++ added) (restaurantsData st))
     ∧ Scraper.invocations actionName added = seq 0 retries
     ∧ Scraper.delays added = replicate retries 1000)
  ∧ (∀ (k : nat) (w' : W),
       k < retries →
       Scraper.afterSuccess func k (world st) = Some w' →
       let added :=
         Scraper.failedAttempts actionName retries 0 k ++ [Invoke actionName k] in
       Scraper.executeWithRetry func retries actionName st
       = (Return true, mkState w' (trace st ++ added) (restaurantsData st))
       ∧ Scraper.invocations actionName added = seq 0 (k + 1)
       ∧ Scraper.delays added = replicate k 1000
       ∧ last added = Some (Invoke actionName k)).
Proof.
  split.
  - intros w' Hfail added. subst added. repeat split.
    + by apply executeWithRetry_false.
    + apply invocations_failedAttempts.
    + apply delays_failedAttempts.
  - intros k w' Hlt Hok added. subst added. repeat split.
    + by apply executeWithRetry_true.
    + rewrite invocations_app, invocations_failedAttempts, seq_app. simpl.
      by rewrite decide_True.
    + rewrite delays_app, delays_failedAttempts. simpl. by rewrite app_nil_r.
    + apply last_snoc.
Qed.

(** C2 on the scripted page: the panel of link 0 never opens in three
    attempts; the panel of link 1 opens at the third. *)
Lemma executeWithRetry_attempts_witness :
  Scraper.executeWithRetry (Scraper.clickFunc 0) 3 (Clicking 1)
    (Sim.start (Sim.twoLinks [] [3; 2] []))
  = (Return false,
     mkState (Sim.mkSim [100%Z; 200%Z] 3 true 2 [] [0; 2] []
                [Some Sim.cafe; Some Sim.diner] (Some 0) None 3000 [])
             (Scraper.failedAttempts (Clicking 1) 3 0 3) [])
  ∧ Scraper.executeWithRetry (Scraper.clickFunc 1) 3 (Clicking 2)
      (Sim.start (Sim.twoLinks [] [3; 2] []))
    = (Return true,
       mkState (Sim.mkSim [100%Z; 200%Z] 3 true 2 [] [3; 0] []
                  [Some Sim.cafe; Some Sim.diner] (Some 1) (Some 1) 2000 [])
               (Scraper.failedAttempts (Clicking 2) 3 0 2 ++ [Invoke (Clicking 2) 2])
               []).
Proof.
  split.
  - apply (executeWithRetry_attempts (Scraper.clickFunc 0) 3 (Clicking 1)
             (Sim.start (Sim.twoLinks [] [3; 2] []))).
    vm_compute. reflexivity.
  - apply (proj2 (executeWithRetry_attempts (Scraper.clickFunc 1) 3 (Clicking 2)
                    (Sim.start (Sim.twoLinks [] [3; 2] []))) 2).
    + lia.
    + vm_compute. reflexivity.
Defined.

(** C4.  An item whose detail panel does not open in any of the three
    attempts leaves [restaurantsData] as it was, is followed by no closing
    attempt and no further page interaction, and the loop goes on with the
    next item; in scraper.mjs (first part) and in index.mjs (second part). *)
Theorem item_that_never_opens_is_skipped {W : Type} `{Page W}
    (total i : nat) (rest : list nat) (st : State W) :
  (∀ (k1 : nat) (w2 w3 : W),
     k1 < 3 →
     Scraper.afterSuccess (Scraper.scrollFunc i) k1
       (Scraper.placeIdOf i (world st)).2 = Some w2 →
     Scraper.afterFailures (Scraper.clickFunc i) 3 0 w2 = Some w3 →
     ∃ (st' : State W) (added : list Event),
       Scraper.processItem total i st = (Return tt, st')
       ∧ restaurantsData st' = restaurantsData st
       ∧ world st' = w3
       ∧ trace st' = trace st ++ added
       ∧ Scraper.invocations (Clicking (i + 1)) added = [0; 1; 2]
       ∧ Forall (fun ev => Scraper.isCloseAttempt ev = false) added
       ∧ Scraper.forEach (Scraper.processItem total) (i :: rest) st
         = Scraper.forEach (Scraper.processItem total) rest st')
  ∧ (∀ (w1 w2 w3 : W),
       linkScrollIntoView i (world st) = (Return tt, w1) →
       waitForLinkInViewport i None w1 = (Return tt, w2) →
       Scraper.afterFailures (Scraper.clickFunc i) 3 0 w2 = Some w3 →
       ∃ st' : State W,
         IndexScraper.processItem total i st = (Return tt, st')
         ∧ restaurantsData st' = restaurantsData st
         ∧ world st' = w3
         ∧ trace st'
           = trace st
             ++ LogProcessing (i + 1) total
             :: IndexScraper.failedClicks i 0 3 ++ [ErrFailedOpen (i + 1) 3]
         ∧ Scraper.forEach (IndexScraper.processItem total) (i :: rest) st
           = Scraper.forEach (IndexScraper.processItem total) rest st').
Proof.
  split.
  - intros k1 w2 w3 Hk1 Hscroll Hclick.
    pose proof (processItem_open_exhausted total i st k1 w2 w3 Hk1 Hscroll Hclick)
      as Hrun.
    eexists; eexists. split; [exact Hrun|].
    cbn [world trace restaurantsData].
    split_and!; [reflexivity | reflexivity | reflexivity | | |].
    + rewrite invocations_cons, !invocations_app, invocations_failedAttempts.
      rewrite invocations_other by discriminate.
      cbn [Scraper.invocations omap list_omap].
      rewrite decide_False by discriminate. reflexivity.
    + constructor; [reflexivity|].
      repeat apply Forall_app_2.
      * apply failedAttempts_no_close. discriminate.
      * by repeat constructor.
      * apply failedAttempts_no_close. discriminate.
      * by repeat constructor.
    + by apply forEach_next.
  - intros w1 w2 w3 Hview Hwait Hclick.
    pose proof (index_processItem_open_exhausted total i st w1 w2 w3
                  Hview Hwait Hclick) as Hrun.
    eexists. split; [exact Hrun|].
    cbn [world trace restaurantsData].
    split_and!; [reflexivity | reflexivity | reflexivity |].
    by apply forEach_next.
Qed.

(** C4 on the scripted page whose first panel never opens. *)
Lemma item_that_never_opens_is_skipped_witness :
  (∃ (st' : State Sim.Sim) (added : list Event),
     Scraper.processItem 2 0 (Sim.start (Sim.twoLinks [] [3; 0] [])) = (Return tt, st')
     ∧ restaurantsData st' = []
     ∧ world st'
       = Sim.mkSim [100%Z; 200%Z] 3 true 2 [] [0; 0] []
           [Some Sim.cafe; Some Sim.diner] (Some 0) None 3000 []
     ∧ trace st' = [] ++ added
     ∧ Scraper.invocations (Clicking (0 + 1)) added = [0; 1; 2]
     ∧ Forall (fun ev => Scraper.isCloseAttempt ev = false) added
     ∧ Scraper.forEach (Scraper.processItem 2) [0; 1]
         (Sim.start (Sim.twoLinks [] [3; 0] []))
       = Scraper.forEach (Scraper.processItem 2) [1] st')
  ∧ (∃ st' : State Sim.Sim,
       IndexScraper.processItem 2 0 (Sim.start (Sim.twoLinks [] [3; 0] []))
       = (Return tt, st')
       ∧ restaurantsData st' = []
       ∧ world st'
         = Sim.mkSim [100%Z; 200%Z] 3 true 2 [] [0; 0] []
             [Some Sim.cafe; Some Sim.diner] (Some 0) None 3000 []
       ∧ trace st'
         = [] ++ LogProcessing (0 + 1) 2
              :: IndexScraper.failedClicks 0 0 3 ++ [ErrFailedOpen (0 + 1) 3]
       ∧ Scraper.forEach (IndexScraper.processItem 2) [0; 1]
           (Sim.start (Sim.twoLinks [] [3; 0] []))
         = Scraper.forEach (IndexScraper.processItem 2) [1] st').
Proof.
  split.
  - apply (proj1 (item_that_never_opens_is_skipped 2 0 [1]
                    (Sim.start (Sim.twoLinks [] [3; 0] []))) 0
             (Sim.twoLinks [] [3; 0] [])).
    + lia.
    + vm_compute. reflexivity.
    + vm_compute. reflexivity.
  - apply (proj2 (item_that_never_opens_is_skipped 2 0 [1]
                    (Sim.start (Sim.twoLinks [] [3; 0] [])))
             (Sim.twoLinks [] [3; 0] []) (Sim.twoLinks [] [3; 0] [])).
    + reflexivity.
    + reflexivity.
    + vm_compute. reflexivity.
Defined.

(** C5.  An item whose panel opens and whose fields are extracted, and whose
    panel then fails to close in all three attempts, keeps its record: the
    record is the last one of [restaurantsData] after the iteration, what was
    there before is untouched, and the loop goes on with the next item. *)
Theorem record_is_kept_when_close_fails {W : Type} `{Page W}
    (total i : nat) (rest : list nat) (st : State W)
    (k1 k2 : nat) (w2 w3 w5 : W) (info : RestaurantInfo) :
  k1 < 3 → k2 < 3 →
  Scraper.afterSuccess (Scraper.scrollFunc i) k1
    (Scraper.placeIdOf i (world st)).2 = Some w2 →
  Scraper.afterSuccess (Scraper.clickFunc i) k2 w2 = Some w3 →
  (Scraper.extraction w3).1.1 = Some info →
  Scraper.afterFailures Scraper.closeFunc 3 0 (Scraper.extraction w3).2 = Some w5 →
  ∃ (st' : State W) (added : list Event),
    Scraper.processItem total i st = (Return tt, st')
    ∧ restaurantsData st'
      = restaurantsData st
        ++ [Scraper.withPlaceId info (Scraper.placeIdOf i (world st)).1]
    ∧ trace st' = trace st ++ added
    ∧ Scraper.invocations (Closing (i + 1)) added = [0; 1; 2]
    ∧ Scraper.forEach (Scraper.processItem total) (i :: rest) st
      = Scraper.forEach (Scraper.processItem total) rest st'
    ∧ ∃ final : State W,
        Scraper.forEach (Scraper.processItem total) (i :: rest) st
        = (Return tt, final)
        ∧ (restaurantsData st
           ++ [Scraper.withPlaceId info (Scraper.placeIdOf i (world st)).1])
          `prefix_of` restaurantsData final.
Proof.
  intros Hk1 Hk2 Hscroll Hclick Hinfo Hclose.
  pose proof (processItem_close_exhausted total i st k1 k2 w2 w3 w5
                Hk1 Hk2 Hscroll Hclick Hclose) as Hrun.
  rewrite Hinfo in Hrun.
  eexists; eexists. split; [exact Hrun|].
  cbn [world trace restaurantsData].
  split_and!; [reflexivity | reflexivity | | |].
  - rewrite invocations_cons, !invocations_app, invocations_failedAttempts.
    rewrite !invocations_other by discriminate.
    assert (Hextract : Scraper.invocations (Closing (i + 1)) (Scraper.extraction w3).1.2 = []).
    { unfold Scraper.extraction.
      destruct (waitForSelectorMain w3) as [[[]|e] w1]; [|reflexivity].
      by destruct (evaluateRestaurantInfo w1) as [[oinfo|e] w4]. }
    rewrite Hextract.
    cbn [Scraper.invocations Scraper.scrapedLine omap list_omap].
    rewrite !decide_False by discriminate. reflexivity.
  - by apply forEach_next.
  - erewrite forEach_next by exact Hrun.
    match goal with
    | |- context [Scraper.forEach _ rest ?s] =>
        destruct (forEach_processItem_returns total rest s) as (final & Hrest & Hpre)
    end.
    exists final. split; [exact Hrest | exact Hpre].
Qed.

(** C5 on the scripted page whose first panel never closes. *)
Lemma record_is_kept_when_close_fails_witness :
  ∃ (st' : State Sim.Sim) (added : list Event),
    Scraper.processItem 2 0 (Sim.start (Sim.twoLinks [] [] [3; 0])) = (Return tt, st')
    ∧ restaurantsData st' = [] ++ [Scraper.withPlaceId Sim.cafe "pid"]
    ∧ trace st' = [] ++ added
    ∧ Scraper.invocations (Closing (0 + 1)) added = [0; 1; 2]
    ∧ Scraper.forEach (Scraper.processItem 2) [0; 1]
        (Sim.start (Sim.twoLinks [] [] [3; 0]))
      = Scraper.forEach (Scraper.processItem 2) [1] st'
    ∧ ∃ final : State Sim.Sim,
        Scraper.forEach (Scraper.processItem 2) [0; 1]
          (Sim.start (Sim.twoLinks [] [] [3; 0]))
        = (Return tt, final)
        ∧ ([] ++ [Scraper.withPlaceId Sim.cafe "pid"])
          `prefix_of` restaurantsData final.
Proof.
  refine (record_is_kept_when_close_fails 2 0 [1]
            (Sim.start (Sim.twoLinks [] [] [3; 0])) 0 0
            (Sim.twoLinks [] [] [3; 0])
            (Sim.mkSim [100%Z; 200%Z] 3 true 2 [] [] [3; 0]
               [Some Sim.cafe; Some Sim.diner] (Some 0) (Some 0) 0 [])
            (Sim.mkSim [100%Z; 200%Z] 3 true 2 [] [] [0; 0]
               [Some Sim.cafe; Some Sim.diner] (Some 0) (Some 0) 3000 [])
            Sim.cafe _ _ _ _ _ _).
  - lia.
  - lia.
  - vm_compute. reflexivity.
  - vm_compute. reflexivity.
  - vm_compute. reflexivity.
  - vm_compute. reflexivity.
Defined.



(** C3.  On a feed whose height is the same at every reading and that shows
    no end-of-list text, [scrollToEnd] does not reach 'No more results to
    load': the wait for the height to exceed the previous height times out
    in the first iteration, and the function ends in its [catch] with
    'Error during scrolling'. *)
Theorem scrollToEnd_constant_height_times_out (h : Z) (polls : nat) :
  Scraper.scrollToEnd (Sim.start (Sim.constantFeed h polls))
  = (Return tt,
     mkState (Sim.constantFeed h polls)
             [LogScrolling; ErrScrolling TimeoutError] [])
  ∧ LogNoMoreResults ∉ [LogScrolling; ErrScrolling TimeoutError].
Proof.
  split.
  - apply (scrollToEnd_growth_timeout (Sim.start (Sim.constantFeed h polls))
             (Sim.constantFeed h polls) (Sim.constantFeed h polls)
             (Sim.constantFeed h polls) (Sim.constantFeed h polls)
             (Sim.constantFeed h polls) h TimeoutError);
      try reflexivity.
    apply pollAbove_constant.
  - rewrite !not_elem_of_cons. split_and!; try discriminate. apply not_elem_of_nil.
Qed.

(** C6.  With no record at all the merge step of [main] writes nothing, but
    not by skipping: [Object.keys(uniqueRestaurants[0])] raises a
    [TypeError], which leaves [main] through its [finally]; neither the
    write nor the removal of the temporary directory is reached.
    [saveToCSV] returns without writing for [null] and for the empty
    array. *)
Theorem empty_dataset_is_not_written {W : Type} `{Page W} `{StringMethods}
    (st : State W) (filename : FilePath) :
  Batch.mainMerge [] st
  = (Throw (TypeError "Cannot convert undefined or null to object"),
     mkState (world st) (trace st ++ [LogFoundUnique 0 0; LogExecutionTime])
             (restaurantsData st))
  ∧ Scraper.saveToCSV None filename st
    = (Return tt,
       mkState (world st) (trace st ++ [LogNoData]) (restaurantsData st))
  ∧ Scraper.saveToCSV (Some []) filename st
    = (Return tt,
       mkState (world st) (trace st ++ [LogNoData]) (restaurantsData st)).
Proof.
  split_and!; [|reflexivity..].
  unfold Batch.mainMerge, Batch.tryFinally.
  rewrite mergeAndSave_empty, emit_run.
  cbn [world trace restaurantsData]. by rewrite <-app_assoc.
Qed.

(** C8, amended.  For a concurrency limit of at least 1 and enough fuel,
    [scrapeWithConcurrency] splits the queries into chunks whose
    concatenation is the list of queries; every chunk but the last has
    exactly [concurrentLimit] members and the last has between 1 and
    [concurrentLimit].  The chunks are processed in order, one at a time:
    each [Promise.all] is awaited in the world the one before has left,
    after a pause of 5000 ms, and there is no pause after the last.  When
    all of them resolve the run returns the temporary files in the order of
    the queries, after the whole schedule.  When the one of chunk [k] is
    the first to reject the run rejects with its error at once: the
    schedule stops with that chunk, and no later chunk is started. *)
Theorem scrapeWithConcurrency_chunks_and_cooldown {W : Type} `{Page W}
    (queries : list Batch.Query) (concurrentLimit fuel : nat) (st : State W) :
  0 < concurrentLimit →
  length queries < fuel →
  ∃ chunks : list (list Batch.Query),
    Batch.splitChunks fuel queries concurrentLimit 0 [] = Some chunks
    ∧ concat chunks = queries
    ∧ (∀ (j : nat) (chunk : list Batch.Query),
         chunks !! j = Some chunk → S j < length chunks →
         length chunk = concurrentLimit)
    ∧ Forall (fun chunk => 0 < length chunk ≤ concurrentLimit) chunks
    ∧ (∀ w' : W,
         Batch.afterBatches (imap (Batch.chunkJobs concurrentLimit) chunks) (world st)
         = Some w' →
         Batch.scrapeWithConcurrency fuel queries concurrentLimit st
         = Some (Return (TmpCsv <$> seq 0 (length queries)),
                 mkState w'
                   (trace st
                    ++ Batch.schedule concurrentLimit (length chunks) 0 chunks)
                   (restaurantsData st)))
    ∧ (∀ (k : nat) (chunk : list Batch.Query) (wk w' : W) (e : JsError),
         chunks !! k = Some chunk →
         Batch.beforeBatch (imap (Batch.chunkJobs concurrentLimit) chunks) k (world st)
         = Some wk →
         awaitAllQueries (Batch.chunkJobs concurrentLimit k chunk) wk = (Throw e, w') →
         Batch.scrapeWithConcurrency fuel queries concurrentLimit st
         = Some (Throw e,
                 mkState w'
                   (trace st
                    ++ Batch.schedule concurrentLimit (length chunks) 0
                         (take (S k) chunks))
                   (restaurantsData st))).
Proof.
  intros Hlimit Hfuel.
  destruct (splitChunks_partition queries concurrentLimit Hlimit fuel 0 [])
    as (chunks & Hsplit & Hconcat & Hsizes & Hfull); [lia|].
  cbn [app] in Hsplit. rewrite drop_0 in Hconcat.
  exists chunks. split_and!; try done.
  - intros w' Hall. unfold Batch.scrapeWithConcurrency. rewrite Hsplit.
    rewrite (processChunks_resolves concurrentLimit (length chunks) chunks
               0 [] st w' eq_refl Hall).
    cbn [app].
    by rewrite (jobsFrom_numbered concurrentLimit chunks 0 Hfull), Hconcat,
      numbered_files.
  - intros k chunk wk w' e Hk Hbefore Hreject.
    unfold Batch.scrapeWithConcurrency. rewrite Hsplit.
    by rewrite (processChunks_rejects concurrentLimit (length chunks) chunks
                  0 k [] st chunk wk w' e eq_refl Hk Hbefore Hreject).
Qed.

(** C8 on three queries and a limit of two: chunks of two and of one, one
    pause between them, none at the end. *)
Lemma scrapeWithConcurrency_chunks_and_cooldown_witness :
  let queries := Batch.mkQuery <$> ["Bulli"; "Dapto"; "Otford"] in
  let q (name : string) := "restaurant near " +:+ name +:+ ", New South Wales, Australia" in
  Batch.splitChunks 4 queries 2 0 []
  = Some [Batch.mkQuery <$> ["Bulli"; "Dapto"]; Batch.mkQuery <$> ["Otford"]]
  ∧ Batch.scrapeWithConcurrency 4 queries 2 (Sim.start (Sim.twoLinks [] [] []))
    = Some (Return [TmpCsv 0; TmpCsv 1; TmpCsv 2],
            mkState (elapse 5000 (Sim.twoLinks [] [] []))
              ([] ++ [LogChunk 1 2;
                      LogStartingQuery (q "Bulli"); LogStartingQuery (q "Dapto");
                      AwaitAll [TmpCsv 0; TmpCsv 1];
                      LogWaiting; Delay 5000;
                      LogChunk 2 2;
                      LogStartingQuery (q "Otford");
                      AwaitAll [TmpCsv 2]])
              []).
Proof.
  intros queries q.
  destruct (scrapeWithConcurrency_chunks_and_cooldown queries 2 4
              (Sim.start (Sim.twoLinks [] [] [])))
    as (chunks & Hsplit & _ & _ & _ & Hrun & _); [lia | cbn; lia |].
  vm_compute in Hsplit. injection Hsplit as <-.
  split; [reflexivity|].
  exact (Hrun (elapse 5000 (Sim.twoLinks [] [] [])) eq_refl).
Defined.

(** C8 as stated, for every limit, fails at the limit 0: the splitting loop
    [for (let i = 0; i < queries.length; i += concurrentLimit)] makes no
    progress on a list that is not empty, so no amount of fuel lets the run
    split one query, which the limit 1 splits and runs at once. *)
Lemma scrapeWithConcurrency_zero_limit_never_returns :
  (∀ fuel : nat,
     Batch.scrapeWithConcurrency fuel [Batch.mkQuery "Bulli"] 0
       (Sim.start (Sim.twoLinks [] [] []))
     = None)
  ∧ Batch.scrapeWithConcurrency 2 [Batch.mkQuery "Bulli"] 1
      (Sim.start (Sim.twoLinks [] [] []))
    = Some (Return [TmpCsv 0],
            mkState (Sim.twoLinks [] [] [])
              [LogChunk 1 1;
               LogStartingQuery "restaurant near Bulli, New South Wales, Australia";
               AwaitAll [TmpCsv 0]]
              []).
Proof.
  split; [|reflexivity].
  intros fuel. unfold Batch.scrapeWithConcurrency.
  by rewrite splitChunks_zero_limit.
Qed.

(** ** Further properties of the harvesting loop *)

(** The retry executor returns a boolean whatever the action does: a
    rejection of the action never reaches the caller. *)
Theorem executeWithRetry_never_raises {W : Type} `{Page W}
    (func : nat → Js W unit) (retries : nat) (actionName : Action)
    (st : State W) :
  ∃ (success : bool) (st' : State W),
    Scraper.executeWithRetry func retries actionName st = (Return success, st')
    ∧ restaurantsData st' = restaurantsData st.
Proof.
  destruct (executeWithRetry_returns func retries actionName st)
    as (b & w' & added & Hrun).
  exists b. eexists. split; [exact Hrun | reflexivity].
Qed.

(** The loop over the items of scraper.mjs returns on every page: each
    iteration ends normally or in its own [catch], and no iteration removes
    a record. *)
Theorem item_loop_always_continues {W : Type} `{Page W}
    (total : nat) (items : list nat) (st : State W) :
  ∃ st' : State W,
    Scraper.forEach (Scraper.processItem total) items st = (Return tt, st')
    ∧ restaurantsData st `prefix_of` restaurantsData st'.
Proof. apply forEach_processItem_returns. Qed.

(** [scrapeRestaurants] returns the array it has filled, whatever the page
    does: what the scrolling, the enumeration or the loop raise ends in the
    outer [catch]. *)
Theorem scrapeRestaurants_never_raises {W : Type} `{Page W} (st : State W) :
  ∃ st' : State W,
    Scraper.scrapeRestaurants st = (Return (restaurantsData st'), st').
Proof.
  unfold Scraper.scrapeRestaurants. rewrite bind_run.
  unfold Scraper.newRestaurantsData at 1. cbv beta iota.
  rewrite bind_run, tryCatch_run.
  match goal with
  | |- context [match ?m ?s with _ => _ end] =>
      destruct (m s) as [[[]|e] st1]
  end.
  - by exists st1.
  - rewrite emit_run. eexists. reflexivity.
Qed.

(** The stability check of [scrollToEnd], when it is reached: if in one
    iteration the wait for growth resolves, no end-of-list text is visible,
    and the measurement and the re-measurement both give the previous
    height, [scrollToEnd] returns from that iteration with 'No more results
    to load'. *)
Theorem stability_check_ends_scrolling {W : Type} `{Page W}
    (remaining : nat) (lastHeight : Z) (scrollAttempts : nat) (st : State W)
    (w1 w2 w3 w4 w5 w6 : W) (indicator : Result unit) :
  feedScrollTo (world st) = (Return tt, w1) →
  waitForHeightAbove lastHeight w1 = (Return tt, w2) →
  endOfListVisible w2 = (Return false, w3) →
  feedScrollHeight w3 = (Return lastHeight, w4) →
  waitForLoadingIndicator w4 = (indicator, w5) →
  feedScrollHeight w5 = (Return lastHeight, w6) →
  Scraper.scrollLoop (S remaining) lastHeight scrollAttempts st
  = (Return tt, mkState w6 (trace st ++ [LogNoMoreResults]) (restaurantsData st)).
Proof. apply scrollLoop_stability_check. Qed.

(** A feed whose height is read as 150 by the wait for growth and as 100,
    the previous height, by the two measurements that follow. *)
Lemma stability_check_ends_scrolling_witness :
  Scraper.scrollLoop 50 100 0
    (Sim.start (Sim.mkSim [150%Z; 100%Z; 100%Z] 3 false 0 [] [] [] [] None None 0 []))
  = (Return tt,
     mkState (Sim.mkSim [100%Z] 3 false 0 [] [] [] [] None None 0 [])
             ([] ++ [LogNoMoreResults]) []).
Proof.
  refine (stability_check_ends_scrolling 49 100 0
            (Sim.start (Sim.mkSim [150%Z; 100%Z; 100%Z] 3 false 0 [] [] [] []
                          None None 0 []))
            (Sim.mkSim [150%Z; 100%Z; 100%Z] 3 false 0 [] [] [] [] None None 0 [])
            (Sim.mkSim [100%Z; 100%Z] 3 false 0 [] [] [] [] None None 0 [])
            (Sim.mkSim [100%Z; 100%Z] 3 false 0 [] [] [] [] None None 0 [])
            (Sim.mkSim [100%Z] 3 false 0 [] [] [] [] None None 0 [])
            (Sim.mkSim [100%Z] 3 false 0 [] [] [] [] None None 0 [])
            (Sim.mkSim [100%Z] 3 false 0 [] [] [] [] None None 0 [])
            (Return tt) _ _ _ _ _ _);
    reflexivity.
Defined.

(** * Further properties *)

(** ** The scrolling loop and the item loop on every page *)

Section HarvestLoops.
Context {W : Type} `{Page W}.
Import Scraper Harvest.

Implicit Types (st : State W) (w : W).

(** Take the next interaction with the page in both of its outcomes. *)
Ltac trace_grows :=
  cbn [trace]; repeat apply prefix_app_r; reflexivity.

Ltac js_either :=
  match goal with
  | |- context [page ?p ?s] =>
      let w := eval cbn [world] in (world s) in
      let Hcall := fresh "Hcall" in
      destruct (p w) as [[?|?] ?] eqn:Hcall; js_page Hcall
  end.

(** What a run of the scrolling loop adds to the trace: nothing but progress
    lines before its last line; one of the three closing lines last when it
    returns; no closing line at all when it raises. *)
Lemma scroll_outcome_cons (r : Result unit) (line : Event) (added : list Event) :
  isScrollEnd line = false →
  Forall (fun ev => isScrollEnd ev = false) (removelast added) →
  (r = Return tt → ∃ final, last added = Some final ∧ isScrollEnd final = true) →
  (∀ e, r = Throw e → Forall (fun ev => isScrollEnd ev = false) added) →
  Forall (fun ev => isScrollEnd ev = false) (removelast (line :: added))
  ∧ (r = Return tt →
     ∃ final, last (line :: added) = Some final ∧ isScrollEnd final = true)
  ∧ (∀ e, r = Throw e →
     Forall (fun ev => isScrollEnd ev = false) (line :: added)).
Proof.
  intros Hline Hpre Hret Hthrow. split_and!.
  - destruct added as [|ev added]; [constructor|].
    cbn [removelast]. by constructor.
  - intros Hr. destruct (Hret Hr) as (final & Hlast & Hend).
    exists final. split; [|done].
    destruct added; [discriminate | exact Hlast].
  - intros e Hr. constructor; [done | by eapply Hthrow].
Qed.

Lemma scrollLoop_outcome n : ∀ lastHeight scrollAttempts st,
  ∃ (r : Result unit) (w' : W) (added : list Event),
    scrollLoop n lastHeight scrollAttempts st
    = (r, mkState w' (trace st ++ added) (restaurantsData st))
    ∧ Forall (fun ev => isScrollEnd ev = false) (removelast added)
    ∧ (r = Return tt →
       ∃ final, last added = Some final ∧ isScrollEnd final = true)
    ∧ (∀ e, r = Throw e → Forall (fun ev => isScrollEnd ev = false) added).
Proof.
  induction n as [|n IH]; intros lastHeight scrollAttempts st; cbn [scrollLoop].
  - exists (Return tt), (world st), [LogMaxAttempts]. rewrite emit_run.
    split_and!; [done | constructor | by eexists | discriminate].
  - (* the end of an iteration that goes on *)
    assert (Htail : ∀ newHeight (s : State W),
      ∃ (r : Result unit) (w' : W) (added : list Event),
        ((if (S scrollAttempts mod 5 =? 0)%nat
          then emit (LogScrolled (S scrollAttempts)) else mret tt);;
         scrollLoop n newHeight (S scrollAttempts)) s
        = (r, mkState w' (trace s ++ added) (restaurantsData s))
        ∧ Forall (fun ev => isScrollEnd ev = false) (removelast added)
        ∧ (r = Return tt →
           ∃ final, last added = Some final ∧ isScrollEnd final = true)
        ∧ (∀ e, r = Throw e → Forall (fun ev => isScrollEnd ev = false) added)).
    { intros newHeight s. rewrite bind_run.
      destruct (S scrollAttempts mod 5 =? 0)%nat.
      - rewrite emit_run. cbv beta iota.
        destruct (IH newHeight (S scrollAttempts)
                    (mkState (world s) (trace s ++ [LogScrolled (S scrollAttempts)])
                             (restaurantsData s)))
          as (r & w' & added & Hrun & Hpre & Hret & Hthrow).
        rewrite Hrun. cbn [world trace restaurantsData].
        exists r, w', (LogScrolled (S scrollAttempts) :: added).
        split; [by rewrite <-app_assoc|].
        by apply scroll_outcome_cons.
      - rewrite mret_run. cbv beta iota.
        destruct (IH newHeight (S scrollAttempts) s)
          as (r & w' & added & Hrun & Hpre & Hret & Hthrow).
        exists r, w', added. by rewrite Hrun. }
    js_run.
    js_either; [|eexists _, _, []; rewrite app_nil_r;
                 split_and!; [done | constructor | discriminate | constructor]].
    js_either; [|eexists _, _, []; rewrite app_nil_r;
                 split_and!; [done | constructor | discriminate | constructor]].
    js_either; [|eexists _, _, []; rewrite app_nil_r;
                 split_and!; [done | constructor | discriminate | constructor]].
    match goal with b : bool |- _ => destruct b end; js_run.
    { eexists _, _, [LogEndOfList].
      split_and!; [done | constructor | by eexists | discriminate]. }
    js_either; [|eexists _, _, []; rewrite app_nil_r;
                 split_and!; [done | constructor | discriminate | constructor]].
    match goal with
    | |- context [(?a =? ?b)%Z] => destruct (Z.eqb_spec a b) as [Heq|Hne]
    end.
    + cbv beta iota. unfold stabilityCheck. rewrite bind_run, tryCatch_run.
      match goal with
      | |- context [page waitForLoadingIndicator ?s] =>
          let w := eval cbn [world] in (world s) in
          destruct (waitForLoadingIndicator w) as [[[]|?] ?] eqn:Hind;
            erewrite page_run by exact Hind; cbv beta iota; rewrite ?mret_run;
            cbv beta iota
      end.
      all: rewrite bind_run.
      all: js_either;
        [|eexists _, _, []; rewrite app_nil_r;
          split_and!; [done | constructor | discriminate | constructor]].
      all: match goal with
           | |- context [(?a =? ?b)%Z] => destruct (Z.eqb_spec a b) as [Hfin|Hfin]
           end.
      all: first
        [ js_run; eexists _, _, [LogNoMoreResults];
          split_and!; [reflexivity | cbn; constructor | by eexists | discriminate]
        | rewrite mret_run; cbv beta iota;
          edestruct Htail as (r & w' & added & Hrun & Hrest);
          exists r, w', added; split; [exact Hrun | exact Hrest] ].
    + cbv beta iota. rewrite mret_run. cbv beta iota.
      edestruct Htail as (r & w' & added & Hrun & Hrest).
      exists r, w', added. split; [exact Hrun | exact Hrest].
Qed.

Lemma scrollToEnd_outcome st :
  ∃ (w' : W) (added : list Event) (final : Event),
    scrollToEnd st
    = (Return tt,
       mkState w' (trace st ++ added ++ [final]) (restaurantsData st))
    ∧ isScrollEnd final = true
    ∧ Forall (fun ev => isScrollEnd ev = false) added.
Proof.
  unfold scrollToEnd. rewrite tryCatch_run. js_run.
  js_either; [|eexists _, [], _; split_and!; [reflexivity | done | constructor]].
  js_either; [|eexists _, [], _; split_and!; [reflexivity | done | constructor]].
  js_either;
    [|eexists _, [LogScrolling], _; cbn [world trace restaurantsData];
      split_and!; [by rewrite <-app_assoc | done | by repeat constructor]].
  match goal with
  | |- context [scrollLoop ?n ?h ?k ?s] =>
      destruct (scrollLoop_outcome n h k s)
        as (r & w' & added & Hrun & Hpre & Hret & Hthrow); rewrite Hrun
  end.
  cbn [world trace restaurantsData].
  destruct r as [[]|e].
  - destruct (Hret eq_refl) as (final & Hlast & Hend).
    apply last_Some in Hlast as [front ->].
    rewrite removelast_last in Hpre.
    exists w', (LogScrolling :: front), final.
    split_and!; [by rewrite <-!app_assoc | done | by constructor].
  - rewrite emit_run. cbn [world trace restaurantsData].
    exists w', (LogScrolling :: added), (ErrScrolling e).
    split_and!; [by rewrite <-!app_assoc | done |].
    constructor; [done | by eapply Hthrow].
Qed.

(** [n] iterations that all go on use up [n] attempts and print the progress
    lines; with none left the loop prints its last line. *)
Lemma scrollLoop_exhausted n : ∀ lastHeight scrollAttempts st h' w',
  afterGrowth n lastHeight (world st) = Some (h', w') →
  scrollLoop n lastHeight scrollAttempts st
  = (Return tt,
     mkState w' (trace st ++ progressLines scrollAttempts n ++ [LogMaxAttempts])
             (restaurantsData st)).
Proof.
  induction n as [|n IH]; intros lastHeight scrollAttempts st h' w' Hgrow;
    cbn [afterGrowth] in Hgrow; cbn [scrollLoop progressLines].
  - injection Hgrow as _ <-. by rewrite emit_run.
  - destruct (feedScrollTo (world st)) as [[[]|?] w1] eqn:Hscroll; [|discriminate].
    destruct (waitForHeightAbove lastHeight w1) as [[[]|?] w2] eqn:Hwait;
      [|discriminate].
    destruct (endOfListVisible w2) as [[[]|?] w3] eqn:Hend; try discriminate.
    destruct (feedScrollHeight w3) as [[newHeight|?] w4] eqn:Hnew; [|discriminate].
    destruct (Z.eqb_spec newHeight lastHeight) as [Heq|Hne]; [discriminate|].
    js_run. js_page Hscroll. js_page Hwait. js_page Hend. js_page Hnew.
    rewrite (proj2 (Z.eqb_neq _ _) Hne). js_run.
    cbn [world trace restaurantsData].
    destruct (S scrollAttempts mod 5 =? 0)%nat; js_run;
      (erewrite IH by exact Hgrow);
      cbn [world trace restaurantsData]; by rewrite <-?app_assoc.
Qed.

(** An iteration of the item loop returns on every page, and appends at most
    one record, which has the five keys. *)
Lemma processItem_appends total i st :
  ∃ (new : list JsObject) (st' : State W),
    processItem total i st = (Return tt, st')
    ∧ restaurantsData st' = restaurantsData st ++ new
    ∧ (length new ≤ 1)%nat
    ∧ Forall hasRecordKeys new
    ∧ trace st `prefix_of` trace st'.
Proof.
  unfold processItem. js_run.
  rewrite placeId_run. cbv beta iota. rewrite tryCatch_run.
  unfold processItemSteps. js_run.
  match goal with
  | |- context [executeWithRetry ?f ?n ?a ?s] =>
      destruct (executeWithRetry_returns f n a s) as (b1 & w1 & ev1 & ->)
  end.
  cbv beta iota. destruct b1; cbn [negb]; js_run;
    [|rewrite undeclared_run; js_run; exists []; eexists;
      split_and!; [reflexivity | by rewrite app_nil_r | cbn; lia | constructor
                  | trace_grows]].
  match goal with
  | |- context [executeWithRetry ?f ?n ?a ?s] =>
      destruct (executeWithRetry_returns f n a s) as (b2 & w2 & ev2 & ->)
  end.
  cbv beta iota. destruct b2; cbn [negb]; js_run;
    [|rewrite undeclared_run; js_run; exists []; eexists;
      split_and!; [reflexivity | by rewrite app_nil_r | cbn; lia | constructor
                  | trace_grows]].
  rewrite extractRestaurantInfo_run. cbv beta iota.
  cbn [world trace restaurantsData].
  destruct (extraction w2) as [[[info|] ev3] w3]; cbn [fst snd]; js_run;
    cbn [world trace restaurantsData];
    match goal with
    | |- context [executeWithRetry ?f ?n ?a ?s] =>
        destruct (executeWithRetry_returns f n a s) as (b3 & w4 & ev4 & ->)
    end;
    cbv beta iota; destruct b3; cbn [negb]; js_run;
    try (rewrite undeclared_run; js_run).
  1-2: eexists [_]; eexists;
    split_and!; [reflexivity | reflexivity | cbn; lia | by repeat constructor
                | trace_grows].
  all: exists []; eexists;
    split_and!; [reflexivity | by rewrite app_nil_r | cbn; lia | constructor
                | trace_grows].
Qed.

Lemma forEach_processItem_appends total (items : list nat) : ∀ st,
  ∃ (new : list JsObject) (st' : State W),
    forEach (processItem total) items st = (Return tt, st')
    ∧ restaurantsData st' = restaurantsData st ++ new
    ∧ (length new ≤ length items)%nat
    ∧ Forall hasRecordKeys new
    ∧ trace st `prefix_of` trace st'.
Proof.
  induction items as [|i items IH]; intros st; cbn [forEach].
  - exists [], st. rewrite mret_run, app_nil_r. split_and!; [done..|constructor|done].
  - js_run.
    destruct (processItem_appends total i st)
      as (new1 & st1 & -> & Hdata1 & Hlen1 & Hkeys1 & Htrace1).
    destruct (IH st1) as (new2 & st' & Hrun & Hdata2 & Hlen2 & Hkeys2 & Htrace2).
    exists (new1 ++ new2), st'. split_and!.
    + exact Hrun.
    + by rewrite Hdata2, Hdata1, <-app_assoc.
    + rewrite length_app. cbn [length]. lia.
    + by apply Forall_app_2.
    + by etrans.
Qed.

End HarvestLoops.

(** ** More on deduplication *)

Section DedupMore.
Context `{StringMethods}.
Import MergeReducer.

Implicit Types (seen : gset string) (l a b : list JsObject).

(** Equalities of sets of keys built with union and singletons. *)
Ltac key_sets :=
  apply set_eq; intros ?k;
  rewrite ?elem_of_union, ?elem_of_singleton;
  intuition (subst; auto).

Lemma filterUnseen_covers l : ∀ seen (r : JsObject),
  r ∈ l → dedupKey r ∈ seen ∨ dedupKey r ∈ dedupKey <$> filterUnseen seen l.
Proof.
  induction l as [|x l IH]; intros seen r Hr; [by apply elem_of_nil in Hr|].
  apply elem_of_cons in Hr as [->|Hr]; cbn [filterUnseen].
  - destruct (decide _) as [Hin|Hnin]; [by left|].
    right. cbn [fmap list_fmap]. apply list_elem_of_here.
  - destruct (decide (dedupKey x ∈ seen)) as [Hin|Hnin]; [by apply IH|].
    destruct (IH ({[dedupKey x]} ∪ seen) r Hr) as [Hs|Hk].
    + apply elem_of_union in Hs as [Hx%elem_of_singleton|Hs]; [|by left].
      right. rewrite Hx. cbn [fmap list_fmap]. apply list_elem_of_here.
    + right. cbn [fmap list_fmap]. by apply list_elem_of_further.
Qed.

Lemma filterUnseen_app a : ∀ seen b,
  filterUnseen seen (a ++ b)
  = filterUnseen seen a ++ filterUnseen (list_to_set (dedupKey <$> a) ∪ seen) b.
Proof.
  induction a as [|x a IH]; intros seen b; cbn [app filterUnseen fmap list_fmap].
  - f_equal. cbn. by rewrite (left_id_L ∅ (∪)).
  - destruct (decide (dedupKey x ∈ seen)) as [Hin|Hnin].
    + rewrite IH. f_equal. f_equal. cbn [list_to_set]. key_sets.
    + cbn [app]. f_equal. rewrite IH. f_equal. f_equal.
      cbn [list_to_set]. key_sets.
Qed.

Lemma filterUnseen_keys l : ∀ seen,
  (list_to_set (dedupKey <$> filterUnseen seen l) : gset string) ∪ seen
  = list_to_set (dedupKey <$> l) ∪ seen.
Proof.
  induction l as [|x l IH]; intros seen; cbn [filterUnseen fmap list_fmap];
    [done|].
  destruct (decide (dedupKey x ∈ seen)) as [Hin|Hnin].
  - rewrite IH. cbn [list_to_set]. key_sets.
  - cbn [fmap list_fmap list_to_set].
    specialize (IH ({[dedupKey x]} ∪ seen)).
    apply set_eq. intros k. apply (proj1 (set_eq _ _)) with (x := k) in IH.
    revert IH. rewrite !elem_of_union, !elem_of_singleton. tauto.
Qed.

Lemma filterUnseen_distinct l : ∀ seen,
  filterUnseen seen l = l →
  NoDup (dedupKey <$> l).
Proof.
  intros seen Hid. rewrite <-Hid. apply filterUnseen_NoDup.
Qed.

End DedupMore.

(** ** The temporary files of the queries *)


(** ** Reading a CSV file back *)

Section CsvFacts.
Import Csv.

Implicit Types (c : ascii) (s piece : string) (parts : list string)
         (obj : JsObject).

Lemma contains_app c (a b : string) :
  contains c (a +:+ b) = contains c a || contains c b.
Proof.
  induction a as [|x a IH]; simpl; [reflexivity|].
  rewrite IH. by rewrite orb_assoc.
Qed.

Lemma contains_concat c (sep : string) parts :
  contains c sep = false →
  Forall (fun p => contains c p = false) parts →
  contains c (String.concat sep parts) = false.
Proof.
  intros Hsep. induction 1 as [|p parts Hp _ IH]; [reflexivity|].
  destruct parts as [|q parts]; [exact Hp|].
  change (String.concat sep (p :: q :: parts))
    with (p +:+ sep +:+ String.concat sep (q :: parts)).
  by rewrite !contains_app, Hp, Hsep, IH.
Qed.

Lemma splitOn_not_nil c s : splitOn c s ≠ [].
Proof.
  destruct s as [|x s]; cbn; [discriminate|].
  destruct (Ascii.eqb x c); [discriminate|].
  destruct (splitOn c s); discriminate.
Qed.

(** No piece holds the separator, and a piece holds only characters of the
    string that was split. *)
Lemma splitOn_pieces c s :
  Forall (fun piece => contains c piece = false) (splitOn c s).
Proof.
  induction s as [|x s IH]; cbn; [by repeat constructor|].
  destruct (Ascii.eqb x c) eqn:Hx; [by constructor|].
  destruct (splitOn c s) as [|piece pieces]; [by repeat (constructor; cbn; rewrite ?Hx)|].
  apply Forall_cons in IH as [Hpiece Hpieces].
  constructor; [|done]. cbn. by rewrite Hx, Hpiece.
Qed.

Lemma splitOn_within c c' s :
  contains c' s = false →
  Forall (fun piece => contains c' piece = false) (splitOn c s).
Proof.
  induction s as [|x s IH]; cbn; [by repeat constructor|].
  intros [Hx Hs]%orb_false_elim. specialize (IH Hs).
  destruct (Ascii.eqb x c); [by constructor|].
  destruct (splitOn c s) as [|piece pieces]; [by repeat (constructor; cbn; rewrite ?Hx)|].
  apply Forall_cons in IH as [Hpiece Hpieces].
  constructor; [|done]. cbn. by rewrite Hx, Hpiece.
Qed.

Lemma splitOn_whole c s : contains c s = false → splitOn c s = [s].
Proof.
  induction s as [|x s IH]; cbn; [reflexivity|].
  intros [Hx Hs]%orb_false_elim. by rewrite Hx, IH.
Qed.

Lemma splitOn_app c (a b : string) :
  contains c a = false →
  splitOn c (a +:+ String c b) = a :: splitOn c b.
Proof.
  induction a as [|x a IH]; simpl.
  - intros _. by rewrite Ascii.eqb_refl.
  - intros [Hx Ha]%orb_false_elim. by rewrite Hx, IH.
Qed.

(** Splitting undoes joining when no part holds the separator. *)
Lemma splitOn_concat c parts :
  parts ≠ [] →
  Forall (fun p => contains c p = false) parts →
  splitOn c (String.concat (String c EmptyString) parts) = parts.
Proof.
  intros Hne Hparts. induction Hparts as [|p parts Hp _ IH]; [done|].
  destruct parts as [|q parts]; [by apply splitOn_whole|].
  change (String.concat (String c EmptyString) (p :: q :: parts))
    with (p +:+ String c (String.concat (String c EmptyString) (q :: parts))).
  rewrite splitOn_app by done. f_equal. by apply IH.
Qed.

Lemma hasOwn_elem obj k : hasOwn obj k = true ↔ k ∈ fst <$> obj.
Proof.
  induction obj as [|[k' v'] obj IH]; cbn.
  - split; [discriminate | by intros ?%elem_of_nil].
  - rewrite orb_true_iff, IH, elem_of_cons, String.eqb_eq.
    split; (intros [Hk|Hk]; [left | right]); done.
Qed.

(** On a key that is neither [__proto__] nor an array index nor present,
    the assignment appends. *)
Lemma assign_plain obj k v :
  plainKey k = true → k ∉ fst <$> obj →
  assign obj k v = obj ++ [(k, v)].
Proof.
  unfold plainKey, assign. intros [Hproto Hindex]%andb_true_iff Hnew.
  apply negb_true_iff in Hproto. rewrite Hproto.
  destruct (hasOwn obj k) eqn:Hown; [by apply hasOwn_elem in Hown|].
  by destruct (arrayIndex k).
Qed.

Lemma reduceRow_plain values headers : ∀ index obj,
  Forall (fun h => plainKey h = true) headers →
  NoDup headers →
  (∀ h, h ∈ headers → h ∉ fst <$> obj) →
  reduceRow values index headers obj
  = obj ++ imap (fun j h => (h, valueAt values (index + j))) headers.
Proof.
  induction headers as [|h headers IH]; intros index obj Hplain Hnd Hfresh;
    cbn [reduceRow imap].
  - by rewrite app_nil_r.
  - apply Forall_cons in Hplain as [Hh Hplain].
    apply NoDup_cons in Hnd as [Hnotin Hnd].
    rewrite assign_plain; [|done|apply Hfresh, list_elem_of_here].
    rewrite IH; [|done|done|].
    + rewrite <-app_assoc. cbn [app]. rewrite Nat.add_0_r. do 2 f_equal.
      apply imap_ext. intros j h' _. cbn. do 2 f_equal. lia.
    + intros h' Hh'. rewrite fmap_app, elem_of_app. cbn.
      rewrite list_elem_of_singleton. intros [Hin| ->]; [|done].
      by apply (Hfresh h'); [apply list_elem_of_further|].
Qed.

(** The values of an object after an assignment: the old ones and the new
    one. *)
Lemma setProp_values obj k v (x : JsValue) :
  x ∈ snd <$> setProp obj k v → x ∈ snd <$> obj ∨ x = v.
Proof.
  induction obj as [|[k' v'] obj IH]; cbn.
  - rewrite list_elem_of_singleton. by right.
  - destruct (String.eqb k' k); cbn; rewrite !elem_of_cons; intuition.
Qed.

Lemma insertIndex_values obj k n v (x : JsValue) :
  x ∈ snd <$> insertIndex obj k n v → x ∈ snd <$> obj ∨ x = v.
Proof.
  induction obj as [|[k' v'] obj IH]; cbn.
  - rewrite list_elem_of_singleton. by right.
  - destruct (arrayIndex k') as [n'|]; [destruct (n' <? n)%N|];
      cbn; rewrite !elem_of_cons; intuition.
Qed.

Lemma assign_values obj k v (x : JsValue) :
  x ∈ snd <$> assign obj k v → x ∈ snd <$> obj ∨ x = v.
Proof.
  unfold assign. destruct (String.eqb k "__proto__"); [by left|].
  destruct (hasOwn obj k); [apply setProp_values|].
  destruct (arrayIndex k); [apply insertIndex_values|].
  rewrite fmap_app, elem_of_app. cbn. rewrite list_elem_of_singleton. tauto.
Qed.

Lemma reduceRow_values values headers : ∀ index obj (x : JsValue),
  x ∈ snd <$> reduceRow values index headers obj →
  x ∈ snd <$> obj ∨ x = JsUndefined ∨ ∃ s, x = JsString s ∧ s ∈ values.
Proof.
  induction headers as [|h headers IH]; intros index obj x; cbn [reduceRow];
    [by left|].
  intros [Hx|Hx]%IH; [|by right].
  apply assign_values in Hx as [Hx| ->]; [by left|right].
  unfold valueAt. destruct (values !! index) as [s|] eqn:Hs; [|by left].
  right. exists s. split; [done|]. by eapply list_elem_of_lookup_2.
Qed.

(** The keys of an object after an assignment depend on its keys only. *)
Lemma setProp_keys obj k v :
  hasOwn obj k = true → fst <$> setProp obj k v = fst <$> obj.
Proof.
  induction obj as [|[k' v'] obj IH]; cbn; [discriminate|].
  destruct (String.eqb k' k); cbn; [done|]. intros Hown. by rewrite IH.
Qed.

Lemma insertIndex_keys obj : ∀ obj' k n v v',
  fst <$> obj = fst <$> obj' →
  fst <$> insertIndex obj k n v = fst <$> insertIndex obj' k n v'.
Proof.
  induction obj as [|[k1 v1] obj IH]; intros [|[k2 v2] obj'] k n v v' Hkeys;
    try discriminate; [reflexivity|].
  cbn in Hkeys. injection Hkeys as -> Hkeys. cbn.
  destruct (arrayIndex k2) as [n'|]; [destruct (n' <? n)%N|]; cbn;
    f_equal; try done; try (by apply IH); by f_equal.
Qed.

Lemma hasOwn_keys obj obj' k :
  fst <$> obj = fst <$> obj' → hasOwn obj k = hasOwn obj' k.
Proof.
  revert obj'. induction obj as [|[k1 v1] obj IH]; intros [|[k2 v2] obj'] Hkeys;
    try discriminate; [reflexivity|].
  cbn in Hkeys. injection Hkeys as -> Hkeys. cbn. f_equal. by apply IH.
Qed.

Lemma assign_keys obj obj' k v v' :
  fst <$> obj = fst <$> obj' →
  fst <$> assign obj k v = fst <$> assign obj' k v'.
Proof.
  intros Hkeys. unfold assign. destruct (String.eqb k "__proto__"); [done|].
  rewrite <-(hasOwn_keys obj obj' k Hkeys).
  destruct (hasOwn obj k) eqn:Hown.
  - rewrite !setProp_keys; [done | by rewrite <-(hasOwn_keys obj obj' k Hkeys) | done].
  - destruct (arrayIndex k); [by apply insertIndex_keys|].
    rewrite !fmap_app. by f_equal.
Qed.

Lemma reduceRow_keys headers : ∀ values values' index index' obj obj',
  fst <$> obj = fst <$> obj' →
  fst <$> reduceRow values index headers obj
  = fst <$> reduceRow values' index' headers obj'.
Proof.
  induction headers as [|h headers IH];
    intros values values' index index' obj obj' Hkeys; cbn [reduceRow]; [done|].
  apply IH. by apply assign_keys.
Qed.

(** A record whose values are strings is what pairing its keys with the
    texts of its values gives. *)
Lemma record_rebuilt (r : JsObject) :
  Forall (fun kv => ∃ s, snd kv = JsString s) r →
  ∀ pre : list string,
    imap (fun j h =>
            (h, valueAt (pre ++ ((fun kv => Scraper.joinString (snd kv)) <$> r))
                        (length pre + j)))
         (fst <$> r)
    = r.
Proof.
  induction 1 as [|[k v] r [s Hv] _ IH]; intros pre; [reflexivity|].
  cbn in Hv. subst v. cbn [fmap list_fmap imap fst snd Scraper.joinString].
  f_equal.
  - f_equal. unfold valueAt.
    by rewrite Nat.add_0_r, lookup_app_r, Nat.sub_diag by lia.
  - specialize (IH (pre ++ [s])). rewrite <-app_assoc in IH. cbn [app] in IH.
    etrans; [|exact IH]. apply imap_ext. intros j h _. cbn.
    rewrite length_app. cbn [length]. do 2 f_equal. lia.
Qed.

Lemma fieldRecord_strings (r : JsObject) :
  fieldRecord r →
  Forall (fun kv => ∃ s, snd kv = JsString s) r
  ∧ Forall (fun p => fieldText p = true)
           ((fun kv => Scraper.joinString (snd kv)) <$> r).
Proof.
  induction 1 as [|[k v] r (s & Hv & Hs) _ [IH1 IH2]]; [by split; constructor|].
  cbn in Hv. subst v. split; constructor; eauto.
Qed.

Lemma fieldText_clean (parts : list string) :
  Forall (fun p => fieldText p = true) parts →
  Forall (fun p => contains comma p = false) parts
  ∧ Forall (fun p => contains lineFeed p = false) parts.
Proof.
  unfold fieldText. induction 1 as [|p parts Hp _ [IH1 IH2]]; [by split; constructor|].
  apply andb_true_iff in Hp as [Hc Hl].
  apply negb_true_iff in Hc. apply negb_true_iff in Hl.
  split; by constructor.
Qed.

(** The row of a record of field texts is read back as that record. *)
Lemma row_read_back (keys : list string) (r : JsObject) :
  keys ≠ [] → NoDup keys →
  Forall (fun k => plainKey k = true) keys →
  fst <$> r = keys → fieldRecord r →
  reduceRow
    (splitOn comma
       (String.concat (String comma EmptyString)
          ((fun kv => Scraper.joinString (snd kv)) <$> r)))
    0 keys []
  = r.
Proof.
  intros Hne Hnd Hplain Hkeys Hfields.
  destruct (fieldRecord_strings r Hfields) as [Hstrings Htexts].
  destruct (fieldText_clean _ Htexts) as [Hcomma _].
  rewrite splitOn_concat; [|by destruct r; [subst keys|]|done].
  rewrite reduceRow_plain; [|done|done|by intros h _ ?%elem_of_nil].
  cbn [app]. rewrite <-Hkeys.
  exact (record_rebuilt r Hstrings []).
Qed.

Lemma getProp_imap (values : list string) (headers : list string) :
  NoDup headers →
  ∀ (index j : nat) (h : string),
    headers !! j = Some h →
    getProp (imap (fun i h' => (h', valueAt values (index + i))) headers) h
    = valueAt values (index + j).
Proof.
  induction 1 as [|h0 headers Hnotin Hnd IH]; intros index j h Hj;
    [by rewrite lookup_nil in Hj|].
  cbn [imap getProp]. destruct j as [|j]; cbn in Hj.
  - injection Hj as ->. by rewrite String.eqb_refl.
  - destruct (String.eqb_spec h0 h) as [->|Hne].
    + exfalso. apply Hnotin. by eapply list_elem_of_lookup_2.
    + replace (index + S j) with (S index + j) by lia.
      rewrite <-(IH (S index) j h Hj).
      f_equal. apply imap_ext. intros i h' _. cbn. do 2 f_equal. lia.
Qed.

End CsvFacts.

(** What [saveToCSV] writes is read back by [readCsvFile] as it was, for
    records that share the keys of the first one, in its order, when the
    keys are distinct, ordinary (neither [__proto__] nor an array index) and
    free of commas and line feeds, every value is a string free of commas
    and line feeds, and [trim] leaves the content as it is: the content
    neither begins nor ends with white space. *)
Theorem readCsvFile_reads_back_what_saveToCSV_wrote `{StringMethods}
    (first : JsObject) (rest : list JsObject) :
  let data := first :: rest in
  let keys := fst <$> first in
  first ≠ [] →
  NoDup keys →
  Forall (fun k => Csv.plainKey k = true ∧ Csv.fieldText k = true) keys →
  Forall (fun r => fst <$> r = keys ∧ Csv.fieldRecord r) data →
  trim (Scraper.csvContent first data) = Scraper.csvContent first data →
  Csv.parseCsv (Scraper.csvContent first data) = data.
Proof.
  intros data keys Hfirst Hnd Hkeys Hdata Htrim.
  assert (Hne : keys ≠ []) by (subst keys; by destruct first).
  assert (Hplain : Forall (fun k => Csv.plainKey k = true) keys)
    by (eapply Forall_impl; [exact Hkeys | by intros k [? _]]).
  assert (Htexts : Forall (fun k => Csv.fieldText k = true) keys)
    by (eapply Forall_impl; [exact Hkeys | by intros k [_ ?]]).
  destruct (fieldText_clean _ Htexts) as [Hcomma Hfeed].
  unfold Csv.parseCsv. rewrite Htrim.
  unfold Scraper.csvContent, Scraper.join, Scraper.newline.
  change (String (ascii_of_nat 10) EmptyString) with (String Csv.lineFeed EmptyString).
  change ","%string with (String Csv.comma EmptyString).
  fold keys. rewrite splitOn_concat; [|discriminate|].
  - rewrite splitOn_concat by done.
    rewrite <-list_fmap_compose. clear Htrim.
    induction Hdata as [|r others [Hr Hfields] _ IH]; [reflexivity|].
    cbn [fmap list_fmap compose]. f_equal; [|exact IH].
    by apply row_read_back.
  - constructor.
    + by apply contains_concat.
    + apply Forall_fmap. eapply Forall_impl; [exact Hdata|].
      intros r [_ Hfields]. cbn.
      apply contains_concat; [reflexivity|].
      destruct (fieldRecord_strings r Hfields) as [_ Hr].
      by destruct (fieldText_clean _ Hr).
Qed.

(** Two records of the scraper, written and read back. *)
Lemma readCsvFile_reads_back_what_saveToCSV_wrote_witness :
  let data := [Scraper.withPlaceId Sim.cafe "pid"; Scraper.withPlaceId Sim.diner "p2"] in
  @Csv.parseCsv asciiStrings
    (Scraper.csvContent (Scraper.withPlaceId Sim.cafe "pid") data) = data.
Proof.
  intros data.
  refine (@readCsvFile_reads_back_what_saveToCSV_wrote asciiStrings
            (Scraper.withPlaceId Sim.cafe "pid")
            [Scraper.withPlaceId Sim.diner "p2"] _ _ _ _ _).
  - discriminate.
  - apply (bool_decide_unpack _). vm_compute. reflexivity.
  - repeat constructor.
  - repeat constructor; eexists; (split; [reflexivity | vm_compute; reflexivity]).
  - vm_compute. reflexivity.
Defined.

(** No value that [readCsvFile] yields holds a comma or a line feed.  So a
    record with such a value, which [saveToCSV] writes without quoting or
    escaping, is never read back as it was, from whatever content. *)
Theorem value_with_separator_is_not_read_back `{StringMethods}
    (content : string) (data : list JsObject) (r : JsObject) (s : string) :
  r ∈ data →
  JsString s ∈ snd <$> r →
  Csv.fieldText s = false →
  Csv.parseCsv content ≠ data.
Proof.
  intros Hr Hs Htext Hparsed. subst data.
  unfold Csv.parseCsv in Hr.
  destruct (Csv.splitOn Csv.lineFeed (trim content)) as [|headers rows] eqn:Hlines;
    [by apply elem_of_nil in Hr|].
  apply list_elem_of_fmap in Hr as (row & -> & Hrow).
  apply reduceRow_values in Hs as [Hs|[Hs|(s' & Hs & Hpiece)]];
    [by apply elem_of_nil in Hs | discriminate |].
  injection Hs as <-.
  assert (Hfeed : Csv.contains Csv.lineFeed row = false).
  { pose proof (splitOn_pieces Csv.lineFeed (trim content)) as Hall.
    rewrite Hlines in Hall. apply Forall_cons in Hall as [_ Hall].
    by apply (proj1 (Forall_forall _ _) Hall). }
  pose proof (proj1 (Forall_forall _ _) (splitOn_pieces Csv.comma row) s Hpiece) as Hc.
  pose proof (proj1 (Forall_forall _ _) (splitOn_within Csv.comma Csv.lineFeed row Hfeed)
                s Hpiece) as Hl.
  unfold Csv.fieldText in Htext. cbn beta in Hc, Hl.
  rewrite Hc, Hl in Htext. discriminate.
Qed.

(** An address with a comma: whatever is read, it is not that record. *)
Lemma value_with_separator_is_not_read_back_witness :
  let r := [("name", JsString "Cafe"); ("address", JsString "1 Main St, Keiraville")] in
  r ∈ [r]
  ∧ @Csv.parseCsv asciiStrings (Scraper.csvContent r [r]) ≠ [r].
Proof.
  intros r. split; [apply list_elem_of_here|].
  apply (@value_with_separator_is_not_read_back asciiStrings
           _ [r] r "1 Main St, Keiraville").
  - apply list_elem_of_here.
  - cbn. apply list_elem_of_further, list_elem_of_here.
  - vm_compute. reflexivity.
Defined.

(** All the records read from one content have the same keys in the same
    order, whatever the lengths of the rows. *)
Theorem readCsvFile_records_share_keys `{StringMethods}
    (content : string) (r1 r2 : JsObject) :
  r1 ∈ Csv.parseCsv content →
  r2 ∈ Csv.parseCsv content →
  fst <$> r1 = fst <$> r2.
Proof.
  unfold Csv.parseCsv.
  destruct (Csv.splitOn Csv.lineFeed (trim content)) as [|headers rows];
    [by intros ?%elem_of_nil|].
  intros (row1 & -> & _)%list_elem_of_fmap (row2 & -> & _)%list_elem_of_fmap.
  by apply reduceRow_keys.
Qed.

Lemma readCsvFile_records_share_keys_witness :
  let content :=
    "name,1,phone" +:+ Scraper.newline +:+ "Cafe,x,555" +:+ Scraper.newline +:+ "Diner" in
  let r1 := [("1", JsString "x"); ("name", JsString "Cafe"); ("phone", JsString "555")] in
  let r2 := [("1", JsUndefined); ("name", JsString "Diner"); ("phone", JsUndefined)] in
  @Csv.parseCsv asciiStrings content = [r1; r2] ∧ fst <$> r1 = fst <$> r2.
Proof.
  intros content r1 r2. split; [vm_compute; reflexivity|].
  apply (@readCsvFile_records_share_keys asciiStrings content).
  - vm_compute. apply list_elem_of_here.
  - vm_compute. apply list_elem_of_further, list_elem_of_here.
Defined.

(** Under a header of distinct ordinary keys, the field read under header
    number [j] of a row is value number [j] of that row, and [undefined]
    when the row has no such value; values beyond the header are in no
    field. *)
Theorem readCsvFile_pairs_headers_with_values `{StringMethods}
    (content headerLine : string) (rows : list string)
    (i j : nat) (row h : string) :
  Csv.splitOn Csv.lineFeed (trim content) = headerLine :: rows →
  NoDup (Csv.splitOn Csv.comma headerLine) →
  Forall (fun k => Csv.plainKey k = true) (Csv.splitOn Csv.comma headerLine) →
  rows !! i = Some row →
  Csv.splitOn Csv.comma headerLine !! j = Some h →
  ∃ r : JsObject,
    Csv.parseCsv content !! i = Some r
    ∧ fst <$> r = Csv.splitOn Csv.comma headerLine
    ∧ getProp r h = Csv.valueAt (Csv.splitOn Csv.comma row) j.
Proof.
  intros Hlines Hnd Hplain Hrow Hh.
  unfold Csv.parseCsv. rewrite Hlines.
  eexists. split; [by rewrite list_lookup_fmap, Hrow|].
  rewrite reduceRow_plain; [|done|done|by intros ? _ ?%elem_of_nil].
  cbn [app]. split.
  - rewrite fmap_imap. cbn. clear. 
    generalize (Csv.splitOn Csv.comma headerLine). intros l.
    induction l as [|x l IH]; [reflexivity|]. cbn [imap]. f_equal. exact IH.
  - by apply (getProp_imap _ _ Hnd 0 j h).
Qed.

Lemma readCsvFile_pairs_headers_with_values_witness :
  let content :=
    "name,phone,address" +:+ Scraper.newline +:+ "Cafe,555,1 Main St,extra"
    +:+ Scraper.newline +:+ "Diner" in
  ∃ r : JsObject,
    @Csv.parseCsv asciiStrings content !! 1 = Some r
    ∧ fst <$> r = Csv.splitOn Csv.comma "name,phone,address"
    ∧ getProp r "phone" = Csv.valueAt (Csv.splitOn Csv.comma "Diner") 1.
Proof.
  intros content.
  refine (@readCsvFile_pairs_headers_with_values asciiStrings
            content "name,phone,address"
            ["Cafe,555,1 Main St,extra"; "Diner"] 1 1 "Diner" "phone" _ _ _ _ _).
  - vm_compute. reflexivity.
  - apply (bool_decide_unpack _). vm_compute. reflexivity.
  - repeat constructor.
  - reflexivity.
  - vm_compute. reflexivity.
Defined.

(** ** Scrolling and the records of a run *)

(** [scrollToEnd] returns on every page, without raising and without
    touching [restaurantsData], and what it prints ends with exactly one of
    its four closing lines: none of the lines before is one. *)
Theorem scrollToEnd_ends_with_one_closing_line {W : Type} `{Page W} (st : State W) :
  ∃ (w' : W) (added : list Event) (final : Event),
    Scraper.scrollToEnd st
    = (Return tt, mkState w' (trace st ++ added ++ [final]) (restaurantsData st))
    ∧ Harvest.isScrollEnd final = true
    ∧ Forall (fun ev => Harvest.isScrollEnd ev = false) added.
Proof. apply scrollToEnd_outcome. Qed.

(** When the feed is found and each of 50 iterations in a row sees the feed
    grow and no end-of-list text, [scrollToEnd] stops there: it prints the
    progress line after every fifth iteration (5, 10, ..., 50), then
    'Reached maximum scroll attempts', and scrolls no further. *)
Theorem scrollToEnd_gives_up_after_50_iterations {W : Type} `{Page W}
    (st : State W) (w1 w2 w3 w' : W) (h0 h' : Z) :
  waitForSelectorFeed (world st) = (Return tt, w1) →
  waitForFeedChildren w1 = (Return tt, w2) →
  feedScrollHeight w2 = (Return h0, w3) →
  Harvest.afterGrowth Scraper.maxAttempts h0 w3 = Some (h', w') →
  Scraper.scrollToEnd st
  = (Return tt,
     mkState w'
       (trace st
        ++ [LogScrolling]
        ++ ((fun k => LogScrolled (5 * k)) <$> seq 1 10)
        ++ [LogMaxAttempts])
       (restaurantsData st)).
Proof.
  intros Hfeed Hchildren Hheight Hgrowth.
  unfold Scraper.scrollToEnd. rewrite tryCatch_run. js_run.
  js_page Hfeed. js_page Hchildren. js_page Hheight.
  erewrite scrollLoop_exhausted by exact Hgrowth.
  cbn [trace world restaurantsData]. rewrite <-!app_assoc. reflexivity.
Qed.

(** A feed that grows at every reading. *)
Lemma scrollToEnd_gives_up_after_50_iterations_witness :
  ∃ w' : Sim.Sim,
    Scraper.scrollToEnd
      (Sim.start (Sim.mkSim (Z.of_nat <$> seq 1 200) 3 false 0 [] [] [] [] None None 0 []))
    = (Return tt,
       mkState w'
         ([] ++ [LogScrolling]
          ++ ((fun k => LogScrolled (5 * k)) <$> seq 1 10)
          ++ [LogMaxAttempts])
         []).
Proof.
  eexists.
  refine (scrollToEnd_gives_up_after_50_iterations
            (Sim.start (Sim.mkSim (Z.of_nat <$> seq 1 200) 3 false 0 [] [] [] [] None None 0 []))
            _ _ _ _ _ _ _ _ _ _).
  - reflexivity.
  - reflexivity.
  - vm_compute. reflexivity.
  - vm_compute. reflexivity.
Defined.

(** What [scrapeRestaurants] returns and leaves behind. *)
Lemma scrapeRestaurants_outcome {W : Type} `{Page W} (st : State W) :
  ∃ (data : list JsObject) (added : list Event) (w' : W),
    Scraper.scrapeRestaurants st
    = (Return data, mkState w' (trace st ++ added) data)
    ∧ Forall Harvest.hasRecordKeys data
    ∧ (data = []
       ∨ ∃ total : nat, LogFound total ∈ added ∧ (length data ≤ total)%nat).
Proof.
  unfold Scraper.scrapeRestaurants. rewrite bind_run.
  unfold Scraper.newRestaurantsData at 1. cbv beta iota.
  rewrite bind_run, tryCatch_run. rewrite bind_run.
  destruct (scrollToEnd_outcome (mkState (world st) (trace st) []))
    as (w1 & scrolled & final & -> & _ & _).
  cbn [trace world restaurantsData]. cbv beta iota. js_run.
  destruct (queryFeedLinks w1) as [[total|e] w2] eqn:Hlinks; js_page Hlinks.
  - destruct (forEach_processItem_appends total (seq 0 total)
                (mkState w2 ((trace st ++ scrolled ++ [final]) ++ [LogFound total]) []))
      as (new & [w3 events data] & Hloop & Hdata & Hlength & Hkeys & [more Hmore]).
    cbn [trace world restaurantsData] in *. rewrite Hloop. cbv beta iota.
    unfold Scraper.getRestaurantsData. cbn [trace world restaurantsData].
    subst data events. rewrite length_seq in Hlength.
    exists new, ((scrolled ++ [final]) ++ [LogFound total] ++ more), w3.
    split_and!.
    + by rewrite !app_assoc.
    + exact Hkeys.
    + right. exists total. split; [|exact Hlength].
      apply elem_of_app. right. apply list_elem_of_here.
  - rewrite ?emit_run. cbn [trace world restaurantsData].
    unfold Scraper.getRestaurantsData. cbn [trace world restaurantsData].
    exists [], ((scrolled ++ [final]) ++ [ErrScraping e]), w2.
    split_and!; [by rewrite !app_assoc | constructor | by left].
Qed.

(** Every record that [scrapeRestaurants] returns has the keys name, phone,
    website, address and placeId, in this order, and there are no more
    records than links were found in the feed: when the run got as far as
    counting the links; otherwise the array is empty. *)
Theorem scrapeRestaurants_records {W : Type} `{Page W} (st : State W) :
  ∃ (data : list JsObject) (added : list Event) (w' : W),
    Scraper.scrapeRestaurants st
    = (Return data, mkState w' (trace st ++ added) data)
    ∧ Forall Harvest.hasRecordKeys data
    ∧ (data = []
       ∨ ∃ total : nat, LogFound total ∈ added ∧ (length data ≤ total)%nat).
Proof. apply scrapeRestaurants_outcome. Qed.

(** ** More on the removal of duplicates *)

(** No key is lost: the keys of the records kept are the keys of the input. *)
Theorem getUniqueRestaurants_keeps_every_key `{StringMethods}
    (all : list JsObject) (k : string) :
  k ∈ dedupKey <$> getUniqueRestaurants all ↔ k ∈ dedupKey <$> all.
Proof.
  unfold getUniqueRestaurants.
  pose proof (filterUnseen_keys all ∅) as Hkeys.
  rewrite !(right_id_L ∅ (∪)) in Hkeys.
  by rewrite <-(elem_of_list_to_set (C := gset string)), Hkeys, elem_of_list_to_set.
Qed.

(** Files can be merged one after the other: removing the duplicates of the
    records read so far and then those of the whole gives what one removal
    over everything gives, and what was kept of the earlier records stays in
    front. *)
Theorem getUniqueRestaurants_by_parts `{StringMethods}
    (earlier later : list JsObject) :
  getUniqueRestaurants (getUniqueRestaurants earlier ++ later)
  = getUniqueRestaurants (earlier ++ later)
  ∧ getUniqueRestaurants earlier `prefix_of` getUniqueRestaurants (earlier ++ later).
Proof.
  unfold getUniqueRestaurants. rewrite !filterUnseen_app. split.
  - f_equal.
    + apply filterUnseen_id; [apply filterUnseen_NoDup|].
      intros k _. apply not_elem_of_empty.
    + f_equal. apply filterUnseen_keys.
  - by apply prefix_app_r.
Qed.

(** The list is left as it is exactly when its keys are pairwise different. *)
Theorem getUniqueRestaurants_unchanged_iff_distinct `{StringMethods}
    (all : list JsObject) :
  getUniqueRestaurants all = all ↔ NoDup (dedupKey <$> all).
Proof.
  unfold getUniqueRestaurants. split.
  - apply filterUnseen_distinct.
  - intros Hnd. apply filterUnseen_id; [exact Hnd|].
    intros k _. apply not_elem_of_empty.
Qed.

(** ** The temporary files of a batch *)

(** The number [i * concurrentLimit + index] of a query is its position in
    the list, whatever the limit.  For a positive limit and enough fuel:
    number the queries 0, 1, ... and split these jobs as the queries are
    split; the batches hold every job, in order.  When the [Promise.all] of
    each batch resolves, in the world the one before has left and after the
    pause, the run returns the files 0, 1, ... in the order of the queries,
    no two of them the same, in the world the last batch has left. *)
Theorem scrapeWithConcurrency_numbers_files_by_position {W : Type} `{Page W}
    (queries : list Batch.Query) (concurrentLimit fuel : nat) (st : State W)
    (batches : list (list (string * FilePath))) (w' : W) :
  0 < concurrentLimit →
  length queries < fuel →
  Batch.splitChunks fuel (Jobs.numbered 0 queries) concurrentLimit 0 []
  = Some batches →
  Batch.afterBatches batches (world st) = Some w' →
  concat batches
  = imap (fun k queryObj => (Batch.queryString queryObj, TmpCsv k)) queries
  ∧ NoDup (TmpCsv <$> seq 0 (length queries))
  ∧ ∃ chunks : list (list Batch.Query),
      Batch.splitChunks fuel queries concurrentLimit 0 [] = Some chunks
      ∧ Batch.scrapeWithConcurrency fuel queries concurrentLimit st
        = Some (Return (TmpCsv <$> seq 0 (length queries)),
                mkState w'
                  (trace st
                   ++ Batch.schedule concurrentLimit (length chunks) 0 chunks)
                  (restaurantsData st)).
Proof.
  intros Hlimit Hfuel Hbatches Hall.
  destruct (splitChunks_partition queries concurrentLimit Hlimit fuel 0 [])
    as (chunks & Hsplit & Hconcat & Hsizes & Hfull); [lia|].
  cbn [app] in Hsplit. rewrite drop_0 in Hconcat.
  pose proof (splitChunks_numbered queries concurrentLimit fuel []) as Hnumbered.
  cbn [length imap Nat.mul] in Hnumbered.
  rewrite Hbatches, Hsplit in Hnumbered. injection Hnumbered as ->.
  split_and!.
  - transitivity (Jobs.jobsFrom concurrentLimit 0 chunks);
      [exact (concat_chunkJobs concurrentLimit chunks 0)|].
    rewrite (jobsFrom_numbered concurrentLimit chunks 0 Hfull), Hconcat.
    reflexivity.
  - apply NoDup_fmap_2; [by intros ?? [=]|apply NoDup_seq].
  - exists chunks. split; [exact Hsplit|].
    unfold Batch.scrapeWithConcurrency. rewrite Hsplit.
    rewrite (processChunks_resolves concurrentLimit (length chunks) chunks
               0 [] st w' eq_refl Hall).
    cbn [app].
    by rewrite (jobsFrom_numbered concurrentLimit chunks 0 Hfull), Hconcat,
      numbered_files.
Qed.

(** Five queries, three at a time. *)
Lemma scrapeWithConcurrency_numbers_files_by_position_witness :
  let queries := Batch.mkQuery <$> ["Bulli"; "Dapto"; "Otford"; "Windang"; "Woonona"] in
  ∃ chunks : list (list Batch.Query),
    Batch.splitChunks 6 queries 3 0 [] = Some chunks
    ∧ Batch.scrapeWithConcurrency 6 queries 3 (Sim.start (Sim.twoLinks [] [] []))
      = Some (Return [TmpCsv 0; TmpCsv 1; TmpCsv 2; TmpCsv 3; TmpCsv 4],
              mkState (elapse 5000 (Sim.twoLinks [] [] []))
                ([] ++ Batch.schedule 3 (length chunks) 0 chunks)
                []).
Proof.
  intros queries.
  assert (∃ batches,
            Batch.splitChunks 6 (Jobs.numbered 0 queries) 3 0 [] = Some batches
            ∧ Batch.afterBatches batches (Sim.twoLinks [] [] [])
              = Some (elapse 5000 (Sim.twoLinks [] [] [])))
    as (batches & Hbatches & Hall).
  { vm_compute. eexists. split; reflexivity. }
  refine (proj2 (proj2
            (scrapeWithConcurrency_numbers_files_by_position queries 3 6
               (Sim.start (Sim.twoLinks [] [] [])) batches
               (elapse 5000 (Sim.twoLinks [] [] [])) _ _ Hbatches Hall))).
  - lia.
  - cbn. lia.
Defined.

(** ** A session: [scrapeQuery] of scraper.mjs and [main] of index.mjs *)

Section SessionRuns.
Context {W : Type} `{Page W} `{Session.Browser W}.
Import Session.

Implicit Types (s : SessionState W).

Lemma browser_run {A} (p : Js W A) s (r : Result A) (w' : W) :
  p (sworld s) = (r, w') →
  browser p s = (r, mkSession w' (strace s)).
Proof. intros Hp. unfold browser. by rewrite Hp. Qed.

Lemma say_run ev s :
  say ev s = (Return tt, mkSession (sworld s) (strace s ++ [ev])).
Proof. reflexivity. Qed.

Lemma scraper_run {A} (m : Js (State W) A) s (r : Result A) (st' : State W) :
  m (mkState (sworld s) [] []) = (r, st') →
  scraper m s = (r, mkSession (world st') (strace s ++ (FromScraper <$> trace st'))).
Proof. intros Hm. unfold scraper. by rewrite Hm. Qed.

Lemma finally_run {A} (m : Js (SessionState W) A) final s :
  finally m final s
  = match m s with
    | (r, s') =>
        match final s' with
        | (Return _, s'') => (r, s'')
        | (Throw e, s'') => (Throw e, s'')
        end
    end.
Proof. unfold finally. by destruct (m s). Qed.

Lemma closeAndReport_run s :
  closeAndReport s
  = match browserClose (sworld s) with
    | (Return _, w') =>
        (Return tt, mkSession w' (strace s ++ [ClosingBrowser; LogCompleted]))
    | (Throw e, w') => (Throw e, mkSession w' (strace s ++ [ClosingBrowser]))
    end.
Proof.
  unfold closeAndReport. rewrite bind_run, say_run. cbv beta iota.
  rewrite bind_run. unfold browser at 1. cbn [sworld strace].
  destruct (browserClose (sworld s)) as [[[]|e] w']; [|reflexivity].
  rewrite say_run. cbn [sworld strace]. by rewrite <-app_assoc.
Qed.


End SessionRuns.

(** Run a session up to its next interaction. *)
Ltac session_run :=
  repeat (first [ rewrite bind_run | rewrite say_run | rewrite mret_run ];
          cbv beta iota).

Section SessionFacts.
Context {W : Type} `{Page W} `{Session.Browser W}.
Import Session.

Implicit Types (s : SessionState W).


End SessionFacts.



(** A browser that was launched but whose tab does not open is left running:
    [initBrowser] stands before the [try], so its rejection is that of
    [scrapeQuery], and neither the [catch] nor the [finally] with its
    [browser.close()] runs. *)
Theorem browser_is_left_open_when_the_tab_fails {W : Type} `{Page W} `{Session.Browser W}
    (searchQuery : string) (outputFile : FilePath)
    (s : Session.SessionState W) (w1 w2 : W) (e : JsError) :
  Session.puppeteerLaunch (Session.sworld s) = (Return tt, w1) →
  Session.browserNewPage w1 = (Throw e, w2) →
  Session.scrapeQuery searchQuery outputFile s
  = (Throw e, Session.mkSession w2 (Session.strace s)).
Proof.
  intros Hlaunch Htab.
  assert (Hinit : Session.initBrowser (Session.sworld s) = (Throw e, w2)).
  { unfold Session.initBrowser. rewrite bind_run, Hlaunch. cbv beta iota.
    by rewrite bind_run, Htab. }
  unfold Session.scrapeQuery, Session.scrapeQueryAttempt. rewrite bind_run.
  by erewrite browser_run by exact Hinit.
Qed.

Lemma browser_is_left_open_when_the_tab_fails_witness :
  @Session.scrapeQuery Sim.Sim Sim.Sim_page (Session.Sim_browser_with false true)
    "restaurant near Bulli" (TmpCsv 0)
    (Session.mkSession (Sim.twoLinks [] [] []) [])
  = (Throw (OtherError "Target closed"),
     Session.mkSession (Sim.twoLinks [] [] []) []).
Proof.
  refine (@browser_is_left_open_when_the_tab_fails
            Sim.Sim Sim.Sim_page (Session.Sim_browser_with false true)
            "restaurant near Bulli" (TmpCsv 0)
            (Session.mkSession (Sim.twoLinks [] [] []) [])
            (Sim.twoLinks [] [] []) (Sim.twoLinks [] [] [])
            (OtherError "Target closed") _ _); reflexivity.
Defined.

(** When the search fails, for instance because the list of results never
    shows, [scrapeQuery] prints the error, closes the browser and returns
    the empty array: nothing is scraped and no file is written. *)
Theorem scrapeQuery_returns_empty_when_the_search_fails
    {W : Type} `{Page W} `{Session.Browser W}
    (searchQuery : string) (outputFile : FilePath)
    (s : Session.SessionState W) (w0 w1 w2 : W) (e : JsError) :
  Session.initBrowser (Session.sworld s) = (Return tt, w0) →
  Session.searchGoogleMaps searchQuery w0 = (Throw e, w1) →
  Session.browserClose w1 = (Return tt, w2) →
  Session.scrapeQuery searchQuery outputFile s
  = (Return [],
     Session.mkSession w2
       (Session.strace s
        ++ [Session.ErrSession e; Session.ClosingBrowser; Session.LogCompleted])).
Proof.
  intros Hinit Hsearch Hclose. unfold Session.scrapeQuery, Session.scrapeQueryAttempt. rewrite bind_run.
  erewrite browser_run by exact Hinit. cbv beta iota.
  rewrite finally_run, tryCatch_run, bind_run.
  erewrite browser_run by exact Hsearch. cbv beta iota.
  session_run. rewrite closeAndReport_run. cbn [Session.sworld Session.strace].
  rewrite Hclose. by rewrite <-app_assoc.
Qed.

Lemma scrapeQuery_returns_empty_when_the_search_fails_witness :
  @Session.scrapeQuery Sim.Sim Sim.Sim_page (Session.Sim_browser_with true false)
    "restaurant near Nowhere" (TmpCsv 0)
    (Session.mkSession (Sim.twoLinks [] [] []) [])
  = (Return [],
     Session.mkSession (Sim.twoLinks [] [] [])
       ([] ++ [Session.ErrSession TimeoutError; Session.ClosingBrowser;
               Session.LogCompleted])).
Proof.
  refine (@scrapeQuery_returns_empty_when_the_search_fails
            Sim.Sim Sim.Sim_page (Session.Sim_browser_with true false)
            "restaurant near Nowhere" (TmpCsv 0)
            (Session.mkSession (Sim.twoLinks [] [] []) [])
            (Sim.twoLinks [] [] []) (Sim.twoLinks [] [] []) (Sim.twoLinks [] [] [])
            TimeoutError _ _ _); reflexivity.
Defined.

(** When the file cannot be written, the records that were scraped are
    lost to the caller as well: the rejection of [fs.writeFile] ends in the
    [catch] of [scrapeQuery], which returns the empty array. *)
Theorem scrapeQuery_drops_the_records_when_the_write_fails
    {W : Type} `{Page W} `{Session.Browser W}
    (searchQuery : string) (outputFile : FilePath)
    (s : Session.SessionState W) (w0 w1 w3 w4 : W) (st2 : State W)
    (first : JsObject) (rest : list JsObject) (e : JsError) :
  Session.initBrowser (Session.sworld s) = (Return tt, w0) →
  Session.searchGoogleMaps searchQuery w0 = (Return tt, w1) →
  Scraper.scrapeRestaurants (mkState w1 [] []) = (Return (first :: rest), st2) →
  fsWriteFile outputFile (Scraper.csvContent first (first :: rest)) (world st2)
  = (Throw e, w3) →
  Session.browserClose w3 = (Return tt, w4) →
  Session.scrapeQuery searchQuery outputFile s
  = (Return [],
     Session.mkSession w4
       (Session.strace s
        ++ (Session.FromScraper <$> trace st2)
        ++ [Session.FromScraper
              (WriteFile outputFile (Scraper.csvContent first (first :: rest)));
            Session.ErrSession e; Session.ClosingBrowser; Session.LogCompleted])).
Proof.
  intros Hinit Hsearch Hscrape Hwrite Hclose.
  unfold Session.scrapeQuery, Session.scrapeQueryAttempt. rewrite bind_run.
  erewrite browser_run by exact Hinit. cbv beta iota.
  rewrite finally_run, tryCatch_run, bind_run.
  erewrite browser_run by exact Hsearch. cbv beta iota.
  rewrite bind_run. erewrite scraper_run by exact Hscrape. cbv beta iota.
  rewrite bind_run. erewrite scraper_run; cycle 1.
  { unfold Scraper.saveToCSV. js_run. js_page Hwrite. reflexivity. }
  cbv beta iota. session_run. rewrite closeAndReport_run.
  cbn [Session.sworld Session.strace world trace app fmap list_fmap].
  rewrite Hclose. by rewrite <-!app_assoc.
Qed.

(** The two links of the scripted feed on a disk that takes no file. *)
Lemma scrapeQuery_drops_the_records_when_the_write_fails_witness :
  ∃ (w : Sim.Sim) (events : list Session.SessionEvent),
    @Session.scrapeQuery Sim.Sim (Session.readOnlyDisk Sim.Sim_page) Session.Sim_browser
      "restaurant near Bulli" (TmpCsv 0)
      (Session.mkSession (Sim.twoLinks [] [] []) [])
    = (Return [], Session.mkSession w events)
    ∧ Session.FromScraper (LogScraped "Cafe" "pid") ∈ events.
Proof.
  assert (∃ first rest st2,
            @Scraper.scrapeRestaurants Sim.Sim (Session.readOnlyDisk Sim.Sim_page)
              (mkState (Sim.twoLinks [] [] []) [] [])
            = (Return (first :: rest), st2)
            ∧ LogScraped "Cafe" "pid" ∈ trace st2)
    as (first & rest & st2 & Hscrape & Hline).
  { vm_compute. eexists _, _, _. split; [reflexivity|].
    repeat first [apply list_elem_of_here | apply list_elem_of_further]. }
  eexists _, _. split.
  - exact (@scrapeQuery_drops_the_records_when_the_write_fails
             Sim.Sim (Session.readOnlyDisk Sim.Sim_page) Session.Sim_browser
             "restaurant near Bulli" (TmpCsv 0)
             (Session.mkSession (Sim.twoLinks [] [] []) [])
             (Sim.twoLinks [] [] []) (Sim.twoLinks [] [] []) (world st2) (world st2)
             st2 first rest (OtherError "EROFS: read-only file system")
             eq_refl eq_refl Hscrape eq_refl eq_refl).
  - cbn [app Session.strace]. apply elem_of_app. left.
    apply list_elem_of_fmap. exists (LogScraped "Cafe" "pid").
    split; [reflexivity | exact Hline].
Defined.

(** When everything resolves and records were scraped, [scrapeQuery] returns
    the array that [scrapeRestaurants] returned, after writing to the output
    file the keys of its first record and one row for each record, the first
    included, and printing that the data were saved. *)
Theorem scrapeQuery_returns_the_records_it_saved
    {W : Type} `{Page W} `{Session.Browser W}
    (searchQuery : string) (outputFile : FilePath)
    (s : Session.SessionState W) (w0 w1 w3 w4 : W) (st2 : State W)
    (first : JsObject) (rest : list JsObject) :
  Session.initBrowser (Session.sworld s) = (Return tt, w0) →
  Session.searchGoogleMaps searchQuery w0 = (Return tt, w1) →
  Scraper.scrapeRestaurants (mkState w1 [] []) = (Return (first :: rest), st2) →
  fsWriteFile outputFile (Scraper.csvContent first (first :: rest)) (world st2)
  = (Return tt, w3) →
  Session.browserClose w3 = (Return tt, w4) →
  Session.scrapeQuery searchQuery outputFile s
  = (Return (first :: rest),
     Session.mkSession w4
       (Session.strace s
        ++ (Session.FromScraper <$> trace st2)
        ++ [Session.FromScraper
              (WriteFile outputFile (Scraper.csvContent first (first :: rest)));
            Session.FromScraper (LogSaved outputFile);
            Session.ClosingBrowser; Session.LogCompleted])).
Proof.
  intros Hinit Hsearch Hscrape Hwrite Hclose.
  unfold Session.scrapeQuery, Session.scrapeQueryAttempt. rewrite bind_run.
  erewrite browser_run by exact Hinit. cbv beta iota.
  rewrite finally_run, tryCatch_run, bind_run.
  erewrite browser_run by exact Hsearch. cbv beta iota.
  rewrite bind_run. erewrite scraper_run by exact Hscrape. cbv beta iota.
  rewrite bind_run. erewrite scraper_run; cycle 1.
  { unfold Scraper.saveToCSV. js_run. js_page Hwrite. reflexivity. }
  cbv beta iota. session_run. rewrite closeAndReport_run.
  cbn [Session.sworld Session.strace world trace app fmap list_fmap].
  rewrite Hclose. by rewrite <-!app_assoc.
Qed.

(** The two links of the scripted feed, scraped and saved. *)
Lemma scrapeQuery_returns_the_records_it_saved_witness :
  ∃ (w : Sim.Sim) (events : list Session.SessionEvent),
    Session.scrapeQuery "restaurant near Bulli" (TmpCsv 0)
      (Session.mkSession (Sim.twoLinks [] [] []) [])
    = (Return [Scraper.withPlaceId Sim.cafe "pid"; Scraper.withPlaceId Sim.diner "pid"],
       Session.mkSession w events)
    ∧ Sim.simFiles w
      = [(TmpCsv 0,
          Scraper.csvContent (Scraper.withPlaceId Sim.cafe "pid")
            [Scraper.withPlaceId Sim.cafe "pid"; Scraper.withPlaceId Sim.diner "pid"])].
Proof.
  assert (∃ st2,
            Scraper.scrapeRestaurants (mkState (Sim.twoLinks [] [] []) [] [])
            = (Return [Scraper.withPlaceId Sim.cafe "pid";
                       Scraper.withPlaceId Sim.diner "pid"], st2)
            ∧ Sim.simFiles (world st2) = [])
    as (st2 & Hscrape & Hfiles).
  { vm_compute. eexists. split; reflexivity. }
  eexists _, _. split.
  - exact (scrapeQuery_returns_the_records_it_saved
             "restaurant near Bulli" (TmpCsv 0)
             (Session.mkSession (Sim.twoLinks [] [] []) [])
             (Sim.twoLinks [] [] []) (Sim.twoLinks [] [] []) _ _
             st2 _ _ eq_refl eq_refl Hscrape eq_refl eq_refl).
  - cbn [Sim.simFiles]. by rewrite Hfiles.
Defined.

(** index.mjs on a feed without links: [saveToCSV] of that file reads
    [data[0]] without looking at the length, so the empty array raises a
    [TypeError], which [main] prints; no file is written, and the browser is
    closed as always. *)
Theorem indexMain_raises_on_a_feed_without_links
    {W : Type} `{Page W} `{Session.Browser W}
    (s : Session.SessionState W) (w0 w1 w3 w4 : W) (st2 : State W) :
  Session.initBrowser (Session.sworld s) = (Return tt, w0) →
  Session.searchGoogleMaps
    "restaurant near Keiraville, New South Wales, Australia" w0
  = (Return tt, w1) →
  Scraper.scrollToEnd (mkState w1 [] []) = (Return tt, st2) →
  queryFeedLinks (world st2) = (Return 0, w3) →
  Session.browserClose w3 = (Return tt, w4) →
  Session.indexMain s
  = (Return tt,
     Session.mkSession w4
       (Session.strace s
        ++ (Session.FromScraper <$> (trace st2 ++ [LogFound 0]))
        ++ [Session.ErrSession
              (TypeError "Cannot convert undefined or null to object");
            Session.ClosingBrowser; Session.LogCompleted])).
Proof.
  intros Hinit Hsearch Hscroll Hlinks Hclose.
  assert (Hdata : restaurantsData st2 = []).
  { destruct (scrollToEnd_outcome (mkState w1 [] [])) as (w & ? & ? & Hrun & _).
    rewrite Hscroll in Hrun. by injection Hrun as ->. }
  assert (Hscrape :
    Session.indexScrapeRestaurants (mkState w1 [] [])
    = (Return [], mkState w3 (trace st2 ++ [LogFound 0]) [])).
  { unfold Session.indexScrapeRestaurants. rewrite bind_run.
    unfold Scraper.newRestaurantsData at 1. cbv beta iota.
    cbn [world trace restaurantsData].
    rewrite bind_run, tryCatch_run, bind_run, Hscroll. cbv beta iota.
    js_run. js_page Hlinks. cbn [seq Scraper.forEach]. js_run.
    unfold Scraper.getRestaurantsData. cbn [world trace restaurantsData].
    by rewrite Hdata. }
  unfold Session.indexMain. rewrite bind_run.
  erewrite browser_run by exact Hinit. cbv beta iota.
  rewrite finally_run, tryCatch_run, bind_run.
  erewrite browser_run by exact Hsearch. cbv beta iota.
  rewrite bind_run. erewrite scraper_run by exact Hscrape. cbv beta iota.
  erewrite scraper_run by reflexivity. cbv beta iota.
  session_run. rewrite closeAndReport_run.
  cbn [Session.sworld Session.strace world trace app fmap list_fmap].
  rewrite Hclose. by rewrite <-!app_assoc.
Qed.

(** A feed that shows the end-of-list text and has no link. *)
Lemma indexMain_raises_on_a_feed_without_links_witness :
  let feed := Sim.mkSim [100%Z; 200%Z] 3 true 0 [] [] [] [] None None 0 [] in
  ∃ (w : Sim.Sim) (scrolled : list Event),
    Session.indexMain (Session.mkSession feed [])
    = (Return tt,
       Session.mkSession w
         ([] ++ (Session.FromScraper <$> (scrolled ++ [LogFound 0]))
          ++ [Session.ErrSession
                (TypeError "Cannot convert undefined or null to object");
              Session.ClosingBrowser; Session.LogCompleted])).
Proof.
  intros feed.
  assert (∃ st2, Scraper.scrollToEnd (mkState feed [] []) = (Return tt, st2)
                 ∧ queryFeedLinks (world st2) = (Return 0, world st2))
    as (st2 & Hscroll & Hlinks).
  { vm_compute. eexists. split; reflexivity. }
  exists (world st2), (trace st2).
  exact (indexMain_raises_on_a_feed_without_links
           (Session.mkSession feed []) feed feed (world st2) (world st2) st2
           eq_refl eq_refl Hscroll Hlinks eq_refl).
Defined.

(** ** An item that is scraped, and the final merge *)

(** [extractRestaurantInfo] never raises.  It waits for the panel and, when
    the wait resolves, reads the panel: it returns what the reading yields
    after printing it, and when the wait or the reading rejects it prints
    that error and returns [null]; after a wait that rejects the panel is
    not read. *)
Theorem extractRestaurantInfo_never_raises {W : Type} `{Page W}
    (st : State W) (w1 w2 : W)
    (waited : Result unit) (evaluated : Result (option RestaurantInfo)) :
  waitForSelectorMain (world st) = (waited, w1) →
  evaluateRestaurantInfo w1 = (evaluated, w2) →
  Scraper.extractRestaurantInfo st
  = match waited, evaluated with
    | Throw e, _ =>
        (Return None,
         mkState w1 (trace st ++ [ErrExtracting e]) (restaurantsData st))
    | Return _, Throw e =>
        (Return None,
         mkState w2 (trace st ++ [ErrExtracting e]) (restaurantsData st))
    | Return _, Return restaurantInfo =>
        (Return restaurantInfo,
         mkState w2 (trace st ++ [LogExtracted restaurantInfo]) (restaurantsData st))
    end.
Proof.
  intros Hwait Heval.
  rewrite extractRestaurantInfo_run. unfold Scraper.extraction.
  rewrite Hwait. destruct waited as [[]|e]; [|reflexivity].
  rewrite Heval. by destruct evaluated as [info|e].
Qed.

(** The panel of the first link of the scripted feed, open. *)
Lemma extractRestaurantInfo_never_raises_witness :
  let panel :=
    Sim.mkSim [100%Z; 200%Z] 3 true 2 [] [] [] [Some Sim.cafe; Some Sim.diner]
      (Some 0) (Some 0) 0 [] in
  Scraper.extractRestaurantInfo (Sim.start panel)
  = (Return (Some Sim.cafe),
     mkState panel ([] ++ [LogExtracted (Some Sim.cafe)]) []).
Proof.
  intros panel.
  exact (extractRestaurantInfo_never_raises (Sim.start panel) panel panel
           (Return tt) (Return (Some Sim.cafe)) eq_refl eq_refl).
Defined.

(** When the link scrolls into view, its panel opens and closes, each within
    its three attempts, and the panel yields an info, the iteration appends
    exactly the record [{ ...restaurantInfo, placeId }], prints no failure
    message and raises nothing; the attempts that failed before are retried
    in order, each followed by its line and its pause. *)
Theorem item_is_scraped_when_every_step_succeeds {W : Type} `{Page W}
    (total i : nat) (st : State W) (k1 k2 k3 : nat) (w2 w3 w4 w5 : W)
    (info : RestaurantInfo) (extracted : list Event) :
  k1 < 3 → k2 < 3 → k3 < 3 →
  Scraper.afterSuccess (Scraper.scrollFunc i) k1 (Scraper.placeIdOf i (world st)).2
  = Some w2 →
  Scraper.afterSuccess (Scraper.clickFunc i) k2 w2 = Some w3 →
  Scraper.extraction w3 = (Some info, extracted, w4) →
  Scraper.afterSuccess Scraper.closeFunc k3 w4 = Some w5 →
  Scraper.processItem total i st
  = (Return tt,
     mkState w5
       (trace st
        ++ LogProcessing (i + 1) total
        :: (Scraper.failedAttempts (ScrollingTo (i + 1)) 3 0 k1
            ++ [Invoke (ScrollingTo (i + 1)) k1])
        ++ (Scraper.failedAttempts (Clicking (i + 1)) 3 0 k2
            ++ [Invoke (Clicking (i + 1)) k2])
        ++ extracted
        ++ [LogScraped (info_name info) (Scraper.placeIdOf i (world st)).1]
        ++ Scraper.failedAttempts (Closing (i + 1)) 3 0 k3
        ++ [Invoke (Closing (i + 1)) k3])
       (restaurantsData st
        ++ [Scraper.withPlaceId info (Scraper.placeIdOf i (world st)).1])).
Proof.
  intros Hk1 Hk2 Hk3 Hscroll Hclick Hextract Hclose.
  unfold Scraper.processItem. js_run.
  rewrite placeId_run. cbv beta iota. rewrite tryCatch_run.
  unfold Scraper.processItemSteps. js_run.
  erewrite executeWithRetry_true by (exact Hk1 || exact Hscroll).
  cbv beta iota. cbn [negb]. js_run.
  erewrite executeWithRetry_true by (exact Hk2 || exact Hclick).
  cbv beta iota. cbn [negb]. js_run.
  rewrite extractRestaurantInfo_run. cbv beta iota.
  cbn [world trace restaurantsData]. rewrite Hextract. cbn [fst snd]. js_run.
  cbn [world trace restaurantsData].
  erewrite executeWithRetry_true by (exact Hk3 || exact Hclose).
  cbv beta iota. cbn [negb]. js_run.
  cbn [world trace restaurantsData].
  rewrite <-?app_assoc. reflexivity.
Qed.

(** The first link of the scripted feed: in view at the second attempt, open
    at the third, closed at the first. *)
Lemma item_is_scraped_when_every_step_succeeds_witness :
  ∃ w5 : Sim.Sim,
    Scraper.processItem 2 0 (Sim.start (Sim.twoLinks [1; 0] [2; 0] [0; 0]))
    = (Return tt,
       mkState w5
         ([] ++ LogProcessing (0 + 1) 2
          :: (Scraper.failedAttempts (ScrollingTo (0 + 1)) 3 0 1
              ++ [Invoke (ScrollingTo (0 + 1)) 1])
          ++ (Scraper.failedAttempts (Clicking (0 + 1)) 3 0 2
              ++ [Invoke (Clicking (0 + 1)) 2])
          ++ [LogExtracted (Some Sim.cafe)]
          ++ [LogScraped "Cafe" "pid"]
          ++ Scraper.failedAttempts (Closing (0 + 1)) 3 0 0
          ++ [Invoke (Closing (0 + 1)) 0])
         ([] ++ [Scraper.withPlaceId Sim.cafe "pid"])).
Proof.
  eexists.
  refine (item_is_scraped_when_every_step_succeeds 2 0
            (Sim.start (Sim.twoLinks [1; 0] [2; 0] [0; 0])) 1 2 0
            _ _ _ _ Sim.cafe [LogExtracted (Some Sim.cafe)] _ _ _ _ _ _ _).
  - lia.
  - lia.
  - lia.
  - vm_compute. reflexivity.
  - vm_compute. reflexivity.
  - vm_compute. reflexivity.
  - vm_compute. reflexivity.
Defined.

(** The merge of batchScraper.mjs removes the temporary directory only after
    the merged file was written.  With at least one record, the records
    kept, headed by the keys of the first, are written to the final file in
    the world the run started in.  When that write rejects, the merge
    rejects with its error in the world the write has left: [fs.rm] is not
    called and the temporary directory stays.  When it resolves, 'Final
    results saved' is printed and [fs.rm] is called in the world the write
    has left; its outcome is the outcome of the merge. *)
Theorem mergeAndSave_cleans_up_only_after_saving
    {W : Type} `{Page W} `{StringMethods}
    (allRestaurants : list JsObject) (st : State W)
    (first : JsObject) (rest : list JsObject)
    (w1 w2 : W) (written removed : Result unit) :
  let content := Scraper.csvContent first (first :: rest) in
  let counted := LogFoundUnique (length (first :: rest)) (length allRestaurants) in
  getUniqueRestaurants allRestaurants = first :: rest →
  fsWriteFile FinalOutput content (world st) = (written, w1) →
  fsRemoveTmpDir w1 = (removed, w2) →
  Batch.mergeAndSave allRestaurants st
  = match written with
    | Throw e =>
        (Throw e,
         mkState w1
           (trace st ++ [counted; WriteFile FinalOutput content])
           (restaurantsData st))
    | Return _ =>
        (removed,
         mkState w2
           (trace st
            ++ [counted; WriteFile FinalOutput content; LogFinalSaved; RemoveTmpDir])
           (restaurantsData st))
    end.
Proof.
  intros content counted Hunique Hwrite Hremove.
  unfold Batch.mergeAndSave. rewrite Hunique. js_run.
  cbn [Batch.objectKeysOfFirst]. js_run. cbn [world trace restaurantsData].
  change (Scraper.join Scraper.newline
            (Scraper.join "," (fst <$> first)
             :: ((fun item =>
                    Scraper.join "," ((fun kv => Scraper.joinString (snd kv)) <$> item))
                   <$> first :: rest)))
    with content.
  js_page Hwrite. destruct written as [[]|e].
  - cbn [world trace restaurantsData].
    erewrite page_run by exact Hremove. cbn [world trace restaurantsData].
    by rewrite <-!app_assoc.
  - cbn [world trace restaurantsData]. by rewrite <-!app_assoc.
Qed.

(** Three records of which the second repeats the first in another letter
    case, merged on the scripted page. *)
Lemma mergeAndSave_cleans_up_only_after_saving_witness :
  let a := Scraper.withPlaceId Sim.cafe "pid" in
  let b := Scraper.withPlaceId (mkInfo "CAFE" "555" "N/A" "1 MAIN ST") "p1" in
  let c := Scraper.withPlaceId Sim.diner "p2" in
  ∃ w2 : Sim.Sim,
    @Batch.mergeAndSave Sim.Sim Sim.Sim_page asciiStrings [a; b; c]
      (Sim.start (Sim.twoLinks [] [] []))
    = (Return tt,
       mkState w2
         ([] ++ [LogFoundUnique 2 3;
                 WriteFile FinalOutput (Scraper.csvContent a [a; c]);
                 LogFinalSaved; RemoveTmpDir])
         [])
    ∧ Sim.simFiles w2 = [(FinalOutput, Scraper.csvContent a [a; c])].
Proof.
  intros a b c.
  assert (Hunique : @getUniqueRestaurants asciiStrings [a; b; c] = [a; c]).
  { vm_compute. reflexivity. }
  eexists. split.
  - exact (@mergeAndSave_cleans_up_only_after_saving
             Sim.Sim Sim.Sim_page asciiStrings [a; b; c]
             (Sim.start (Sim.twoLinks [] [] [])) a [c] _ _ (Return tt) (Return tt)
             Hunique eq_refl eq_refl).
  - reflexivity.
Defined.

(** ** The first version of the scrolling *)

(** In src/unnamed/part_000 a feed that has stopped growing ends the
    scrolling in the iteration that sees it: after the scroll the loop only
    sleeps, so the comparison of the heights is reached, and when the height
    is still the same after two more seconds, [scrollToEnd] prints 'No more
    results to load' and returns. *)
Theorem first_scrollToEnd_stops_on_a_stable_height {W : Type} `{Page W}
    (st : State W) (w1 w2 w3 w4 w5 w6 : W) (height : Z) :
  waitForSelectorFeed (world st) = (Return tt, w1) →
  feedScrollHeight (elapse 3000 w1) = (Return height, w2) →
  feedScrollTo w2 = (Return tt, w3) →
  endOfListVisible (elapse 2000 w3) = (Return false, w4) →
  feedScrollHeight w4 = (Return height, w5) →
  feedScrollHeight (elapse 2000 w5) = (Return height, w6) →
  Legacy.scrollToEnd st
  = (Return tt,
     mkState w6
       (trace st
        ++ [Delay 3000; LogScrolling; Delay 2000; Delay 2000; LogNoMoreResults])
       (restaurantsData st)).
Proof.
  intros Hfeed Hfirst Hscroll Hend Hnew Hfinal.
  unfold Legacy.scrollToEnd. rewrite tryCatch_run. js_run.
  js_page Hfeed. cbn [world trace restaurantsData]. js_page Hfirst.
  unfold Scraper.maxAttempts. cbn [Legacy.scrollLoop]. js_run.
  js_page Hscroll. cbn [world trace restaurantsData]. js_page Hend.
  js_page Hnew. rewrite Z.eqb_refl.
  unfold Legacy.stabilityCheck. js_run. cbn [world trace restaurantsData].
  js_page Hfinal. rewrite Z.eqb_refl. js_run.
  cbn [world trace restaurantsData]. by rewrite <-!app_assoc.
Qed.

(** The feed of constant height on which the scrolling of scraper.mjs ends
    in its [catch]. *)
Lemma first_scrollToEnd_stops_on_a_stable_height_witness :
  ∃ w6 : Sim.Sim,
    Legacy.scrollToEnd (Sim.start (Sim.constantFeed 1000 3))
    = (Return tt,
       mkState w6
         ([] ++ [Delay 3000; LogScrolling; Delay 2000; Delay 2000; LogNoMoreResults])
         []).
Proof.
  eexists.
  refine (first_scrollToEnd_stops_on_a_stable_height
            (Sim.start (Sim.constantFeed 1000 3)) _ _ _ _ _ _ 1000 _ _ _ _ _ _);
    vm_compute; reflexivity.
Defined.

(** ** The keys of src/unnamed/part_001 *)

Section KeyFacts.
Import DetailScraper Keys.

Lemma toLowerCaseChar_lower c : isUpperChar (toLowerCaseChar c) = false.
Proof. destruct c as [[] [] [] [] [] [] [] []]; reflexivity. Qed.

Lemma toLowerCaseChar_id c : isUpperChar c = false → toLowerCaseChar c = c.
Proof. unfold toLowerCaseChar. by intros ->. Qed.

Lemma underscore_not_upper : isUpperChar underscore = false.
Proof. reflexivity. Qed.

Lemma toLowerCaseAscii_lower s : hasUpper (toLowerCaseAscii s) = false.
Proof.
  induction s as [|c s IH]; [reflexivity|].
  cbn [toLowerCaseAscii hasUpper]. by rewrite toLowerCaseChar_lower, IH.
Qed.

Lemma toLowerCaseAscii_id s : hasUpper s = false → toLowerCaseAscii s = s.
Proof.
  induction s as [|c s IH]; [reflexivity|].
  cbn [toLowerCaseAscii hasUpper]. intros [Hc Hs]%orb_false_elim.
  by rewrite toLowerCaseChar_id, IH.
Qed.

Lemma underscoreUpper_id s : hasUpper s = false → underscoreUpper s = s.
Proof.
  induction s as [|c s IH]; [reflexivity|].
  cbn [underscoreUpper hasUpper]. intros [Hc Hs]%orb_false_elim.
  by rewrite Hc, IH.
Qed.

Lemma decamelize_id s : hasUpper s = false → decamelize s = s.
Proof.
  intros Hs. unfold decamelize. by rewrite underscoreUpper_id, toLowerCaseAscii_id.
Qed.

Lemma toLowerCaseAscii_length s : String.length (toLowerCaseAscii s) = String.length s.
Proof. induction s as [|c s IH]; [reflexivity|]. cbn. by rewrite IH. Qed.

Lemma underscoreUpper_length s :
  String.length (underscoreUpper s) = String.length s + countUpper s.
Proof.
  induction s as [|c s IH]; [reflexivity|].
  cbn [underscoreUpper countUpper String.length].
  destruct (isUpperChar c); cbn [String.length]; rewrite IH; lia.
Qed.

Lemma toLowerCaseAscii_underscore s :
  Csv.contains underscore (toLowerCaseAscii s) = Csv.contains underscore s.
Proof.
  induction s as [|c s IH]; [reflexivity|].
  cbn [toLowerCaseAscii Csv.contains]. rewrite IH. f_equal.
  destruct c as [[] [] [] [] [] [] [] []]; reflexivity.
Qed.

Lemma underscoreUpper_underscore s :
  hasUpper s = true → Csv.contains underscore (underscoreUpper s) = true.
Proof.
  induction s as [|c s IH]; [discriminate|].
  cbn [underscoreUpper hasUpper].
  destruct (isUpperChar c) eqn:Hc; [reflexivity|].
  cbn [orb Csv.contains]. intros Hs. rewrite (IH Hs). apply orb_true_r.
Qed.

(** A text without underscore is the key of itself only. *)
Lemma decamelize_to_plain k t :
  Csv.contains underscore t = false → decamelize k = t → k = t.
Proof.
  intros Ht <-. destruct (hasUpper k) eqn:Hk.
  - unfold decamelize in Ht.
    rewrite toLowerCaseAscii_underscore, underscoreUpper_underscore in Ht by exact Hk.
    discriminate.
  - by rewrite decamelize_id.
Qed.

Lemma getProp_setProp obj k v k' :
  getProp (setProp obj k v) k'
  = if String.eqb k k' then v else getProp obj k'.
Proof.
  induction obj as [|[k0 v0] obj IH]; cbn [setProp getProp].
  - by destruct (String.eqb k k').
  - destruct (String.eqb_spec k0 k) as [->|Hne]; cbn [getProp].
    + by destruct (String.eqb k k').
    + rewrite IH. destruct (String.eqb_spec k0 k') as [->|Hne'];
        [|reflexivity].
      destruct (String.eqb_spec k k') as [->|_]; [done|reflexivity].
Qed.

Lemma getProp_absent obj k : k ∉ fst <$> obj → getProp obj k = JsUndefined.
Proof.
  induction obj as [|[k0 v0] obj IH]; [reflexivity|].
  cbn [fmap list_fmap fst getProp]. rewrite not_elem_of_cons. intros [Hne Hk].
  destruct (String.eqb_spec k0 k) as [->|_]; [done|by apply IH].
Qed.

(** Under a key without underscore and without letter [A-Z], the record
    with decamelized keys holds what the record held. *)
Lemma getProp_decamelized (obj : JsObject) (t : string) :
  Csv.contains underscore t = false →
  hasUpper t = false →
  NoDup (fst <$> obj) →
  getProp (decamelizeKeys obj) t = getProp obj t.
Proof.
  intros Ht Hlower. unfold decamelizeKeys, fromEntries.
  assert (Hgen : ∀ init : JsObject,
    NoDup (fst <$> obj) →
    getProp (fold_left (fun o kv => setProp o (fst kv) (snd kv))
               ((fun kv => (decamelize (fst kv), snd kv)) <$> obj) init) t
    = if bool_decide (t ∈ fst <$> obj) then getProp obj t else getProp init t).
  { induction obj as [|[k v] obj IH]; intros init Hnd; [reflexivity|].
    cbn [fmap list_fmap fold_left fst snd] in *.
    apply NoDup_cons in Hnd as [Hk Hnd]. rewrite (IH _ Hnd).
    cbn [getProp]. rewrite getProp_setProp.
    destruct (String.eqb_spec k t) as [->|Hne].
    - rewrite (bool_decide_eq_false_2 _ Hk).
      rewrite bool_decide_eq_true_2 by apply list_elem_of_here.
      by rewrite decamelize_id, String.eqb_refl.
    - destruct (String.eqb_spec (decamelize k) t) as [Heq|_].
      + apply (decamelize_to_plain _ _ Ht) in Heq. done.
      + apply (f_equal (fun b : bool => if b then _ else _)).
        apply bool_decide_ext. rewrite elem_of_cons.
        split; [by right | by intros [->|?]]. }
  intros Hnd. rewrite (Hgen [] Hnd).
  case_bool_decide as Hin; [reflexivity|].
  cbn [getProp]. symmetry. by apply getProp_absent.
Qed.

End KeyFacts.

(** [decamelize] leaves no letter [A-Z], puts one underscore in front of
    each such letter, changes nothing when applied again, and leaves a key
    as it is exactly when the key has no such letter. *)
Theorem decamelize_makes_lower_snake_keys (str : string) :
  Keys.hasUpper (DetailScraper.decamelize str) = false
  ∧ String.length (DetailScraper.decamelize str)
    = String.length str + Keys.countUpper str
  ∧ DetailScraper.decamelize (DetailScraper.decamelize str)
    = DetailScraper.decamelize str
  ∧ (DetailScraper.decamelize str = str ↔ Keys.hasUpper str = false).
Proof.
  split_and!.
  - apply toLowerCaseAscii_lower.
  - unfold DetailScraper.decamelize.
    by rewrite toLowerCaseAscii_length, underscoreUpper_length.
  - apply decamelize_id, toLowerCaseAscii_lower.
  - split; [|apply decamelize_id].
    intros Heq. rewrite <-Heq. apply toLowerCaseAscii_lower.
Qed.

(** The records of src/unnamed/part_001 carry the address under
    [full_address]: there is no [address] to read, so the key of
    [getUniqueRestaurants] is the lower-cased text of the name followed by
    '-undefined', and of two places whose names are the same in lower case
    the second is removed, wherever it is.  The keys of the records are
    ASCII identifiers, on which [decamelize] is as modelled; the names are
    any texts, and [toLowerCase] is any function that lower-cases the key
    part by part. *)
Theorem detailed_records_are_merged_by_name_alone `{StringMethods}
    (a b : JsObject) :
  lowerCaseOfParts →
  Forall (fun k => Keys.isAscii k = true) (fst <$> a) →
  Forall (fun k => Keys.isAscii k = true) (fst <$> b) →
  NoDup (fst <$> a) → NoDup (fst <$> b) →
  getProp a "address" = JsUndefined →
  getProp b "address" = JsUndefined →
  toLowerCase (templateString (getProp a "name"))
  = toLowerCase (templateString (getProp b "name")) →
  dedupKey (DetailScraper.decamelizeKeys a)
  = toLowerCase (templateString (getProp a "name") +:+ "-undefined")
  ∧ getUniqueRestaurants
      [DetailScraper.decamelizeKeys a; DetailScraper.decamelizeKeys b]
    = [DetailScraper.decamelizeKeys a].
Proof.
  intros Hparts _ _ Hnda Hndb Ha Hb Hname.
  assert (Hkey : ∀ r : JsObject,
    NoDup (fst <$> r) → getProp r "address" = JsUndefined →
    dedupKey (DetailScraper.decamelizeKeys r)
    = toLowerCase (templateString (getProp r "name") +:+ "-undefined")).
  { intros r Hnd Hr. unfold dedupKey, nameOf, addressOf.
    rewrite !getProp_decamelized by (reflexivity || exact Hnd).
    by rewrite Hr. }
  split; [by apply Hkey|].
  unfold getUniqueRestaurants. cbn [filterUnseen].
  rewrite decide_False by apply not_elem_of_empty.
  rewrite decide_True; [reflexivity|].
  rewrite (Hkey a Hnda Ha), (Hkey b Hndb Hb).
  change (toLowerCase (templateString (getProp b "name") +:+ "-" +:+ "undefined")
          ∈ ({[toLowerCase (templateString (getProp a "name") +:+ "-" +:+ "undefined")]}
             ∪ ∅ : gset string)).
  rewrite !Hparts, Hname.
  apply elem_of_union_l, elem_of_singleton. reflexivity.
Qed.

(** Two places called Cafe, in different streets. *)
Lemma detailed_records_are_merged_by_name_alone_witness :
  let a := DetailScraper.mergeInfo (Some (Sim.detailedOf Sim.cafe)) (Sim.briefOf 0) in
  let b := DetailScraper.mergeInfo
             (Some (Sim.detailedOf (mkInfo "CAFE" "N/A" "N/A" "9 Other Rd")))
             (Sim.briefOf 1) in
  @dedupKey asciiStrings (DetailScraper.decamelizeKeys a)
  = @toLowerCase asciiStrings (templateString (getProp a "name") +:+ "-undefined")
  ∧ @getUniqueRestaurants asciiStrings
      [DetailScraper.decamelizeKeys a; DetailScraper.decamelizeKeys b]
    = [DetailScraper.decamelizeKeys a].
Proof.
  intros a b.
  refine (@detailed_records_are_merged_by_name_alone asciiStrings a b
            asciiStrings_lowerCaseOfParts _ _ _ _ _ _ _).
  - repeat constructor.
  - repeat constructor.
  - apply (bool_decide_unpack _). vm_compute. reflexivity.
  - apply (bool_decide_unpack _). vm_compute. reflexivity.
  - vm_compute. reflexivity.
  - vm_compute. reflexivity.
  - vm_compute. reflexivity.
Defined.
